(** * Hybridization preconditioner (firedrake/slate/preconditioners.py)

    A shallow embedding of [HybridizationPC] and [create_schur_nullspace].

    The Python class drives a number of external collaborators (UFL forms,
    Slate tensors, PyOP2 data, PETSc vectors, matrices and solvers).  The
    symbolic objects the code builds (function spaces, arguments, forms,
    Slate expressions, assembly callables, projectors) are modelled as
    plain data; the numerical work those objects stand for is delegated to
    a [Backend] interface whose operations are left uninterpreted.  The
    Python object [self], the PyOP2/PETSc storage and the sequence of
    calls made to the collaborators live in an explicit [State], threaded
    through a state-and-exception monad. *)

From Stdlib Require Import String List ZArith QArith Bool Arith Lia.
Import ListNotations.

Local Open Scope string_scope.
Local Open Scope list_scope.

Set Implicit Arguments.

(* ================================================================== *)
(** ** Python exceptions and the state/exception monad *)

Inductive Exception : Type :=
| NotImplementedError (msg : string)
| AssertionError (msg : string)
| ValueError (msg : string)
| AttributeError (attr : string)
| KeyError (key : nat * nat)
| IndexError (idx : nat)
| TypeError (msg : string).

Inductive Result (A : Type) : Type :=
| Ok (a : A)
| Raise (e : Exception).

Arguments Ok {A} a.
Arguments Raise {A} e.

Section Monad.
Variable St : Type.

(** A computation reads and writes the state; when it raises, the state
    keeps every mutation made before the exception. *)
Definition M (A : Type) : Type := St -> Result A * St.

Definition ret {A} (a : A) : M A := fun s => (Ok a, s).

Definition raise {A} (e : Exception) : M A := fun s => (Raise e, s).

Definition bind {A B} (m : M A) (k : A -> M B) : M B :=
  fun s => match m s with
           | (Ok a, s') => k a s'
           | (Raise e, s') => (Raise e, s')
           end.

Definition gets {A} (f : St -> A) : M A := fun s => (Ok (f s), s).

Definition modify (f : St -> St) : M unit := fun s => (Ok tt, f s).

(** [for x in xs: body x], collecting what each iteration returns. *)
Fixpoint for_each {A B} (xs : list A) (body : A -> M B) : M (list B) :=
  match xs with
  | [] => ret []
  | x :: xs' => bind (body x) (fun b =>
                bind (for_each xs' body) (fun bs => ret (b :: bs)))
  end.
End Monad.

Arguments ret {St A} a.
Arguments raise {St A} e.
Arguments bind {St A B} m k.
Arguments gets {St A} f.
Arguments modify {St} f.
Arguments for_each {St A B} xs body.

Declare Scope py_scope.
Delimit Scope py_scope with py.
Notation "x <- m ;; k" := (bind m (fun x => k))
  (at level 61, m at next level, right associativity) : py_scope.
Notation "' pat <- m ;; k" := (bind m (fun x => match x with pat => k end))
  (at level 61, pat pattern, m at next level, right associativity) : py_scope.
Notation "m ;; k" := (bind m (fun _ => k))
  (at level 61, right associativity) : py_scope.

(** Python tuple unpacking, [a, = xs] and [a, b = xs]. *)
Definition unpack1 {St A} (xs : list A) : M St A :=
  match xs with
  | [a] => ret a
  | [] => raise (ValueError "need more than 0 values to unpack")
  | _ => raise (ValueError "too many values to unpack")
  end.

Definition unpack2 {St A} (xs : list A) : M St (A * A) :=
  match xs with
  | [a; b] => ret (a, b)
  | [] => raise (ValueError "need more than 0 values to unpack")
  | [_] => raise (ValueError "need more than 1 value to unpack")
  | _ => raise (ValueError "too many values to unpack")
  end.

(** [xs[i]] *)
Definition getitem {St A} (xs : list A) (i : nat) : M St A :=
  match nth_error xs i with
  | Some a => ret a
  | None => raise (IndexError i)
  end.

(* ================================================================== *)
(** ** UFL: meshes, elements, function spaces, arguments, forms *)

Record Mesh : Type := mkMesh {
  mesh_id : nat;
  cell_set_extruded : bool          (* mesh.cell_set._extruded *)
}.

Record FiniteElement : Type := mkElement {
  family : string;
  degree : Z;
  value_shape : list nat;           (* () for scalar elements *)
  is_broken : bool
}.

Definition BrokenElement (e : FiniteElement) : FiniteElement :=
  {| family := family e; degree := degree e;
     value_shape := value_shape e; is_broken := true |}.

(** Modelled from the spec: function spaces of Firedrake, not among the
    sources (spec 3, "Function Space ... attributes: element family,
    polynomial degree, value-shape, continuity").  A non-mixed function
    space. *)
Record FunctionSpace : Type := mkFunctionSpace {
  fs_mesh : Mesh;
  ufl_element : FiniteElement
}.

(** What [firedrake.FunctionSpace] may return: a plain space, or a mixed
    space when given a [MixedElement]. *)
Inductive Space : Type :=
| Plain (fs : FunctionSpace)
| Mixed (m : Mesh) (subs : list FunctionSpace).

Definition space_mesh (V : Space) : Mesh :=
  match V with
  | Plain fs => fs_mesh fs
  | Mixed m _ => m
  end.

(** [iter(V)]: the component spaces. *)
Definition iter_space (V : Space) : list FunctionSpace :=
  match V with
  | Plain fs => [fs]
  | Mixed _ subs => subs
  end.

(** [len(V)] *)
Definition len (V : Space) : nat := length (iter_space V).

Definition MixedElement (es : list FiniteElement) : list FiniteElement := es.

(** [FunctionSpace(mesh, element)] for a mixed element. *)
Definition MixedFunctionSpace (m : Mesh) (es : list FiniteElement) : Space :=
  Mixed m (map (mkFunctionSpace m) es).

(** [FunctionSpace(mesh, family, degree)] for a scalar family. *)
Definition ScalarFunctionSpace (m : Mesh) (fam : string) (deg : Z)
  : FunctionSpace :=
  mkFunctionSpace m {| family := fam; degree := deg;
                       value_shape := []; is_broken := false |}.

(** Truth value of a Python tuple. *)
Definition truthy {A} (t : list A) : bool :=
  match t with [] => false | _ => true end.

(** Test ([number = 0]) and trial ([number = 1]) functions. *)
Record Argument : Type := mkArgument {
  arg_number : nat;
  function_space : Space
}.

Definition TestFunction (V : Space) : Argument := mkArgument 0 V.
Definition TrialFunction (V : Space) : Argument := mkArgument 1 V.

(** An argument, or one component of a mixed argument. *)
Inductive Operand : Type :=
| Arg (a : Argument)
| ArgComponent (a : Argument) (i : nat).

(** [TrialFunctions(V)]: the split of the trial function of [V]. *)
Definition TrialFunctions (V : Space) : list Operand :=
  map (ArgComponent (TrialFunction V)) (seq 0 (len V)).

Definition component_shape (V : Space) (i : nat) : list nat :=
  match nth_error (iter_space V) i with
  | Some fs => value_shape (ufl_element fs)
  | None => []
  end.

Definition operand_shape (o : Operand) : list nat :=
  match o with
  | Arg a => match function_space a with
             | Plain fs => value_shape (ufl_element fs)
             | Mixed _ subs =>
                 [fold_right Nat.add 0%nat
                    (map (fun fs => fold_right Nat.mul 1%nat
                                      (value_shape (ufl_element fs))) subs)]
             end
  | ArgComponent a i => component_shape (function_space a) i
  end.

Inductive Form : Type :=
| Bilinear (integrand : nat) (test trial : Argument)
    (* a user-supplied bilinear form over its two arguments *)
| FacetPairing (gammar : Argument) (v : Operand) (m : Mesh)
    (* gammar('+') * dot(v, FacetNormal(m)) * dS *)
| Block (f : Form) (i j : nat).
    (* one block of a form over mixed arguments *)

Fixpoint arguments (f : Form) : list Argument :=
  match f with
  | Bilinear _ test trial => [test; trial]
  | FacetPairing gammar v _ =>
      [gammar; match v with Arg a => a | ArgComponent a _ => a end]
  | Block f' _ _ => arguments f'
  end.

(** Decidable equality, for dictionary keys and [list.index]. *)
Definition Mesh_eq_dec (a b : Mesh) : {a = b} + {a <> b}.
Proof. decide equality; [apply Bool.bool_dec | apply Nat.eq_dec]. Defined.

Definition FiniteElement_eq_dec (a b : FiniteElement) : {a = b} + {a <> b}.
Proof.
  decide equality;
    [apply Bool.bool_dec | apply (list_eq_dec Nat.eq_dec)
    | apply Z.eq_dec | apply string_dec].
Defined.

Definition FunctionSpace_eq_dec (a b : FunctionSpace) : {a = b} + {a <> b}.
Proof.
  decide equality; [apply FiniteElement_eq_dec | apply Mesh_eq_dec].
Defined.

Definition Space_eq_dec (a b : Space) : {a = b} + {a <> b}.
Proof.
  decide equality;
    [apply FunctionSpace_eq_dec | apply (list_eq_dec FunctionSpace_eq_dec)
    | apply Mesh_eq_dec].
Defined.

Definition Argument_eq_dec (a b : Argument) : {a = b} + {a <> b}.
Proof. decide equality; [apply Space_eq_dec | apply Nat.eq_dec]. Defined.

(** A Python dictionary with the entries in insertion order; a later
    entry for a key replaces the earlier one. *)
Definition Dict (K V : Type) : Type := list (K * V).

Fixpoint dict_get {K V} (eqb : K -> K -> bool) (d : Dict K V) (k : K)
  : option V :=
  match d with
  | [] => None
  | (k', v) :: d' =>
      match dict_get eqb d' k with
      | Some v' => Some v'
      | None => if eqb k' k then Some v else None
      end
  end.

Definition argument_eqb (a b : Argument) : bool :=
  if Argument_eq_dec a b then true else false.

(** [ufl.algorithms.replace.replace], on the arguments of a form. *)
Definition replace_argument (arg_map : Dict Argument Argument) (a : Argument)
  : Argument :=
  match dict_get argument_eqb arg_map a with
  | Some a' => a'
  | None => a
  end.

Fixpoint replace (f : Form) (arg_map : Dict Argument Argument) : Form :=
  match f with
  | Bilinear k test trial =>
      Bilinear k (replace_argument arg_map test)
                 (replace_argument arg_map trial)
  | FacetPairing gammar v m =>
      FacetPairing (replace_argument arg_map gammar)
        match v with
        | Arg a => Arg (replace_argument arg_map a)
        | ArgComponent a i => ArgComponent (replace_argument arg_map a) i
        end m
  | Block f' i j => Block (replace f' arg_map) i j
  end.

(** [list.index] *)
Fixpoint list_index {A} (eq_dec : forall a b : A, {a = b} + {a <> b})
  (xs : list A) (x : A) : option nat :=
  match xs with
  | [] => None
  | y :: ys => if eq_dec y x then Some 0%nat
               else option_map S (list_index eq_dec ys x)
  end.


(* ================================================================== *)
(** ** Firedrake functions and Slate expressions *)

(** Modelled from the spec: [firedrake.Function], not among the sources
    (spec 3, "Field: a named array of coefficients over a function
    space").  A function is a handle on its storage, over a space. *)
Record Function : Type := mkFunction {
  fn_id : nat;
  fn_space : Space
}.

(** A function, or one of the sub-functions returned by [split()]; a
    sub-function shares the storage of the function it comes from. *)
Inductive Coefficient : Type :=
| Whole (f : Function)
| Split (f : Function) (i : nat).

(** [f.split()] *)
Definition split (f : Function) : list Coefficient :=
  map (Split f) (seq 0 (len (fn_space f))).

(** [c.ufl_shape] *)
Definition ufl_shape (c : Coefficient) : list nat :=
  match c with
  | Whole f => operand_shape (Arg (TestFunction (fn_space f)))
  | Split f i => component_shape (fn_space f) i
  end.

(** Modelled from the spec: the tensor algebra of [firedrake.slate.slate],
    not among the sources (spec 4.1 and 9: a symbolic expression tree
    with form leaves, sum, difference, product, transpose and inverse).
    [Tensor] wraps a form; a function that appears as an operand of a
    product is a [Coeff] leaf.  Python's [*], [+] and [-] associate to
    the left, with [*] binding tighter, as the notations below do.
    The constructors are syntax only: the shapes of the operands are
    not part of the model, so the structural errors of spec 4.1 and 7
    (a product, inverse or transpose of blocks that do not fit) are not
    modelled. *)
Inductive Slate : Type :=
| Tensor (f : Form)
| Coeff (c : Coefficient)
| Inv (e : Slate)
| Transpose (e : Slate)
| Mul (a b : Slate)
| Add (a b : Slate)
| Sub (a b : Slate).

Declare Scope slate_scope.
Delimit Scope slate_scope with slate.
Bind Scope slate_scope with Slate.
Infix "*" := Mul : slate_scope.
Infix "+" := Add : slate_scope.
Infix "-" := Sub : slate_scope.

(** The coefficients an expression reads. *)
Fixpoint coefficients (e : Slate) : list Coefficient :=
  match e with
  | Tensor _ => []
  | Coeff c => [c]
  | Inv a | Transpose a => coefficients a
  | Mul a b | Add a b | Sub a b => coefficients a ++ coefficients b
  end.

Definition Parameters : Type := list (string * string).

Record DirichletBC : Type := mkDirichletBC {
  bc_space : FunctionSpace;
  bc_value : Q;
  bc_sub_domain : string
}.

Record Matrix : Type := mkMatrix {
  mat_id : nat;
  mat_expr : Slate;
  mat_bcs : list DirichletBC
}.

Inductive AssemblyTarget : Type :=
| IntoFunction (c : Coefficient)
| IntoMatrix (m : Matrix).

(** What [create_assembly_callable(expr, tensor=, bcs=,
    form_compiler_parameters=)] closes over. *)
Record AssemblyCallable : Type := mkAssemblyCallable {
  ac_expr : Slate;
  ac_tensor : AssemblyTarget;
  ac_bcs : list DirichletBC;
  ac_fc_params : Parameters
}.

(** [Projector(source, target, solver_parameters=)] *)
Record Projector : Type := mkProjector {
  proj_source : Coefficient;
  proj_target : Coefficient;
  proj_ksp_type : option string;
  proj_ksp_rtol : option Q
}.

Record KSP : Type := mkKSP {
  ksp_comm : nat;
  ksp_prefix : string;
  ksp_operators : option Matrix;
  ksp_is_set_up : bool;
  ksp_from_options : bool
}.

Definition KSP_create (comm : nat) : KSP := mkKSP comm "" None false false.
Definition setOptionsPrefix (k : KSP) (p : string) : KSP :=
  mkKSP (ksp_comm k) p (ksp_operators k) (ksp_is_set_up k) (ksp_from_options k).
Definition setOperators (k : KSP) (m : Matrix) : KSP :=
  mkKSP (ksp_comm k) (ksp_prefix k) (Some m) (ksp_is_set_up k)
        (ksp_from_options k).
Definition setUp (k : KSP) : KSP :=
  mkKSP (ksp_comm k) (ksp_prefix k) (ksp_operators k) true (ksp_from_options k).
Definition setFromOptions (k : KSP) : KSP :=
  mkKSP (ksp_comm k) (ksp_prefix k) (ksp_operators k) (ksp_is_set_up k) true.

(** Storage: PyOP2 dats (by function id) and free-standing PETSc
    vectors. *)
Inductive Loc : Type :=
| Dat (id : nat)        (* the dat of a Function *)
| PVec (id : nat)       (* a vector owned by the caller *)
| NewVec (id : nat).    (* a vector created here by [v.copy()] *)

Definition Loc_eq_dec (a b : Loc) : {a = b} + {a <> b}.
Proof. decide equality; apply Nat.eq_dec. Defined.

(** The value of an attribute of [self]. *)
Inductive Attr : Type :=
| AFunction (f : Function)
| ACallable (c : AssemblyCallable)
| AMatrix (m : Matrix)
| AKSP (k : KSP)
| AProjector (p : Projector).

(** Calls made to the numerical collaborators, in the order they are
    issued. *)
Inductive Event : Type :=
| EvAssemble (c : AssemblyCallable)         (* a run of an assembly *)
| EvForceEvaluation (m : Matrix)
| EvProject (p : Projector)                 (* p.project() *)
| EvSolve (k : KSP) (b x : Loc)             (* k.solve(b, x) *)
| EvVecCopy (src dst : Loc)                 (* src.copy(dst), PETSc *)
| EvDatCopy (src dst : Coefficient).        (* src.dat.copy(dst.dat) *)

(** The storage behind a function or sub-function. *)
Definition coefficient_loc (c : Coefficient) : Loc :=
  match c with
  | Whole f | Split f _ => Dat (fn_id f)
  end.

(** Locations an event writes. *)
Definition writes (ev : Event) : list Loc :=
  match ev with
  | EvAssemble c => match ac_tensor c with
                    | IntoFunction t => [coefficient_loc t]
                    | IntoMatrix _ => []
                    end
  | EvForceEvaluation _ => []
  | EvProject p => [coefficient_loc (proj_target p)]
  | EvSolve _ _ x => [x]
  | EvVecCopy _ dst => [dst]
  | EvDatCopy _ dst => [coefficient_loc dst]
  end.

(** Locations an event reads. *)
Definition reads (ev : Event) : list Loc :=
  match ev with
  | EvAssemble c => map coefficient_loc (coefficients (ac_expr c))
  | EvForceEvaluation _ => []
  | EvProject p => [coefficient_loc (proj_source p)]
  | EvSolve _ b x => [b; x]
  | EvVecCopy src _ => [src]
  | EvDatCopy src _ => [coefficient_loc src]
  end.

(* ================================================================== *)
(** ** The numerical collaborators *)

(** Everything numerical is done by code that is not among the sources
    (the form compiler, the kernels of Slate, PyOP2, PETSc) and is taken
    as a parameter: tabulating a form, the dense algebra, boundary
    conditions, projections and the Krylov solve are uninterpreted
    functions of their inputs.  [split_form] of
    [firedrake.formmanipulation] is a parameter too: it returns the
    blocks of a form with their indices, and need not return all of
    them. *)
Class Backend : Type := {
  Val : Type;                       (* assembled data: vector or matrix *)
  Env : Type;                       (* coefficient values of the operator *)
  tabulate : Env -> Form -> Val;
  vmul : Val -> Val -> Val;
  vadd : Val -> Val -> Val;
  vsub : Val -> Val -> Val;
  vinv : Val -> Val;
  vtranspose : Val -> Val;
  vzero : Space -> Val;             (* data of a fresh Function *)
  mzero : Val;                      (* data of a freshly allocated matrix *)
  get_comp : nat -> Val -> Val;     (* data of the i-th sub-function *)
  set_comp : nat -> Val -> Val -> Val;
  apply_bc : DirichletBC -> Val -> Val;
  project_solve : Projector -> Val -> Val -> Val;
                                    (* source data, old target data *)
  krylov_solve : KSP -> Val -> option (list Val) -> Val -> Val -> Val;
                                    (* operator, nullspace, b, old x *)
  split_form : Form -> list ((nat * nat) * Form)
}.

(* ================================================================== *)
(** ** Program state and the primitive operations *)

Section Hybridization.
Context {backend : Backend}.

(** A PETSc nullspace object; [handle = 0] is the null object PETSc
    returns when a matrix has no nullspace attached. *)
Record NullSpace : Type := mkNullSpace {
  handle : nat;
  ns_vecs : list Loc;                  (* getVecs() *)
  ns_comm : nat
}.

(** The Python context of the operator: [context.a], [context.fc_params]. *)
Record ImplicitMatrixContext : Type := mkContext {
  ctx_a : Form;
  ctx_fc_params : Parameters
}.

Record Operator : Type := mkOperator {
  getPythonContext : ImplicitMatrixContext;
  getNullSpace : NullSpace
}.

(** The PETSc [pc] object handed to every method. *)
Record PC : Type := mkPC {
  getOptionsPrefix : string;
  getOperators : Operator * Operator;
  pc_comm : nat
}.

Record State : Type := mkState {
  self_dict : Dict string Attr;              (* the attributes of self *)
  next_id : nat;                             (* allocation counter *)
  data : Loc -> Val;                         (* dat and vector contents *)
  mats : nat -> Val;                         (* matrix contents *)
  mat_nullspace : nat -> option NullSpace;   (* Mat.setNullSpace *)
  env : Env;                                 (* operator coefficients *)
  options : Dict string Q;                   (* PETSc.Options() *)
  log : list Event
}.

Definition set_self_dict (d : Dict string Attr) (s : State) : State :=
  mkState d (next_id s) (data s) (mats s) (mat_nullspace s) (env s)
          (options s) (log s).

Definition set_next_id (n : nat) (s : State) : State :=
  mkState (self_dict s) n (data s) (mats s) (mat_nullspace s) (env s)
          (options s) (log s).

Definition set_data (d : Loc -> Val) (s : State) : State :=
  mkState (self_dict s) (next_id s) d (mats s) (mat_nullspace s) (env s)
          (options s) (log s).

Definition set_mats (m : nat -> Val) (s : State) : State :=
  mkState (self_dict s) (next_id s) (data s) m (mat_nullspace s) (env s)
          (options s) (log s).

Definition set_mat_nullspace (n : nat -> option NullSpace) (s : State)
  : State :=
  mkState (self_dict s) (next_id s) (data s) (mats s) n (env s)
          (options s) (log s).

Definition emit (ev : Event) (s : State) : State :=
  mkState (self_dict s) (next_id s) (data s) (mats s) (mat_nullspace s)
          (env s) (options s) (log s ++ [ev]).

Definition upd {A} (h : Loc -> A) (l : Loc) (v : A) : Loc -> A :=
  fun l' => if Loc_eq_dec l l' then v else h l'.

Definition upd_nat {A} (h : nat -> A) (n : nat) (v : A) : nat -> A :=
  fun n' => if Nat.eqb n n' then v else h n'.

Local Open Scope py_scope.

(** [self.name = v] *)
Definition setattr (name : string) (v : Attr) : M State unit :=
  modify (fun s => set_self_dict (self_dict s ++ [(name, v)]) s).

(** [self.name] *)
Definition getattr (name : string) : M State Attr :=
  fun s => match dict_get String.eqb (self_dict s) name with
           | Some v => (Ok v, s)
           | None => (Raise (AttributeError name), s)
           end.

Definition self_function (name : string) : M State Function :=
  a <- getattr name ;;
  match a with
  | AFunction f => ret f
  | _ => raise (TypeError name)
  end.

Definition self_callable (name : string) : M State AssemblyCallable :=
  a <- getattr name ;;
  match a with
  | ACallable c => ret c
  | _ => raise (TypeError name)
  end.

Definition self_matrix (name : string) : M State Matrix :=
  a <- getattr name ;;
  match a with
  | AMatrix m => ret m
  | _ => raise (TypeError name)
  end.

Definition self_ksp (name : string) : M State KSP :=
  a <- getattr name ;;
  match a with
  | AKSP k => ret k
  | _ => raise (TypeError name)
  end.

Definition self_projector (name : string) : M State Projector :=
  a <- getattr name ;;
  match a with
  | AProjector p => ret p
  | _ => raise (TypeError name)
  end.

(** Modelled from the spec: the constructor [Function(V)], not among the
    sources.  A fresh function with its own storage. *)
Definition new_Function (V : Space) : M State Function :=
  fun s => (Ok (mkFunction (next_id s) V),
            set_next_id (S (next_id s))
              (set_data (upd (data s) (Dat (next_id s)) (vzero V)) s)).

(** Data of a coefficient; a sub-function views a part of its parent. *)
Definition read (s : State) (c : Coefficient) : Val :=
  match c with
  | Whole f => data s (Dat (fn_id f))
  | Split f i => get_comp i (data s (Dat (fn_id f)))
  end.

Definition store (c : Coefficient) (v : Val) (d : Loc -> Val) : Loc -> Val :=
  match c with
  | Whole f => upd d (Dat (fn_id f)) v
  | Split f i => upd d (Dat (fn_id f)) (set_comp i v (d (Dat (fn_id f))))
  end.

(** Modelled from the spec: the evaluator of Slate expressions, not among
    the sources (spec 9, "a single recursive evaluator").  Numerical
    value of an expression in the current state. *)
Fixpoint eval (s : State) (e : Slate) : Val :=
  match e with
  | Tensor f => tabulate (env s) f
  | Coeff c => read s c
  | Inv a => vinv (eval s a)
  | Transpose a => vtranspose (eval s a)
  | Mul a b => vmul (eval s a) (eval s b)
  | Add a b => vadd (eval s a) (eval s b)
  | Sub a b => vsub (eval s a) (eval s b)
  end.

(** Imposing a list of boundary conditions, one after the other. *)
Definition apply_bcs (bcs : list DirichletBC) (v : Val) : Val :=
  fold_left (fun w bc => apply_bc bc w) bcs v.

(** Modelled from the spec: [create_assembly_callable] of
    [firedrake.assemble], not among the sources.  Creating the callable
    only records what to assemble, into what, and under which boundary
    conditions. *)
Definition create_assembly_callable (expr : Slate) (tensor : AssemblyTarget)
  (bcs : list DirichletBC) (fc : Parameters) : AssemblyCallable :=
  mkAssemblyCallable expr tensor bcs fc.

(** Modelled from the spec: calling an assembly callable (spec 4.1,
    "writes results into output storage"; spec 3, "re-populated (not
    reallocated) on every update"): evaluate, impose the boundary
    conditions, overwrite the target.  The call always returns: the
    fatal failures of an assembly (spec 4.1 and 7: a singular local
    block, blocks that do not fit) are not modelled, so what is proved
    of a method that assembles is proved of the runs in which every
    assembly returns. *)
Definition call (c : AssemblyCallable) : M State unit :=
  modify (fun s =>
    let v := apply_bcs (ac_bcs c) (eval s (ac_expr c)) in
    emit (EvAssemble c)
      match ac_tensor c with
      | IntoFunction t => set_data (store t v (data s)) s
      | IntoMatrix m => set_mats (upd_nat (mats s) (mat_id m) v) s
      end).

(** [assemble(expr, tensor=t)] *)
Definition assemble (expr : Slate) (t : Function) : M State unit :=
  call (mkAssemblyCallable expr (IntoFunction (Whole t)) [] []).

(** Modelled from the spec: [allocate_matrix(expr, bcs=,
    form_compiler_parameters=)] of [firedrake.assemble], not among the
    sources (spec 3, "allocated once at setup").  A new matrix, with no
    nullspace attached. *)
Definition allocate_matrix (expr : Slate) (bcs : list DirichletBC)
  (fc : Parameters) : M State Matrix :=
  fun s => (Ok (mkMatrix (next_id s) expr bcs),
            set_next_id (S (next_id s))
              (set_mat_nullspace (upd_nat (mat_nullspace s) (next_id s) None)
                 (set_mats (upd_nat (mats s) (next_id s) mzero) s))).

Definition force_evaluation (m : Matrix) : M State unit :=
  modify (emit (EvForceEvaluation m)).

(** Modelled from the spec: [Projector.project()], not among the sources
    (spec 4.7): the target is overwritten with the projection of the
    source. *)
Definition project_ (p : Projector) : M State unit :=
  modify (fun s =>
    emit (EvProject p)
      (set_data (store (proj_target p)
                   (project_solve p (read s (proj_source p))
                                    (read s (proj_target p)))
                   (data s)) s)).

(** [firedrake.project(v, V)] with [V] a function to project into. *)
Definition project (v V : Function) : M State unit :=
  project_ (mkProjector (Whole v) (Whole V) None None).

(** PETSc [src.copy(dst)] *)
Definition vec_copy (src dst : Loc) : M State unit :=
  modify (fun s => emit (EvVecCopy src dst)
                     (set_data (upd (data s) dst (data s src)) s)).

(** PyOP2 [src.dat.copy(dst.dat)] *)
Definition dat_copy (src dst : Coefficient) : M State unit :=
  modify (fun s => emit (EvDatCopy src dst)
                     (set_data (store dst (read s src) (data s)) s)).

(** PETSc [ksp.solve(b, x)]: [x] is overwritten with the solution for the
    operator of the KSP, its attached nullspace and the right-hand side
    [b].  A solve on a KSP with an operator always returns: the failure
    of the solver (spec 4.5 and 7) is not modelled. *)
Definition ksp_solve (k : KSP) (b x : Loc) : M State unit :=
  match ksp_operators k with
  | None => raise (TypeError "KSP has no operator")
  | Some m =>
      modify (fun s =>
        emit (EvSolve k b x)
          (set_data (upd (data s) x
             (krylov_solve k (mats s (mat_id m))
                (option_map (fun n => map (data s) (ns_vecs n))
                   (mat_nullspace s (mat_id m)))
                (data s b) (data s x))) s))
  end.

(** [Smat.setNullSpace(nullspace)] *)
Definition setNullSpace (m : Matrix) (n : NullSpace) : M State unit :=
  modify (fun s =>
    set_mat_nullspace (upd_nat (mat_nullspace s) (mat_id m) (Some n)) s).

(** [opts.getReal(key, default)] *)
Definition getReal (key : string) (default : Q) : M State Q :=
  gets (fun s => match dict_get String.eqb (options s) key with
                 | Some q => q
                 | None => default
                 end).

(** [dict(split_form(form))[key]] *)
Definition pair_eqb (a b : nat * nat) : bool :=
  Nat.eqb (fst a) (fst b) && Nat.eqb (snd a) (snd b).

Definition dict_getitem (d : Dict (nat * nat) Form) (key : nat * nat)
  : M State Form :=
  match dict_get pair_eqb d key with
  | Some f => ret f
  | None => raise (KeyError key)
  end.

(** [v.copy()]: a new vector holding a copy of [v]. *)
Definition vec_duplicate (src : Loc) : M State Loc :=
  fun s => (Ok (NewVec (next_id s)),
            emit (EvVecCopy src (NewVec (next_id s)))
              (set_next_id (S (next_id s))
                 (set_data (upd (data s) (NewVec (next_id s)) (data s src))
                    s))).

(* ================================================================== *)
(** ** create_schur_nullspace *)

(** [PETSc.NullSpace().create(vectors=, comm=)]: a live object, so its
    handle is not 0. *)
Definition NullSpace_create (vectors : list Loc) (comm : nat)
  : M State NullSpace :=
  fun s => (Ok (mkNullSpace (S (next_id s)) vectors comm),
            set_next_id (S (next_id s)) s).

(** The body of the loop over the nullspace vectors: copy [v] into
    [tmp], project [tmp] into [tmp_b], assemble the forward action into
    [tnsp_tmp], append a copy of it. *)
Definition transfer_vector (tmp tmp_b tnsp_tmp : Function)
  (forward_action : Slate) (v : Loc) : M State Loc :=
  vec_copy v (Dat (fn_id tmp)) ;;
  project tmp tmp_b ;;
  assemble forward_action tnsp_tmp ;;
  vec_duplicate (Dat (fn_id tnsp_tmp)).

Definition create_schur_nullspace (P : Operator) (forward : Slate)
  (V V_d : Space) (TraceSpace : FunctionSpace) (comm : nat)
  : M State (option NullSpace) :=
  let nullspace := getNullSpace P in
  if (handle nullspace =? 0)%nat then
    (* No nullspace *)
    ret None
  else
    let vecs := ns_vecs nullspace in
    tmp <- new_Function V ;;
    tmp_b <- new_Function V_d ;;
    tnsp_tmp <- new_Function (Plain TraceSpace) ;;
    let forward_action := (forward * Coeff (Whole tmp_b))%slate in
    new_vecs <- for_each vecs
                  (transfer_vector tmp tmp_b tnsp_tmp forward_action) ;;
    schur_nullspace <- NullSpace_create new_vecs comm ;;
    ret (Some schur_nullspace).

(* ================================================================== *)
(** ** class HybridizationPC *)

(** The truth value of [f.ufl_shape]. *)
Definition not_scalar (f : Coefficient) : bool := truthy (ufl_shape f).

(** The truth value of [Vi.ufl_element().value_shape()]. *)
Definition vector_valued (Vi : FunctionSpace) : bool :=
  truthy (value_shape (ufl_element Vi)).

(** The trace degree, from the family of the vector space [W]: the
    conditional of [initialize] that sets [tdegree]. *)
Definition trace_degree (W : FunctionSpace) : M State Z :=
  if family (ufl_element W) =? "Raviart-Thomas" then
    ret (degree (ufl_element W) - 1)%Z
  else if family (ufl_element W) =? "Brezzi-Douglas-Marini" then
    ret (degree (ufl_element W))
  else
    raise (ValueError
             (family (ufl_element W) ++ " not supported at the moment.")).

(** [initialize].  An attribute that the source reads back right after
    setting it ([self.broken_rhs], [self.S], ...) is read from the local
    name it was set from.  [if nullspace:] is false for [None] and for
    a PETSc object whose handle is 0. *)
Definition initialize (pc : PC) : M State unit :=
  (* Extract the problem context *)
  let prefix := getOptionsPrefix pc in
  let '(_, P) := getOperators pc in
  let context := getPythonContext P in
  '(test, trial) <- unpack2 (arguments (ctx_a context)) ;;
  let V := function_space test in
  let mesh := space_mesh V in
  if cell_set_extruded mesh then
    raise (NotImplementedError "Not implemented on extruded meshes.")
  else if negb (len V =? 2)%nat then
    raise (AssertionError
             "Can only hybridize a mixed system with two spaces.")
  else if forallb vector_valued (iter_space V) then
    raise (ValueError
             ("Expecting an H(div) x L2 pair of spaces. " ++
              "Both spaces cannot be vector-valued."))
  else
  (* Create the space of approximate traces. *)
  W <- unpack1 (filter vector_valued (iter_space V)) ;;
  tdegree <- trace_degree W ;;
  let TraceSpace := ScalarFunctionSpace mesh "HDiv Trace" tdegree in
  let trace_conditions := [mkDirichletBC TraceSpace 0 "on_boundary"] in
  (* Break the function spaces and define fully discontinuous spaces *)
  let broken_elements :=
    MixedElement (map (fun Vi => BrokenElement (ufl_element Vi))
                      (iter_space V)) in
  let V_d := MixedFunctionSpace mesh broken_elements in
  (* Set up the functions for the original, hybridized
     and schur complement systems *)
  broken_solution <- new_Function V_d ;;
  setattr "broken_solution" (AFunction broken_solution) ;;
  broken_rhs <- new_Function V_d ;;
  setattr "broken_rhs" (AFunction broken_rhs) ;;
  trace_solution <- new_Function (Plain TraceSpace) ;;
  setattr "trace_solution" (AFunction trace_solution) ;;
  unbroken_solution <- new_Function V ;;
  setattr "unbroken_solution" (AFunction unbroken_solution) ;;
  unbroken_rhs <- new_Function V ;;
  setattr "unbroken_rhs" (AFunction unbroken_rhs) ;;
  let arg_map := [(test, TestFunction V_d); (trial, TrialFunction V_d)] in
  (* Create the symbolic Schur-reduction *)
  let Atilde_form := replace (ctx_a context) arg_map in
  let Atilde := Tensor Atilde_form in
  let gammar := TestFunction (Plain TraceSpace) in
  (* Vector trial function will have a non-empty ufl_shape *)
  sigma <- unpack1 (filter (fun f => truthy (operand_shape f))
                           (TrialFunctions V_d)) ;;
  let K := Tensor (FacetPairing gammar sigma mesh) in
  (* Assemble the Schur complement operator and right-hand side *)
  schur_rhs <- new_Function (Plain TraceSpace) ;;
  setattr "schur_rhs" (AFunction schur_rhs) ;;
  setattr "_assemble_Srhs"
    (ACallable (create_assembly_callable
                  (K * Inv Atilde * Coeff (Whole broken_rhs))%slate
                  (IntoFunction (Whole schur_rhs))
                  []
                  (ctx_fc_params context))) ;;
  let schur_comp := (K * Inv Atilde * Transpose K)%slate in
  S <- allocate_matrix schur_comp trace_conditions (ctx_fc_params context) ;;
  setattr "S" (AMatrix S) ;;
  let _assemble_S :=
    create_assembly_callable schur_comp (IntoMatrix S) trace_conditions
                             (ctx_fc_params context) in
  setattr "_assemble_S" (ACallable _assemble_S) ;;
  call _assemble_S ;;
  force_evaluation S ;;
  let Smat := S in
  (* Nullspace for the multiplier problem *)
  nullspace <- create_schur_nullspace P (K * Inv Atilde)%slate
                                      V V_d TraceSpace (pc_comm pc) ;;
  match nullspace with
  | Some n => if negb (handle n =? 0)%nat then setNullSpace Smat n
              else ret tt
  | None => ret tt
  end ;;
  (* Set up the KSP for the system of Lagrange multipliers *)
  let ksp := KSP_create (pc_comm pc) in
  let ksp := setOptionsPrefix ksp (prefix ++ "hybridization_") in
  let ksp := setOperators ksp Smat in
  let ksp := setUp ksp in
  let ksp := setFromOptions ksp in
  setattr "ksp" (AKSP ksp) ;;
  (* Now we construct the local tensors for the reconstruction stage *)
  let split_forms := split_form Atilde_form in
  A_form <- dict_getitem split_forms (0, 0)%nat ;;
  B_form <- dict_getitem split_forms (0, 1)%nat ;;
  C_form <- dict_getitem split_forms (1, 0)%nat ;;
  D_form <- dict_getitem split_forms (1, 1)%nat ;;
  let A := Tensor A_form in
  let B := Tensor B_form in
  let C := Tensor C_form in
  let D := Tensor D_form in
  let trial :=
    TrialFunction
      (Plain (mkFunctionSpace mesh (BrokenElement (ufl_element W)))) in
  let K_local := Tensor (FacetPairing gammar (Arg trial) mesh) in
  (* Split functions and reconstruct each bit separately *)
  '(sigma_h, u_h) <- unpack2 (split broken_solution) ;;
  '(g, f) <- unpack2 (split broken_rhs) ;;
  (* Pressure reconstruction *)
  let M := (D - C * Inv A * B)%slate in
  let u_sol :=
    (Inv M * Coeff f
     + Inv M * (C * Inv A * Transpose K_local * Coeff (Whole trace_solution)
                - C * Inv A * Coeff g))%slate in
  setattr "_assemble_pressure"
    (ACallable (create_assembly_callable u_sol (IntoFunction u_h) []
                                         (ctx_fc_params context))) ;;
  (* Velocity reconstruction *)
  let sigma_sol :=
    (Inv A * Coeff g
     - Inv A * (B * Coeff u_h
                + Transpose K_local * Coeff (Whole trace_solution)))%slate in
  setattr "_assemble_velocity"
    (ACallable (create_assembly_callable sigma_sol (IntoFunction sigma_h) []
                                         (ctx_fc_params context))) ;;
  (* Set up the projectors *)
  vector_index <-
    match list_index FunctionSpace_eq_dec (iter_space V) W with
    | Some i => ret i
    | None => raise (ValueError "not in list")
    end ;;
  broken_vec_data <- getitem (split broken_rhs) vector_index ;;
  unbroken_vec_data <- getitem (split broken_rhs) vector_index ;;
  setattr "data_projector"
    (AProjector (mkProjector unbroken_vec_data broken_vec_data None None)) ;;
  tol <- getReal (prefix ++ "hybridization_projector_tolerance")
                 (1 # 100000000) ;;
  broken_vel <- getitem (split broken_solution) vector_index ;;
  unbroken_vel <- getitem (split unbroken_solution) vector_index ;;
  setattr "projector"
    (AProjector (mkProjector broken_vel unbroken_vel (Some "cg") (Some tol))).

(** Update by assembling into the operator. *)
Definition update (pc : PC) : M State unit :=
  _assemble_S <- self_callable "_assemble_S" ;;
  call _assemble_S ;;
  S <- self_matrix "S" ;;
  force_evaluation S ;;
  _assemble_Srhs <- self_callable "_assemble_Srhs" ;;
  call _assemble_Srhs.

Definition scalar_fields (f : Function) : list Coefficient :=
  filter (fun c => negb (not_scalar c)) (split f).

Definition apply (pc : PC) (x y : Loc) : M State unit :=
  (* Transfer non-broken x into a firedrake function *)
  unbroken_rhs <- self_function "unbroken_rhs" ;;
  vec_copy x (Dat (fn_id unbroken_rhs)) ;;
  (* Transfer unbroken_rhs into broken_rhs *)
  unbroken_rhs <- self_function "unbroken_rhs" ;;
  unbroken_scalar_field <- unpack1 (scalar_fields unbroken_rhs) ;;
  broken_rhs <- self_function "broken_rhs" ;;
  broken_scalar_field <- unpack1 (scalar_fields broken_rhs) ;;
  (* This updates broken_rhs *)
  data_projector <- self_projector "data_projector" ;;
  project_ data_projector ;;
  dat_copy unbroken_scalar_field broken_scalar_field ;;
  (* Compute the rhs for the multiplier system *)
  _assemble_Srhs <- self_callable "_assemble_Srhs" ;;
  call _assemble_Srhs ;;
  (* Solve the system for the Lagrange multipliers *)
  schur_rhs <- self_function "schur_rhs" ;;
  trace_solution <- self_function "trace_solution" ;;
  ksp <- self_ksp "ksp" ;;
  ksp_solve ksp (Dat (fn_id schur_rhs)) (Dat (fn_id trace_solution)) ;;
  (* Assemble the pressure and velocity (in that order) *)
  _assemble_pressure <- self_callable "_assemble_pressure" ;;
  call _assemble_pressure ;;
  _assemble_velocity <- self_callable "_assemble_velocity" ;;
  call _assemble_velocity ;;
  (* Project the broken solution into non-broken spaces *)
  broken_solution <- self_function "broken_solution" ;;
  broken_pressure <- unpack1 (scalar_fields broken_solution) ;;
  unbroken_solution <- self_function "unbroken_solution" ;;
  unbroken_pressure <- unpack1 (scalar_fields unbroken_solution) ;;
  dat_copy broken_pressure unbroken_pressure ;;
  projector <- self_projector "projector" ;;
  project_ projector ;;
  unbroken_solution <- self_function "unbroken_solution" ;;
  vec_copy (Dat (fn_id unbroken_solution)) y.

(** Apply the transpose of the preconditioner. *)
Definition applyTranspose (pc : PC) (x y : Loc) : M State unit :=
  raise (NotImplementedError
           ("The transpose application of this PC" ++
            "is not implemented.")).

(** The calls the loop of [create_schur_nullspace] issues for the
    vectors [vecs], when the first new vector gets the id [n]. *)
Fixpoint transfer_events (tmp tmp_b tnsp_tmp : Function)
  (forward_action : Slate) (vecs : list Loc) (n : nat) : list Event :=
  match vecs with
  | [] => []
  | v :: vecs' =>
      [ EvVecCopy v (Dat (fn_id tmp));
        EvProject (mkProjector (Whole tmp) (Whole tmp_b) None None);
        EvAssemble (mkAssemblyCallable forward_action
                      (IntoFunction (Whole tnsp_tmp)) [] []);
        EvVecCopy (Dat (fn_id tnsp_tmp)) (NewVec n) ]
      ++ transfer_events tmp tmp_b tnsp_tmp forward_action vecs' (S n)
  end.

(* ------------------------------------------------------------------ *)
(** *** The reconstruction formulas, as the specification words them

    [u = M.inv f + M.inv (C A.inv K_local.T lambda - C A.inv g)] with
    [M = D - C A.inv B], and
    [sigma = A.inv g - A.inv (B u + K_local.T lambda)]. *)

Definition schur_M (A B C D : Slate) : Slate :=
  (D - C * Inv A * B)%slate.

Definition scalar_reconstruction (A B C D K_local lambda g f : Slate)
  : Slate :=
  (Inv (schur_M A B C D) * f
   + Inv (schur_M A B C D)
     * (C * Inv A * Transpose K_local * lambda - C * Inv A * g))%slate.

Definition vector_reconstruction (A B K_local lambda g u : Slate) : Slate :=
  (Inv A * g - Inv A * (B * u + Transpose K_local * lambda))%slate.

(* ------------------------------------------------------------------ *)
(** *** What a completed [initialize] leaves in [self]

    A [Layout] collects the values of the local variables of
    [initialize] that the attributes of [self] are built from. *)

Record Layout : Type := mkLayout {
  ly_a : Form;                      (* context.a *)
  ly_fc : Parameters;               (* context.fc_params *)
  ly_test : Argument;
  ly_trial : Argument;
  ly_mesh : Mesh;
  ly_V0 : FunctionSpace;            (* V = ly_V0 x ly_V1 *)
  ly_V1 : FunctionSpace;
  ly_vector_index : nat;
  ly_tdegree : Z;
  ly_base : nat;                    (* id of the first function *)
  ly_A : Form;
  ly_B : Form;
  ly_C : Form;
  ly_D : Form;
  ly_tol : Q;
  ly_prefix : string;
  ly_comm : nat
}.

Definition ly_V (l : Layout) : Space :=
  Mixed (ly_mesh l) [ly_V0 l; ly_V1 l].

Definition ly_W (l : Layout) : FunctionSpace :=
  nth (ly_vector_index l) [ly_V0 l; ly_V1 l] (ly_V0 l).

Definition ly_TraceSpace (l : Layout) : FunctionSpace :=
  ScalarFunctionSpace (ly_mesh l) "HDiv Trace" (ly_tdegree l).

Definition ly_trace_conditions (l : Layout) : list DirichletBC :=
  [mkDirichletBC (ly_TraceSpace l) 0 "on_boundary"].

Definition ly_V_d (l : Layout) : Space :=
  MixedFunctionSpace (ly_mesh l)
    [BrokenElement (ufl_element (ly_V0 l));
     BrokenElement (ufl_element (ly_V1 l))].

Definition ly_broken_solution l := mkFunction (ly_base l) (ly_V_d l).
Definition ly_broken_rhs l := mkFunction (1 + ly_base l) (ly_V_d l).
Definition ly_trace_solution l :=
  mkFunction (2 + ly_base l) (Plain (ly_TraceSpace l)).
Definition ly_unbroken_solution l := mkFunction (3 + ly_base l) (ly_V l).
Definition ly_unbroken_rhs l := mkFunction (4 + ly_base l) (ly_V l).
Definition ly_schur_rhs l :=
  mkFunction (5 + ly_base l) (Plain (ly_TraceSpace l)).

Definition ly_Atilde (l : Layout) : Slate :=
  Tensor (replace (ly_a l) [(ly_test l, TestFunction (ly_V_d l));
                            (ly_trial l, TrialFunction (ly_V_d l))]).

Definition ly_gammar (l : Layout) : Argument :=
  TestFunction (Plain (ly_TraceSpace l)).

Definition ly_K (l : Layout) : Slate :=
  Tensor (FacetPairing (ly_gammar l)
            (ArgComponent (TrialFunction (ly_V_d l)) (ly_vector_index l))
            (ly_mesh l)).

Definition ly_K_local (l : Layout) : Slate :=
  Tensor (FacetPairing (ly_gammar l)
            (Arg (TrialFunction
                    (Plain (mkFunctionSpace (ly_mesh l)
                              (BrokenElement (ufl_element (ly_W l)))))))
            (ly_mesh l)).

Definition ly_schur_comp (l : Layout) : Slate :=
  (ly_K l * Inv (ly_Atilde l) * Transpose (ly_K l))%slate.

Definition ly_S (l : Layout) : Matrix :=
  mkMatrix (6 + ly_base l) (ly_schur_comp l) (ly_trace_conditions l).

Definition ly_assemble_Srhs (l : Layout) : AssemblyCallable :=
  mkAssemblyCallable
    (ly_K l * Inv (ly_Atilde l) * Coeff (Whole (ly_broken_rhs l)))%slate
    (IntoFunction (Whole (ly_schur_rhs l))) [] (ly_fc l).

Definition ly_assemble_S (l : Layout) : AssemblyCallable :=
  mkAssemblyCallable (ly_schur_comp l) (IntoMatrix (ly_S l))
                     (ly_trace_conditions l) (ly_fc l).

Definition ly_ksp (l : Layout) : KSP :=
  mkKSP (ly_comm l) (ly_prefix l ++ "hybridization_") (Some (ly_S l))
        true true.

Definition ly_M (l : Layout) : Slate :=
  (Tensor (ly_D l)
   - Tensor (ly_C l) * Inv (Tensor (ly_A l)) * Tensor (ly_B l))%slate.

Definition ly_u_sol (l : Layout) : Slate :=
  (Inv (ly_M l) * Coeff (Split (ly_broken_rhs l) 1)
   + Inv (ly_M l)
     * (Tensor (ly_C l) * Inv (Tensor (ly_A l)) * Transpose (ly_K_local l)
          * Coeff (Whole (ly_trace_solution l))
        - Tensor (ly_C l) * Inv (Tensor (ly_A l))
          * Coeff (Split (ly_broken_rhs l) 0)))%slate.

Definition ly_sigma_sol (l : Layout) : Slate :=
  (Inv (Tensor (ly_A l)) * Coeff (Split (ly_broken_rhs l) 0)
   - Inv (Tensor (ly_A l))
     * (Tensor (ly_B l) * Coeff (Split (ly_broken_solution l) 1)
        + Transpose (ly_K_local l)
          * Coeff (Whole (ly_trace_solution l))))%slate.

Definition ly_assemble_pressure (l : Layout) : AssemblyCallable :=
  mkAssemblyCallable (ly_u_sol l)
    (IntoFunction (Split (ly_broken_solution l) 1)) [] (ly_fc l).

Definition ly_assemble_velocity (l : Layout) : AssemblyCallable :=
  mkAssemblyCallable (ly_sigma_sol l)
    (IntoFunction (Split (ly_broken_solution l) 0)) [] (ly_fc l).

Definition ly_data_projector (l : Layout) : Projector :=
  mkProjector (Split (ly_broken_rhs l) (ly_vector_index l))
              (Split (ly_broken_rhs l) (ly_vector_index l)) None None.

Definition ly_projector (l : Layout) : Projector :=
  mkProjector (Split (ly_broken_solution l) (ly_vector_index l))
              (Split (ly_unbroken_solution l) (ly_vector_index l))
              (Some "cg") (Some (ly_tol l)).

(** The attributes, in the order [initialize] sets them. *)
Definition layout_attrs (l : Layout) : Dict string Attr :=
  [ ("broken_solution", AFunction (ly_broken_solution l));
    ("broken_rhs", AFunction (ly_broken_rhs l));
    ("trace_solution", AFunction (ly_trace_solution l));
    ("unbroken_solution", AFunction (ly_unbroken_solution l));
    ("unbroken_rhs", AFunction (ly_unbroken_rhs l));
    ("schur_rhs", AFunction (ly_schur_rhs l));
    ("_assemble_Srhs", ACallable (ly_assemble_Srhs l));
    ("S", AMatrix (ly_S l));
    ("_assemble_S", ACallable (ly_assemble_S l));
    ("ksp", AKSP (ly_ksp l));
    ("_assemble_pressure", ACallable (ly_assemble_pressure l));
    ("_assemble_velocity", ACallable (ly_assemble_velocity l));
    ("data_projector", AProjector (ly_data_projector l));
    ("projector", AProjector (ly_projector l)) ].

(** The functions and the nullspace [create_schur_nullspace] allocates
    when it is called from [initialize]: the matrix took id 6. *)
Definition ly_tmp l := mkFunction (7 + ly_base l) (ly_V l).
Definition ly_tmp_b l := mkFunction (8 + ly_base l) (ly_V_d l).
Definition ly_tnsp_tmp l :=
  mkFunction (9 + ly_base l) (Plain (ly_TraceSpace l)).

Definition ly_forward (l : Layout) : Slate :=
  (ly_K l * Inv (ly_Atilde l))%slate.

Definition ly_nullspace_events (l : Layout) (nullspace : NullSpace)
  : list Event :=
  if (handle nullspace =? 0)%nat then []
  else transfer_events (ly_tmp l) (ly_tmp_b l) (ly_tnsp_tmp l)
         (ly_forward l * Coeff (Whole (ly_tmp_b l)))%slate
         (ns_vecs nullspace) (10 + ly_base l).

Definition ly_schur_nullspace (l : Layout) (nullspace : NullSpace)
  : option NullSpace :=
  if (handle nullspace =? 0)%nat then None
  else Some (mkNullSpace
               (S (length (ns_vecs nullspace) + (10 + ly_base l)))
               (map NewVec (seq (10 + ly_base l)
                                (length (ns_vecs nullspace))))
               (ly_comm l)).

(** The index of the scalar space. *)
Definition ly_scalar_index (l : Layout) : nat := 1 - ly_vector_index l.

(** The calls [apply] makes on the vectors [x] and [y], in order. *)
Definition apply_events (l : Layout) (x y : Loc) : list Event :=
  [ EvVecCopy x (Dat (fn_id (ly_unbroken_rhs l)));
    EvProject (ly_data_projector l);
    EvDatCopy (Split (ly_unbroken_rhs l) (ly_scalar_index l))
              (Split (ly_broken_rhs l) (ly_scalar_index l));
    EvAssemble (ly_assemble_Srhs l);
    EvSolve (ly_ksp l) (Dat (fn_id (ly_schur_rhs l)))
                       (Dat (fn_id (ly_trace_solution l)));
    EvAssemble (ly_assemble_pressure l);
    EvAssemble (ly_assemble_velocity l);
    EvDatCopy (Split (ly_broken_solution l) (ly_scalar_index l))
              (Split (ly_unbroken_solution l) (ly_scalar_index l));
    EvProject (ly_projector l);
    EvVecCopy (Dat (fn_id (ly_unbroken_solution l))) y ].

(** The calls [update] makes. *)
Definition update_events (l : Layout) : list Event :=
  [ EvAssemble (ly_assemble_S l);
    EvForceEvaluation (ly_S l);
    EvAssemble (ly_assemble_Srhs l) ].

(** The storage of the persistent fields of the orchestrator. *)
Definition ly_fields (l : Layout) : list Loc :=
  [ Dat (fn_id (ly_broken_solution l));
    Dat (fn_id (ly_broken_rhs l));
    Dat (fn_id (ly_trace_solution l));
    Dat (fn_id (ly_unbroken_solution l));
    Dat (fn_id (ly_unbroken_rhs l));
    Dat (fn_id (ly_schur_rhs l)) ].

(** Exactly one of the two spaces is vector-valued, at [ly_vector_index]. *)
Definition one_vector_space (l : Layout) : Prop :=
  (ly_vector_index l = 0%nat /\ vector_valued (ly_V0 l) = true
                             /\ vector_valued (ly_V1 l) = false) \/
  (ly_vector_index l = 1%nat /\ vector_valued (ly_V0 l) = false
                             /\ vector_valued (ly_V1 l) = true).

(** The trace degree agrees with the family of the vector space. *)
Definition trace_degree_ok (l : Layout) : Prop :=
  (family (ufl_element (ly_W l)) = "Raviart-Thomas" /\
   ly_tdegree l = (degree (ufl_element (ly_W l)) - 1)%Z) \/
  (family (ufl_element (ly_W l)) = "Brezzi-Douglas-Marini" /\
   ly_tdegree l = degree (ufl_element (ly_W l))).

(** How the layout is read off the [pc] object and the state in which
    [initialize] starts. *)
Record layout_of (pc : PC) (s : State) (l : Layout) : Prop := {
  lo_a : ly_a l = ctx_a (getPythonContext (snd (getOperators pc)));
  lo_fc : ly_fc l = ctx_fc_params (getPythonContext (snd (getOperators pc)));
  lo_args : arguments (ly_a l) = [ly_test l; ly_trial l];
  lo_V : function_space (ly_test l) = ly_V l;
  lo_mesh : cell_set_extruded (ly_mesh l) = false;
  lo_vec : one_vector_space l;
  lo_degree : trace_degree_ok l;
  lo_base : ly_base l = next_id s;
  lo_A : dict_get pair_eqb (split_form (replace (ly_a l)
            [(ly_test l, TestFunction (ly_V_d l));
             (ly_trial l, TrialFunction (ly_V_d l))])) (0, 0)%nat
         = Some (ly_A l);
  lo_B : dict_get pair_eqb (split_form (replace (ly_a l)
            [(ly_test l, TestFunction (ly_V_d l));
             (ly_trial l, TrialFunction (ly_V_d l))])) (0, 1)%nat
         = Some (ly_B l);
  lo_C : dict_get pair_eqb (split_form (replace (ly_a l)
            [(ly_test l, TestFunction (ly_V_d l));
             (ly_trial l, TrialFunction (ly_V_d l))])) (1, 0)%nat
         = Some (ly_C l);
  lo_D : dict_get pair_eqb (split_form (replace (ly_a l)
            [(ly_test l, TestFunction (ly_V_d l));
             (ly_trial l, TrialFunction (ly_V_d l))])) (1, 1)%nat
         = Some (ly_D l);
  lo_tol : ly_tol l =
           match dict_get String.eqb (options s)
                   (getOptionsPrefix pc
                    ++ "hybridization_projector_tolerance")%string with
           | Some q => q
           | None => (1 # 100000000)%Q
           end;
  lo_prefix : ly_prefix l = getOptionsPrefix pc;
  lo_comm : ly_comm l = pc_comm pc
}.

(** The state of a preconditioner that has been set up: [self] holds
    the attributes of some layout with one vector space. *)
Definition has_attrs (l : Layout) (s : State) : Prop :=
  exists d, self_dict s = d ++ layout_attrs l.

Definition ready (l : Layout) (s : State) : Prop :=
  one_vector_space l /\ has_attrs l s.

(** Two states with the same [self], options and operator values, and
    the same nullspaces attached. *)
Definition same_self_but_mats (s s' : State) : Prop :=
  self_dict s' = self_dict s /\ options s' = options s /\ env s' = env s /\
  mat_nullspace s' = mat_nullspace s.

(** Two states that differ at most in storage, allocation counter and
    log. *)
Definition same_self (s s' : State) : Prop :=
  self_dict s' = self_dict s /\ options s' = options s /\ env s' = env s /\
  mats s' = mats s /\ mat_nullspace s' = mat_nullspace s.

(** [self.name], as a lookup. *)
Definition self_attr (s : State) (name : string) : option Attr :=
  dict_get String.eqb (self_dict s) name.

Definition succeeds {A} (m : M State A) (s : State) : Prop :=
  exists a, fst (m s) = Ok a.

Definition after {A} (m : M State A) (s : State) : State := snd (m s).

End Hybridization.

(* ================================================================== *)
(** ** Accepted operators, frames, calls as state transformers, view *)

Section Behaviour.
Context {backend : Backend}.
Local Open Scope py_scope.

(* ------------------------------------------------------------------ *)
(** *** The problems [initialize] accepts *)

(** The keys [initialize] looks up in [dict(split_form(Atilde.form))],
    in the order it does. *)
Definition block_keys : list (nat * nat) :=
  [(0, 0); (0, 1); (1, 0); (1, 1)]%nat.

(** The broken space [V_d] over two component spaces, and the form of
    [Atilde]. *)
Definition broken_space (m : Mesh) (V0 V1 : FunctionSpace) : Space :=
  MixedFunctionSpace m
    (MixedElement [BrokenElement (ufl_element V0);
                   BrokenElement (ufl_element V1)]).

Definition broken_form (a : Form) (test trial : Argument) (V_d : Space)
  : Form :=
  replace a [(test, TestFunction V_d); (trial, TrialFunction V_d)].

(** [key in dict(split_form(f))] *)
Definition has_block (f : Form) (key : nat * nat) : bool :=
  match dict_get pair_eqb (split_form f) key with
  | Some _ => true
  | None => false
  end.

(** What the checks of [initialize] ask of the operator: a form with two
    arguments over a mixed space of two components on a mesh that is not
    extruded, exactly one component [W] vector-valued, of one of the two
    supported families. *)
Record hybridizable (pc : PC) (test trial : Argument) (m : Mesh)
  (V0 V1 W : FunctionSpace) : Prop := {
  hy_args : arguments (ctx_a (getPythonContext (snd (getOperators pc))))
            = [test; trial];
  hy_space : function_space test = Mixed m [V0; V1];
  hy_mesh : cell_set_extruded m = false;
  hy_vector : filter vector_valued [V0; V1] = [W];
  hy_family : family (ufl_element W) = "Raviart-Thomas" \/
              family (ufl_element W) = "Brezzi-Douglas-Marini"
}.

(** The form of [Atilde] for the operator of [pc]. *)
Definition Atilde_form_of (pc : PC) (test trial : Argument) (m : Mesh)
  (V0 V1 : FunctionSpace) : Form :=
  broken_form (ctx_a (getPythonContext (snd (getOperators pc)))) test trial
              (broken_space m V0 V1).

Definition accepted (pc : PC) : Prop :=
  exists test trial m V0 V1 W,
    hybridizable pc test trial m V0 V1 W /\
    forallb (has_block (Atilde_form_of pc test trial m V0 V1)) block_keys
    = true.

(** The layout [initialize] works with, computed from the operator and
    the state it starts in.  A block that [split_form] does not return
    is stood in for by the whole form. *)
Definition layout_for (pc : PC) (s : State) (test trial : Argument)
  (m : Mesh) (V0 V1 : FunctionSpace) : Layout :=
  let context := getPythonContext (snd (getOperators pc)) in
  let W := if vector_valued V0 then V0 else V1 in
  let F := Atilde_form_of pc test trial m V0 V1 in
  let block key := match dict_get pair_eqb (split_form F) key with
                   | Some f => f
                   | None => F
                   end in
  mkLayout (ctx_a context) (ctx_fc_params context) test trial m V0 V1
    (if vector_valued V0 then 0 else 1)
    (if family (ufl_element W) =? "Raviart-Thomas"
     then (degree (ufl_element W) - 1)%Z else degree (ufl_element W))
    (next_id s)
    (block (0, 0)%nat) (block (0, 1)%nat) (block (1, 0)%nat)
    (block (1, 1)%nat)
    match dict_get String.eqb (options s)
            (getOptionsPrefix pc
             ++ "hybridization_projector_tolerance")%string
    with
    | Some q => q
    | None => (1 # 100000000)%Q
    end
    (getOptionsPrefix pc) (pc_comm pc).

(** The attributes [initialize] has set when it reaches the lookup of
    the blocks: everything up to [ksp]. *)
Definition attrs_upto_ksp (l : Layout) : Dict string Attr :=
  firstn 10 (layout_attrs l).

(* ------------------------------------------------------------------ *)
(** *** Storage that exists when a computation starts *)

(** The vectors of the caller, and every dat and vector whose id is
    below the allocation counter of [s0]. *)
Definition existing (s0 : State) (loc : Loc) : Prop :=
  match loc with
  | PVec _ => True
  | Dat i | NewVec i => (i < next_id s0)%nat
  end.

(** [s] has everything [s0] had: storage and matrices that existed keep
    their contents and nullspaces, options and operator coefficients are
    the same, attributes and log entries were at most added. *)
Definition kept (s0 s : State) : Prop :=
  (next_id s0 <= next_id s)%nat /\
  (forall loc, existing s0 loc -> data s loc = data s0 loc) /\
  (forall i, (i < next_id s0)%nat ->
             mats s i = mats s0 i /\ mat_nullspace s i = mat_nullspace s0 i) /\
  options s = options s0 /\ env s = env s0 /\
  (exists d, self_dict s = self_dict s0 ++ d) /\
  (exists evs, log s = log s0 ++ evs).

(** A computation that keeps what [s0] had, and whose result, when it
    returns one, satisfies [Q]. *)
Definition keeps (s0 : State) {A} (m : M State A) (Q : A -> Prop) : Prop :=
  forall s, kept s0 s ->
    kept s0 (snd (m s)) /\ forall a, fst (m s) = Ok a -> Q a.

(** The target of an assembly was allocated after [s0]. *)
Definition new_target (s0 : State) (t : AssemblyTarget) : Prop :=
  match t with
  | IntoFunction (Whole f) | IntoFunction (Split f _) =>
      (next_id s0 <= fn_id f)%nat
  | IntoMatrix m => (next_id s0 <= mat_id m)%nat
  end.

(* ------------------------------------------------------------------ *)
(** *** Calls as state transformers *)

(** What a call to a collaborator does to the storage and the
    matrices. *)
Definition effect (ev : Event) (s : State) : State :=
  match ev with
  | EvAssemble c =>
      let v := apply_bcs (ac_bcs c) (eval s (ac_expr c)) in
      match ac_tensor c with
      | IntoFunction t => set_data (store t v (data s)) s
      | IntoMatrix m => set_mats (upd_nat (mats s) (mat_id m) v) s
      end
  | EvForceEvaluation _ => s
  | EvProject p =>
      set_data (store (proj_target p)
                  (project_solve p (read s (proj_source p))
                                   (read s (proj_target p)))
                  (data s)) s
  | EvSolve k b x =>
      match ksp_operators k with
      | None => s
      | Some m =>
          set_data (upd (data s) x
            (krylov_solve k (mats s (mat_id m))
               (option_map (fun n => map (data s) (ns_vecs n))
                  (mat_nullspace s (mat_id m)))
               (data s b) (data s x))) s
      end
  | EvVecCopy src dst => set_data (upd (data s) dst (data s src)) s
  | EvDatCopy src dst => set_data (store dst (read s src) (data s)) s
  end.

(** The call, logged. *)
Definition perform (ev : Event) (s : State) : State := emit ev (effect ev s).

(** A sequence of calls, one after the other. *)
Definition replay (evs : list Event) (s : State) : State :=
  fold_left (fun s ev => perform ev s) evs s.

(** The methods PETSc calls on a preconditioner that has been set up,
    and a run of calls in the order PETSc makes them. *)
Inductive Call : Type :=
| CUpdate
| CApply (x y : Loc).

Definition run_call (pc : PC) (c : Call) : M State unit :=
  match c with
  | CUpdate => update pc
  | CApply x y => apply pc x y
  end.

Fixpoint run_calls (pc : PC) (cs : list Call) : M State unit :=
  match cs with
  | [] => ret tt
  | c :: cs' => run_call pc c ;; run_calls pc cs'
  end.

Definition call_events (l : Layout) (c : Call) : list Event :=
  match c with
  | CUpdate => update_events l
  | CApply x y => apply_events l x y
  end.

(** Two states that hold the same data everywhere but at [U], and the
    same matrices, nullspaces and operator coefficients. *)
Definition agree_off (U : Loc) (a b : State) : Prop :=
  (forall loc, loc <> U -> data a loc = data b loc) /\
  mats a = mats b /\ mat_nullspace a = mat_nullspace b /\ env a = env b.

(** The vectors of the nullspace attached to the matrix [m]. *)
Definition nullspace_vecs (s : State) (m : Matrix) : list Loc :=
  match mat_nullspace s (mat_id m) with
  | Some n => ns_vecs n
  | None => []
  end.

(* ------------------------------------------------------------------ *)
(** *** The values [apply] computes *)

(** What the forward transfer leaves in [broken_rhs], from the contents
    [X] of the vector handed in and the contents [b] that [broken_rhs]
    had: [data_projector] rewrites the vector component from [b], then
    the scalar component of [X] is copied in. *)
Definition forward_transfer (l : Layout) (X b : Val) : Val :=
  set_comp (ly_scalar_index l) (get_comp (ly_scalar_index l) X)
    (set_comp (ly_vector_index l)
       (project_solve (ly_data_projector l)
          (get_comp (ly_vector_index l) b) (get_comp (ly_vector_index l) b))
       b).

(** What the two reconstruction callables leave in [broken_solution],
    from its previous contents [B]: the first callable stores the value
    of [u_sol] in component 1; the second stores in component 0 the
    value of [sigma_sol] in the state that holds the result of the
    first. *)
Definition reconstructed (l : Layout) (s' : State) (B : Val) : Val :=
  let u := eval s' (ly_u_sol l) in
  let B1 := set_comp 1 u B in
  let s_u := set_data (upd (data s') (Dat (fn_id (ly_broken_solution l))) B1)
                      s' in
  set_comp 0 (eval s_u (ly_sigma_sol l)) B1.

(** What the backward transfer leaves in [unbroken_solution], from the
    contents [B] of [broken_solution] and the contents [U] that
    [unbroken_solution] had: the scalar component of [B] is copied in,
    then [projector] rewrites the vector component. *)
Definition backward_transfer (l : Layout) (B U : Val) : Val :=
  let U1 := set_comp (ly_scalar_index l) (get_comp (ly_scalar_index l) B) U in
  set_comp (ly_vector_index l)
    (project_solve (ly_projector l)
       (get_comp (ly_vector_index l) B) (get_comp (ly_vector_index l) U1))
    U1.

(** The vectors a run of calls hands to [apply] to be written. *)
Definition outputs (cs : list Call) : list Loc :=
  flat_map (fun c => match c with
                     | CUpdate => []
                     | CApply _ y => [y]
                     end) cs.

Definition Call_eq_dec (a b : Call) : {a = b} + {a <> b}.
Proof. decide equality; apply Loc_eq_dec. Defined.

(* ------------------------------------------------------------------ *)
(** *** view *)

(** A PETSc ASCII viewer: the current tab level, and the lines printed
    so far, each with the tab level it was printed at. *)
Record Viewer : Type := mkViewer {
  vw_tab : nat;
  vw_out : list (nat * string)
}.

(** A method call on the argument [viewer], which is [None] when the
    caller leaves it out. *)
Definition viewer_method (name : string) (f : Viewer -> Viewer)
  : M (option Viewer) unit :=
  fun v => match v with
           | Some w => (Ok tt, Some (f w))
           | None => (Raise (AttributeError name), v)
           end.

Definition printfASCII (msg : string) : M (option Viewer) unit :=
  viewer_method "printfASCII"
    (fun w => mkViewer (vw_tab w) (vw_out w ++ [(vw_tab w, msg)])).

Definition pushASCIITab : M (option Viewer) unit :=
  viewer_method "pushASCIITab" (fun w => mkViewer (S (vw_tab w)) (vw_out w)).

Definition popASCIITab : M (option Viewer) unit :=
  viewer_method "popASCIITab"
    (fun w => mkViewer (Nat.pred (vw_tab w)) (vw_out w)).

Definition newline : string := String (Ascii.ascii_of_nat 10) EmptyString.

Section View.
(** [PCBase.view] and [KSP.view] are not among the sources; they are
    parameters, acting on the viewer. *)
Variable PCBase_view : PC -> M (option Viewer) unit.
Variable KSP_view : KSP -> M (option Viewer) unit.

(** [view].  The method reads [self.ksp] and changes nothing in [self];
    its effects are on the viewer. *)
Definition view (pc : PC) (s : State) : M (option Viewer) unit :=
  PCBase_view pc ;;
  printfASCII ("Solves K * P^-1 * K.T using local eliminations."
               ++ newline) ;;
  pushASCIITab ;;
  printfASCII ("KSP solver for the multipliers:" ++ newline) ;;
  pushASCIITab ;;
  ksp <- match self_attr s "ksp" with
         | Some (AKSP k) => ret k
         | Some _ => raise (TypeError "ksp")
         | None => raise (AttributeError "ksp")
         end ;;
  KSP_view ksp ;;
  popASCIITab.
End View.

(** A collaborator that prints into a viewer and leaves its tab level
    as it found it. *)
Definition tab_neutral (m : M (option Viewer) unit) : Prop :=
  forall w, exists w',
    m (Some w) = (Ok tt, Some w') /\ vw_tab w' = vw_tab w /\
    exists lines, vw_out w' = vw_out w ++ lines.

(* ------------------------------------------------------------------ *)
(** *** The values the loop of [create_schur_nullspace] computes *)

(** The successive projections: each vector is projected into [tmp_b],
    which still holds the projection of the vector before it. *)
Fixpoint projections (P : Projector) (prev : Val) (vs : list Val)
  : list Val :=
  match vs with
  | [] => []
  | v :: vs' => let b := project_solve P v prev in
                b :: projections P b vs'
  end.

(** A location that is none of the three temporaries and no vector made
    from the allocation counter [m] on. *)
Definition outside (tmp tmp_b tnsp_tmp : Function) (m : nat) (loc : Loc)
  : Prop :=
  loc <> Dat (fn_id tmp) /\ loc <> Dat (fn_id tmp_b) /\
  loc <> Dat (fn_id tnsp_tmp) /\ forall j, (m <= j)%nat -> loc <> NewVec j.

End Behaviour.

(* ================================================================== *)
(** ** A concrete backend and concrete problems *)

(** A toy backend over the integers: enough to run the code on concrete
    inputs.  A form tabulates to the operator coefficient; sub-function
    [i] of a datum [v] is [v + i + 1]. *)
Definition all_blocks (f : Form) : list ((nat * nat) * Form) :=
  [ ((0, 0), Block f 0 0); ((0, 1), Block f 0 1);
    ((1, 0), Block f 1 0); ((1, 1), Block f 1 1) ]%nat.

#[local] Instance ZBackend : Backend := {|
  Val := Z;
  Env := Z;
  tabulate := fun env _ => env;
  vmul := Z.mul;
  vadd := Z.add;
  vsub := Z.sub;
  vinv := fun v => v;
  vtranspose := fun v => v;
  vzero := fun _ => 0%Z;
  mzero := 0%Z;
  get_comp := fun i v => (v + Z.of_nat i + 1)%Z;
  set_comp := fun i w v => (w - Z.of_nat i - 1)%Z;
  apply_bc := fun _ v => v;
  project_solve := fun _ src _ => src;
  krylov_solve := fun _ _ _ b _ => b;
  split_form := all_blocks
|}.

Definition unit_square : Mesh := mkMesh 0 false.
Definition extruded_mesh : Mesh := mkMesh 1 true.

Definition RT (m : Mesh) (deg : Z) : FunctionSpace :=
  mkFunctionSpace m (mkElement "Raviart-Thomas" deg [2%nat] false).
Definition BDM (m : Mesh) (deg : Z) : FunctionSpace :=
  mkFunctionSpace m (mkElement "Brezzi-Douglas-Marini" deg [2%nat] false).
Definition DG (m : Mesh) (deg : Z) : FunctionSpace :=
  mkFunctionSpace m (mkElement "Discontinuous Lagrange" deg [] false).
Definition N1curl (m : Mesh) (deg : Z) : FunctionSpace :=
  mkFunctionSpace m (mkElement "N1curl" deg [2%nat] false).

(** A problem over the mixed space with the given components, whose
    operator has nullspace [ns]. *)
Definition problem_ns (m : Mesh) (subs : list FunctionSpace) (ns : NullSpace)
  : PC :=
  let V := Mixed m subs in
  let P := mkOperator
             (mkContext (Bilinear 0 (TestFunction V) (TrialFunction V)) [])
             ns in
  mkPC "" (P, P) 0.

Definition no_nullspace : NullSpace := mkNullSpace 0 [] 0.

Definition problem (m : Mesh) (subs : list FunctionSpace) : PC :=
  problem_ns m subs no_nullspace.

(** Mixed Poisson on the unit square, H(div) x L2. *)
Definition poisson_RT : PC :=
  problem unit_square [RT unit_square 1; DG unit_square 0].
Definition poisson_BDM : PC :=
  problem unit_square [BDM unit_square 1; DG unit_square 0].

(** A fresh interpreter state: [self] has no attribute yet. *)
Definition fresh : State :=
  mkState [] 0 (fun _ => 0%Z) (fun _ => 0%Z) (fun _ => None) 1%Z [] [].

(** Run a computation and keep what is observable by evaluation. *)
Definition outcome {A} (m : M State A) (s : State)
  : Result A * (Dict string Attr * list Event) :=
  let '(r, s') := m s in (r, (self_dict s', log s')).

(** The state [initialize] leaves for the H(div) x L2 problem, and the
    layout it corresponds to. *)
Definition poisson_state : State := after (initialize poisson_RT) fresh.

Definition poisson_V : Space :=
  Mixed unit_square [RT unit_square 1; DG unit_square 0].

Definition poisson_V_d : Space :=
  MixedFunctionSpace unit_square
    [BrokenElement (ufl_element (RT unit_square 1));
     BrokenElement (ufl_element (DG unit_square 0))].

Definition poisson_Atilde_form : Form :=
  Bilinear 0 (TestFunction poisson_V_d) (TrialFunction poisson_V_d).

Definition poisson_layout : Layout :=
  mkLayout (Bilinear 0 (TestFunction poisson_V) (TrialFunction poisson_V)) []
           (TestFunction poisson_V) (TrialFunction poisson_V)
           unit_square (RT unit_square 1) (DG unit_square 0) 0 0 0
           (Block poisson_Atilde_form 0 0) (Block poisson_Atilde_form 0 1)
           (Block poisson_Atilde_form 1 0) (Block poisson_Atilde_form 1 1)
           (1 # 100000000) "" 0.

(** A problem whose operator has a nullspace of two vectors. *)
Definition two_vector_nullspace : NullSpace :=
  mkNullSpace 7 [PVec 10; PVec 11] 0.

Definition singular_RT : PC :=
  problem_ns unit_square [RT unit_square 1; DG unit_square 0]
             two_vector_nullspace.

(** A backend whose [split_form] leaves out the (1,1) block, as it does
    for an operator with no term coupling the scalar space to itself. *)
Definition three_blocks (f : Form) : list ((nat * nat) * Form) :=
  firstn 3 (all_blocks f).

Definition SparseBackend : Backend := {|
  Val := Z;
  Env := Z;
  tabulate := fun env _ => env;
  vmul := Z.mul;
  vadd := Z.add;
  vsub := Z.sub;
  vinv := fun v => v;
  vtranspose := fun v => v;
  vzero := fun _ => 0%Z;
  mzero := 0%Z;
  get_comp := fun i v => (v + Z.of_nat i + 1)%Z;
  set_comp := fun i w v => (w - Z.of_nat i - 1)%Z;
  apply_bc := fun _ v => v;
  project_solve := fun _ src _ => src;
  krylov_solve := fun _ _ _ b _ => b;
  split_form := three_blocks
|}.

Definition fresh_sparse : @State SparseBackend :=
  @mkState SparseBackend [] 0 (fun _ => 0%Z) (fun _ => 0%Z) (fun _ => None)
           1%Z [] [].

(** A backend whose data are pairs of integers: the first entry stands
    for the part of a datum that belongs to component 0, the second for
    the part that belongs to component 1, so that two data can differ
    and still have a component in common. *)
Definition PairBackend : Backend := {|
  Val := Z * Z;
  Env := Z;
  tabulate := fun env _ => (env, env);
  vmul := fun a b => (fst a * fst b, snd a * snd b)%Z;
  vadd := fun a b => (fst a + fst b, snd a + snd b)%Z;
  vsub := fun a b => (fst a - fst b, snd a - snd b)%Z;
  vinv := fun v => v;
  vtranspose := fun v => v;
  vzero := fun _ => (0, 0)%Z;
  mzero := (0, 0)%Z;
  get_comp := fun i v => match i with
                         | O => (fst v, 0%Z)
                         | S _ => (snd v, 0%Z)
                         end;
  set_comp := fun i w v => match i with
                           | O => (fst w, snd v)
                           | S _ => (fst v, fst w)
                           end;
  apply_bc := fun _ v => v;
  project_solve := fun _ src _ => src;
  krylov_solve := fun _ _ _ b _ => b;
  split_form := all_blocks
|}.

(** A fresh state over pairs in which the caller holds three vectors:
    the first two agree in component 1 and differ in component 0, the
    third differs from the first in component 1 only. *)
Definition fresh_pair : @State PairBackend :=
  @mkState PairBackend [] 0
    (fun loc => match loc with
                | PVec 0 => (1, 5)%Z
                | PVec 1 => (2, 5)%Z
                | PVec 2 => (1, 6)%Z
                | _ => (0, 0)%Z
                end)
    (fun _ => (0, 0)%Z) (fun _ => None) 2%Z [] [].

Definition pair_state : @State PairBackend :=
  after (@initialize PairBackend poisson_RT) fresh_pair.

(** Two scalar spaces. *)
Definition poisson_DG_DG : PC :=
  problem unit_square [DG unit_square 1; DG unit_square 0].

(** Collaborators of [view]: a base class that prints nothing, and a KSP
    that prints one line. *)
Definition quiet_PCBase_view (pc : PC) : M (option Viewer) unit := ret tt.

Definition line_KSP_view (k : KSP) : M (option Viewer) unit :=
  printfASCII ("KSP Object: " ++ ksp_prefix k).

Definition blank_viewer : Viewer := mkViewer 0 [].

(* ================================================================== *)
(** * Properties *)

Section Properties.
Context {backend : Backend}.

(** ** The loop of [create_schur_nullspace] *)

(** The loop never raises; it returns one new vector per nullspace
    vector and logs four calls for each, in order. *)
Lemma transfer_loop tmp tmp_b tnsp fa (vecs : list Loc) :
  forall s, exists s',
    for_each vecs (transfer_vector tmp tmp_b tnsp fa) s
    = (Ok (map NewVec (seq (next_id s) (length vecs))), s') /\
    same_self s s' /\
    next_id s' = (length vecs + next_id s)%nat /\
    log s' = log s ++ transfer_events tmp tmp_b tnsp fa vecs (next_id s).
Proof.
  induction vecs as [|v vecs IH]; intros s.
  - exists s. cbn. rewrite app_nil_r. repeat split.
  - cbn [for_each]. unfold bind at 1.
    set (s1 := snd (transfer_vector tmp tmp_b tnsp fa v s)).
    change (transfer_vector tmp tmp_b tnsp fa v s)
      with (Ok (NewVec (next_id s)), s1).
    cbv iota beta.
    destruct (IH s1) as (s' & Hrun & Hsame & Hnext & Hlog).
    exists s'. unfold bind at 1. rewrite Hrun. cbn [ret].
    destruct Hsame as (H1 & H2 & H3 & H4 & H5).
    repeat split; try (etransitivity; [eassumption|reflexivity]).
    + rewrite Hnext. subst s1. cbn. lia.
    + rewrite Hlog. subst s1. cbn [transfer_events].
      cbn. rewrite <- !app_assoc. reflexivity.
Qed.

Lemma create_schur_nullspace_none P fwd V V_d T comm s :
  handle (getNullSpace P) = 0%nat ->
  create_schur_nullspace P fwd V V_d T comm s = (Ok None, s).
Proof. intros H. unfold create_schur_nullspace. rewrite H. reflexivity. Qed.

Lemma create_schur_nullspace_some P fwd V V_d T comm s :
  handle (getNullSpace P) <> 0%nat ->
  let k := length (ns_vecs (getNullSpace P)) in
  let n := next_id s in
  exists s',
    create_schur_nullspace P fwd V V_d T comm s
    = (Ok (Some (mkNullSpace (S (k + (3 + n)))
                   (map NewVec (seq (3 + n) k)) comm)), s') /\
    same_self s s' /\
    log s' = log s ++
      transfer_events (mkFunction n V) (mkFunction (1 + n) V_d)
        (mkFunction (2 + n) (Plain T))
        (fwd * Coeff (Whole (mkFunction (1 + n) V_d)))%slate
        (ns_vecs (getNullSpace P)) (3 + n).
Proof.
  intros H k n. unfold create_schur_nullspace.
  apply Nat.eqb_neq in H. rewrite H.
  cbn. subst k n.
  match goal with
  | |- context [bind (for_each ?vs (transfer_vector ?a ?b ?c ?d)) _ ?st] =>
      destruct (transfer_loop a b c d vs st) as (s' & Hrun & Hsame & Hnext & Hlog)
  end.
  unfold bind at 1.
  rewrite Hrun. cbn in Hnext, Hlog, Hsame |- *.
  eexists. split; [rewrite Hnext; reflexivity|].
  destruct Hsame as (H1 & H2 & H3 & H4 & H5).
  repeat split; cbn; auto.
Qed.

Arguments create_schur_nullspace : simpl never.

(** ** Running [initialize] *)

(** One step of a computation. *)
Lemma bind_run {A B} (m : M State A) (k : A -> M State B) s a s1 :
  m s = (Ok a, s1) -> bind m k s = k a s1.
Proof. intros H. unfold bind. rewrite H. reflexivity. Qed.

Lemma upd_nat_same {A} (h : nat -> A) n v : upd_nat h n v n = v.
Proof. unfold upd_nat. rewrite Nat.eqb_refl. reflexivity. Qed.

(** Symbolic execution, one call at a time: [step] runs the call at the
    head of the computation and [norm] simplifies the projections of the
    state it leaves. *)
Ltac norm :=
  cbn [set_next_id set_data set_self_dict set_mats set_mat_nullspace emit
       next_id data self_dict mats mat_nullspace env options log
       fn_id fn_space mat_id
       ac_tensor ac_expr ac_bcs ac_fc_params create_assembly_callable].

Ltac step := erewrite bind_run by reflexivity; cbv beta; norm.

Ltac raises := cbn; intros H ->; discriminate.

Ltac lookup key :=
  unfold dict_getitem at 1;
  let f := fresh "f" in let E := fresh "E" in
  destruct (dict_get pair_eqb _ key) as [f|] eqn:E; [step|raises].

Ltac lookups :=
  lookup (0, 0)%nat; lookup (0, 1)%nat; lookup (1, 0)%nat; lookup (1, 1)%nat.

Ltac eval_sigma :=
  cbn [filter TrialFunctions MixedFunctionSpace MixedElement map seq len
       iter_space length operand_shape component_shape function_space
       TrialFunction nth_error ufl_element BrokenElement value_shape].

Ltac nullspace_call P :=
  let Eh := fresh "Eh" in
  let Ez := fresh "Ez" in
  destruct (handle (getNullSpace P) =? 0)%nat eqn:Eh;
  [ pose proof Eh as Ez; apply Nat.eqb_eq in Ez;
    erewrite bind_run by (apply create_schur_nullspace_none; eassumption)
  | pose proof Eh as Ez; apply Nat.eqb_neq in Ez;
    match goal with
    | |- context [bind (create_schur_nullspace ?P ?f ?V ?Vd ?T ?c) _ ?st] =>
        let s1 := fresh "s1" in
        let Hrun := fresh "Hrun" in
        let Hs1 := fresh "Hs" in
        let Hs2 := fresh "Hs" in
        let Hs3 := fresh "Hs" in
        let Hs4 := fresh "Hs" in
        let Hs5 := fresh "Hs" in
        let Hlog := fresh "Hlog" in
        destruct (create_schur_nullspace_some P f V Vd T c st Ez)
          as (s1 & Hrun & (Hs1 & Hs2 & Hs3 & Hs4 & Hs5) & Hlog);
        cbn in Hs1, Hs2, Hs3, Hs5, Hlog;
        erewrite bind_run by eassumption
    end ];
  cbv beta; norm.

Ltac index_of_W :=
  cbn [list_index option_map];
  repeat match goal with
    | |- context [FunctionSpace_eq_dec ?a ?b] =>
        destruct (FunctionSpace_eq_dec a b) as [?|?];
        [ try (subst; congruence) | try congruence ]
    end;
  cbn [option_map].

Ltac use_frame :=
  repeat match goal with
    | H : self_dict ?s1 = _ |- context [self_dict ?s1] => rewrite H
    | H : options ?s1 = _ |- context [options ?s1] => rewrite H
    | H : env ?s1 = _ |- context [env ?s1] => rewrite H
    | H : mat_nullspace ?s1 = _ |- context [mat_nullspace ?s1] => rewrite H
    | H : log ?s1 = _ |- context [log ?s1] => rewrite H
    end.

Ltac finish pc s P test trial mesh V0 V1 vi tdeg :=
  unfold setattr, modify;
  (let H := fresh "H" in let Hs := fresh "Hs" in
   intros H _; injection H as _ Hs; subst);
  match goal with
  | EA : dict_get _ _ (0, 0)%nat = Some ?fA,
    EB : dict_get _ _ (0, 1)%nat = Some ?fB,
    EC : dict_get _ _ (1, 0)%nat = Some ?fC,
    ED : dict_get _ _ (1, 1)%nat = Some ?fD |- _ =>
  exists (mkLayout (ctx_a (getPythonContext P))
            (ctx_fc_params (getPythonContext P))
            test trial mesh V0 V1 vi tdeg (next_id s)
            fA fB fC fD
            match dict_get String.eqb (options s)
                    (getOptionsPrefix pc
                     ++ "hybridization_projector_tolerance")%string with
            | Some q => q
            | None => (1 # 100000000)%Q
            end
            (getOptionsPrefix pc) (pc_comm pc))
  end;
  split.

Ltac layout_ok :=
  match goal with
  | EP : getOperators _ = _ |- _ =>
      constructor; rewrite ?EP; cbn; try reflexivity;
      try (match goal with |- _ = _ => assumption end);
      [ unfold one_vector_space; cbn;
        first [ left; split; [reflexivity | split; assumption]
              | right; split; [reflexivity | split; assumption] ]
      | unfold trace_degree_ok; cbn;
        first [ left; split; [assumption | reflexivity]
              | right; split; [assumption | reflexivity] ] ]
  end.

Ltac state_ok :=
  match goal with
  | EP : getOperators _ = _, Eh : (handle _ =? 0)%nat = _ |- _ =>
      rewrite ?EP; norm;
      unfold ly_nullspace_events, ly_schur_nullspace; cbn [snd];
      rewrite Eh; use_frame; norm;
      rewrite <- ?app_assoc; cbn [app]; rewrite ?upd_nat_same;
      repeat split
  end.

Ltac run_initialize P :=
  repeat step; eval_sigma;
  match goal with
  | E0 : truthy _ = _, E1 : truthy _ = _ |- _ => rewrite E0, E1
  end;
  repeat step; nullspace_call P;
  repeat step; lookups; repeat step; index_of_W; repeat step.

(** A completed [initialize] appends the attributes of some layout to
    [self]; the layout is the one read off [pc] and the starting state.
    Up to the nullspace transfer the only numerical call is the assembly
    of [S]. *)
Lemma initialize_spec (pc : PC) (s : State) r s' :
  initialize pc s = (r, s') -> r = Ok tt ->
  exists l,
    layout_of pc s l /\
    self_dict s' = self_dict s ++ layout_attrs l /\
    options s' = options s /\ env s' = env s /\
    log s' = log s ++ [EvAssemble (ly_assemble_S l); EvForceEvaluation (ly_S l)]
                   ++ ly_nullspace_events l (getNullSpace (snd (getOperators pc))) /\
    mat_nullspace s' (mat_id (ly_S l))
    = ly_schur_nullspace l (getNullSpace (snd (getOperators pc))).
Proof.
  unfold initialize.
  destruct (getOperators pc) as [A0 P] eqn:EP.
  destruct (arguments (ctx_a (getPythonContext P))) as [|test [|trial [|]]] eqn:Eargs;
    try raises.
  step.
  destruct (function_space test) as [fs|mesh [|V0 [|V1 [|]]]] eqn:EV;
    try (cbn; destruct (cell_set_extruded _); raises).
  cbn [space_mesh iter_space len length].
  destruct (cell_set_extruded mesh) eqn:Eext; [raises|].
  cbn [Nat.eqb negb forallb andb].
  destruct (vector_valued V0) eqn:E0, (vector_valued V1) eqn:E1; cbn [andb filter];
   rewrite ?E0, ?E1; try raises.
  - step. unfold trace_degree.
    pose proof E0 as E0'. pose proof E1 as E1'.
    unfold vector_valued in E0, E1.
    destruct (family (ufl_element V0) =? "Raviart-Thomas") eqn:ERT;
    [ apply String.eqb_eq in ERT
    | destruct (family (ufl_element V0) =? "Brezzi-Douglas-Marini") eqn:EBDM;
       [ apply String.eqb_eq in EBDM | raises]].
    + run_initialize P;
        (finish pc s P test trial mesh V0 V1 0%nat
               (degree (ufl_element V0) - 1)%Z; [layout_ok | state_ok]).
    + run_initialize P;
        (finish pc s P test trial mesh V0 V1 0%nat
               (degree (ufl_element V0)); [layout_ok | state_ok]).
  - step. unfold trace_degree.
    pose proof E0 as E0'. pose proof E1 as E1'.
    unfold vector_valued in E0, E1.
    destruct (family (ufl_element V1) =? "Raviart-Thomas") eqn:ERT;
    [ apply String.eqb_eq in ERT
    | destruct (family (ufl_element V1) =? "Brezzi-Douglas-Marini") eqn:EBDM;
       [ apply String.eqb_eq in EBDM | raises]].
    + run_initialize P;
        (finish pc s P test trial mesh V0 V1 1%nat
               (degree (ufl_element V1) - 1)%Z; [layout_ok | state_ok]).
    + run_initialize P;
        (finish pc s P test trial mesh V0 V1 1%nat
               (degree (ufl_element V1)); [layout_ok | state_ok]).
Qed.


(** ** Attribute lookup once [initialize] has run *)

Lemma dict_get_app {K V} (eqb : K -> K -> bool) (d1 d2 : Dict K V) k :
  dict_get eqb (d1 ++ d2) k =
  match dict_get eqb d2 k with
  | Some v => Some v
  | None => dict_get eqb d1 k
  end.
Proof.
  induction d1 as [|[k' v'] d1 IH]; cbn.
  - destruct (dict_get eqb d2 k); reflexivity.
  - rewrite IH. destruct (dict_get eqb d2 k); reflexivity.
Qed.

Lemma getattr_ready l s name v :
  has_attrs l s ->
  dict_get String.eqb (layout_attrs l) name = Some v ->
  getattr name s = (Ok v, s).
Proof.
  intros [d Hd] Hv. unfold getattr. rewrite Hd, dict_get_app, Hv. reflexivity.
Qed.

Lemma self_function_ready l s name f :
  has_attrs l s ->
  dict_get String.eqb (layout_attrs l) name = Some (AFunction f) ->
  self_function name s = (Ok f, s).
Proof.
  intros H Hv. unfold self_function.
  erewrite bind_run by (eapply getattr_ready; eassumption). reflexivity.
Qed.

Lemma self_callable_ready l s name c :
  has_attrs l s ->
  dict_get String.eqb (layout_attrs l) name = Some (ACallable c) ->
  self_callable name s = (Ok c, s).
Proof.
  intros H Hv. unfold self_callable.
  erewrite bind_run by (eapply getattr_ready; eassumption). reflexivity.
Qed.

Lemma self_matrix_ready l s name m :
  has_attrs l s ->
  dict_get String.eqb (layout_attrs l) name = Some (AMatrix m) ->
  self_matrix name s = (Ok m, s).
Proof.
  intros H Hv. unfold self_matrix.
  erewrite bind_run by (eapply getattr_ready; eassumption). reflexivity.
Qed.

Lemma self_ksp_ready l s name k :
  has_attrs l s ->
  dict_get String.eqb (layout_attrs l) name = Some (AKSP k) ->
  self_ksp name s = (Ok k, s).
Proof.
  intros H Hv. unfold self_ksp.
  erewrite bind_run by (eapply getattr_ready; eassumption). reflexivity.
Qed.

Lemma self_projector_ready l s name p :
  has_attrs l s ->
  dict_get String.eqb (layout_attrs l) name = Some (AProjector p) ->
  self_projector name s = (Ok p, s).
Proof.
  intros H Hv. unfold self_projector.
  erewrite bind_run by (eapply getattr_ready; eassumption). reflexivity.
Qed.

Lemma scalar_fields_V l n :
  one_vector_space l ->
  scalar_fields (mkFunction n (ly_V l))
  = [Split (mkFunction n (ly_V l)) (ly_scalar_index l)].
Proof.
  unfold one_vector_space, vector_valued, scalar_fields, not_scalar,
    ly_scalar_index.
  intros [(Hi & H0 & H1) | (Hi & H0 & H1)]; rewrite Hi; cbn;
    rewrite H0, H1; reflexivity.
Qed.

Lemma scalar_fields_V_d l n :
  one_vector_space l ->
  scalar_fields (mkFunction n (ly_V_d l))
  = [Split (mkFunction n (ly_V_d l)) (ly_scalar_index l)].
Proof.
  unfold one_vector_space, vector_valued, scalar_fields, not_scalar,
    ly_scalar_index.
  intros [(Hi & H0 & H1) | (Hi & H0 & H1)]; rewrite Hi; cbn;
    rewrite H0, H1; reflexivity.
Qed.

Ltac attr_step :=
  erewrite bind_run
    by (first [ eapply self_function_ready | eapply self_callable_ready
              | eapply self_matrix_ready | eapply self_ksp_ready
              | eapply self_projector_ready ];
        [ norm; eassumption | reflexivity ]);
  cbv beta; norm.

Ltac scalar_step :=
  first [ rewrite (scalar_fields_V _ _ ltac:(eassumption))
        | rewrite (scalar_fields_V_d _ _ ltac:(eassumption)) ];
  step.


Ltac callables :=
  cbn [ac_tensor ac_expr ac_bcs ly_assemble_S ly_assemble_Srhs
       ly_assemble_pressure ly_assemble_velocity ly_data_projector
       ly_projector proj_source proj_target ly_ksp ksp_operators].

(** [update] on a preconditioner that has been set up. *)
Lemma update_spec l (pc : PC) s :
  ready l s ->
  exists s',
    update pc s = (Ok tt, s') /\
    same_self_but_mats s s' /\ next_id s' = next_id s /\
    log s' = log s ++ update_events l /\
    mats s' = upd_nat (mats s) (mat_id (ly_S l))
                (apply_bcs (ly_trace_conditions l) (eval s (ly_schur_comp l))) /\
    data s' = upd (data s) (Dat (fn_id (ly_schur_rhs l)))
                (eval s (ac_expr (ly_assemble_Srhs l))).
Proof.
  intros [Hvec Hattrs].
  unfold update. repeat first [attr_step | step].
  eexists. split; [reflexivity|].
  unfold call, modify, same_self_but_mats. callables. norm.
  rewrite <- !app_assoc. 
  repeat split.
Qed.

Lemma scalar_fields_ly l :
  one_vector_space l ->
  scalar_fields (ly_unbroken_rhs l)
    = [Split (ly_unbroken_rhs l) (ly_scalar_index l)] /\
  scalar_fields (ly_broken_rhs l)
    = [Split (ly_broken_rhs l) (ly_scalar_index l)] /\
  scalar_fields (ly_broken_solution l)
    = [Split (ly_broken_solution l) (ly_scalar_index l)] /\
  scalar_fields (ly_unbroken_solution l)
    = [Split (ly_unbroken_solution l) (ly_scalar_index l)].
Proof.
  intros H. repeat split;
    first [apply scalar_fields_V | apply scalar_fields_V_d]; exact H.
Qed.

Ltac scalar_fields_step :=
  match goal with
  | H : scalar_fields ?f = _ |- context [scalar_fields ?f] => rewrite H; step
  end.

Lemma upd_other {A} (h : Loc -> A) l v l' : l <> l' -> upd h l v l' = h l'.
Proof. intros H. unfold upd. destruct (Loc_eq_dec l l'); congruence. Qed.

Lemma upd_same {A} (h : Loc -> A) l v : upd h l v l = v.
Proof. unfold upd. destruct (Loc_eq_dec l l); congruence. Qed.

Ltac name_data :=
  try match goal with
      | |- context [set_data ?d _] =>
          tryif is_var d then fail
          else (let dn := fresh "d" in set (dn := d))
      end.

Ltac reads :=
  cbn [read store coefficient_loc proj_source proj_target ly_data_projector
       ly_projector ac_tensor ac_bcs ly_assemble_S ly_assemble_Srhs
       ly_assemble_pressure ly_assemble_velocity apply_bcs fold_left].

Ltac run :=
  repeat (first [attr_step | scalar_fields_step | step]; reads; norm;
          name_data).

(** [apply] on a preconditioner that has been set up: it completes,
    logs [apply_events], and changes no storage other than the six
    fields and [y]. *)
Lemma apply_spec l (pc : PC) (x y : Loc) s :
  ready l s ->
  exists s',
    apply pc x y s = (Ok tt, s') /\
    same_self s s' /\ next_id s' = next_id s /\
    log s' = log s ++ apply_events l x y /\
    (forall loc, ~ In loc (ly_fields l) -> loc <> y ->
                 data s' loc = data s loc) /\
    data s' y = data s' (Dat (fn_id (ly_unbroken_solution l))).
Proof.
  intros [Hvec Hattrs].
  destruct (scalar_fields_ly Hvec) as (F1 & F2 & F3 & F4).
  unfold apply. 
  run.
  eexists. split; [reflexivity|]. norm.
  split; [unfold same_self; norm; repeat split|].
  split; [reflexivity|].
  split; [rewrite <- !app_assoc; reflexivity|].
  split.
  - intros loc Hf Hy. unfold ly_fields in Hf. cbn [In] in Hf.
    assert (Hb : Dat (fn_id (ly_broken_solution l)) <> loc) by tauto.
    assert (Hr : Dat (fn_id (ly_broken_rhs l)) <> loc) by tauto.
    assert (Ht : Dat (fn_id (ly_trace_solution l)) <> loc) by tauto.
    assert (Hu : Dat (fn_id (ly_unbroken_solution l)) <> loc) by tauto.
    assert (Hv : Dat (fn_id (ly_unbroken_rhs l)) <> loc) by tauto.
    assert (Hs : Dat (fn_id (ly_schur_rhs l)) <> loc) by tauto.
    rewrite upd_other by congruence.
    unfold d7. rewrite upd_other by assumption.
    unfold d6. rewrite upd_other by assumption.
    unfold d5. rewrite upd_other by assumption.
    unfold d4. rewrite upd_other by assumption.
    unfold d3. rewrite upd_other by assumption.
    unfold d2. rewrite upd_other by assumption.
    unfold d1. rewrite upd_other by assumption.
    unfold d0. rewrite upd_other by assumption.
    unfold d. rewrite upd_other by assumption.
    reflexivity.
  - rewrite upd_same. unfold upd.
    destruct (Loc_eq_dec y (Dat (fn_id (ly_unbroken_solution l)))); reflexivity.
Qed.

Lemma getattr_missing name s :
  dict_get String.eqb (self_dict s) name = None ->
  getattr name s = (Raise (AttributeError name), s).
Proof. intros H. unfold getattr. rewrite H. reflexivity. Qed.

Lemma apply_before_initialize (pc : PC) (x y : Loc) s :
  dict_get String.eqb (self_dict s) "unbroken_rhs" = None ->
  apply pc x y s = (Raise (AttributeError "unbroken_rhs"), s).
Proof.
  intros H. unfold apply, self_function, bind.
  rewrite (getattr_missing _ _ H). reflexivity.
Qed.


Lemma succeeds_after {A} (m : M State A) s a :
  fst (m s) = Ok a -> m s = (Ok a, after m s).
Proof. unfold after. destruct (m s) as [r s']. cbn. intros ->. reflexivity. Qed.

Lemma initialize_ready pc s :
  succeeds (initialize pc) s ->
  exists l, layout_of pc s l /\ ready l (after (initialize pc) s) /\
    self_dict (after (initialize pc) s) = self_dict s ++ layout_attrs l /\
    log (after (initialize pc) s)
    = log s ++ [EvAssemble (ly_assemble_S l); EvForceEvaluation (ly_S l)]
            ++ ly_nullspace_events l (getNullSpace (snd (getOperators pc))) /\
    mat_nullspace (after (initialize pc) s) (mat_id (ly_S l))
    = ly_schur_nullspace l (getNullSpace (snd (getOperators pc))).
Proof.
  intros [[] H]. apply succeeds_after in H.
  destruct (initialize_spec pc s H eq_refl) as (l & Hl & Hd & _ & _ & Hlog & Hns).
  exists l. split; [exact Hl|]. split; [|auto].
  split; [apply (lo_vec Hl) | exists (self_dict s); exact Hd].
Qed.

Lemma self_attr_ready l s name v :
  has_attrs l s ->
  dict_get String.eqb (layout_attrs l) name = Some v ->
  self_attr s name = Some v.
Proof.
  intros [d Hd] Hv. unfold self_attr. rewrite Hd, dict_get_app, Hv. reflexivity.
Qed.


(** ** Rejected configurations *)

(** C9. For every input and in every state, [applyTranspose] raises the
    not-implemented error; the state, hence every vector and every
    field, is left as it was, and no collaborator is called. *)
Theorem applyTranspose_always_raises (pc : PC) (x y : Loc) (s : State) :
  applyTranspose pc x y s
  = (Raise (NotImplementedError
              "The transpose application of this PCis not implemented."), s).
Proof. reflexivity. Qed.

(** C6. For a bilinear form over the space [V]: [initialize] raises when
    the mesh is extruded, when [V] does not have exactly two component
    spaces, and when all component spaces are vector-valued.  In each
    case the state is the one [initialize] started from: nothing was
    allocated, no attribute was set and no assembly was logged. *)
Theorem initialize_rejects (pc : PC) (s : State) (test trial : Argument) :
  arguments (ctx_a (getPythonContext (snd (getOperators pc))))
  = [test; trial] ->
  let V := function_space test in
  (cell_set_extruded (space_mesh V) = true ->
   initialize pc s
   = (Raise (NotImplementedError "Not implemented on extruded meshes."), s))
  /\
  (cell_set_extruded (space_mesh V) = false -> len V <> 2%nat ->
   initialize pc s
   = (Raise (AssertionError
               "Can only hybridize a mixed system with two spaces."), s))
  /\
  (cell_set_extruded (space_mesh V) = false -> len V = 2%nat ->
   forallb vector_valued (iter_space V) = true ->
   initialize pc s
   = (Raise (ValueError
               "Expecting an H(div) x L2 pair of spaces. Both spaces cannot be vector-valued."),
      s)).
Proof.
  intros Hargs V. unfold initialize.
  destruct (getOperators pc) as [A0 P]. cbn [snd] in Hargs.
  rewrite Hargs. step. fold V.
  repeat split.
  - intros ->. reflexivity.
  - intros -> Hlen. apply Nat.eqb_neq in Hlen. rewrite Hlen. reflexivity.
  - intros -> Hlen Hall. rewrite Hlen, Hall. reflexivity.
Qed.

(** The vector-valued component space, when there is exactly one. *)
Lemma initialize_rejects_family (pc : PC) (s : State) (test trial : Argument)
  (m : Mesh) (V0 V1 W : FunctionSpace) :
  arguments (ctx_a (getPythonContext (snd (getOperators pc))))
  = [test; trial] ->
  function_space test = Mixed m [V0; V1] ->
  cell_set_extruded m = false ->
  filter vector_valued [V0; V1] = [W] ->
  family (ufl_element W) <> "Raviart-Thomas" ->
  family (ufl_element W) <> "Brezzi-Douglas-Marini" ->
  initialize pc s
  = (Raise (ValueError
              (family (ufl_element W) ++ " not supported at the moment.")), s).
Proof.
  intros Hargs HV Hext HW Hrt Hbdm. unfold initialize.
  destruct (getOperators pc) as [A0 P]. cbn [snd] in Hargs.
  rewrite Hargs. step. rewrite HV.
  cbn [space_mesh iter_space len length]. rewrite Hext.
  cbn [Nat.eqb negb].
  assert (Hall : forallb vector_valued [V0; V1] = false).
  { cbn [filter] in HW. cbn [forallb].
    destruct (vector_valued V0), (vector_valued V1); try reflexivity;
      discriminate. }
  rewrite Hall, HW. step. unfold trace_degree.
  apply String.eqb_neq in Hrt, Hbdm. rewrite Hrt, Hbdm. reflexivity.
Qed.
Lemma ly_W_vector l : one_vector_space l -> vector_valued (ly_W l) = true.
Proof.
  unfold ly_W. intros [(-> & H0 & _) | (-> & _ & H1)]; assumption.
Qed.

Lemma ly_W_in l : In (ly_W l) (iter_space (ly_V l)).
Proof.
  unfold ly_W, ly_V. cbn [iter_space].
  destruct (ly_vector_index l) as [|[|[|n]]]; cbn; auto.
Qed.

Lemma trace_degree_layout l s :
  trace_degree_ok l -> trace_degree (ly_W l) s = (Ok (ly_tdegree l), s).
Proof.
  unfold trace_degree. intros [(Hf & ->) | (Hf & ->)]; rewrite Hf; reflexivity.
Qed.

(** C5. The trace degree is read off the family of the vector-valued
    space [W]: the degree of [W] minus one for Raviart-Thomas, the degree
    of [W] for Brezzi-Douglas-Marini, and a [ValueError] for every other
    family.  When [initialize] completes, the trace space it built has
    the degree so derived from the vector-valued component of the mixed
    space; when the family of that component is neither of the two,
    [initialize] raises the [ValueError] and leaves the state untouched. *)
Theorem trace_degree_from_family :
  (forall W s, family (ufl_element W) = "Raviart-Thomas" ->
     trace_degree W s = (Ok (degree (ufl_element W) - 1)%Z, s)) /\
  (forall W s, family (ufl_element W) = "Brezzi-Douglas-Marini" ->
     trace_degree W s = (Ok (degree (ufl_element W)), s)) /\
  (forall W s, family (ufl_element W) <> "Raviart-Thomas" ->
     family (ufl_element W) <> "Brezzi-Douglas-Marini" ->
     trace_degree W s
     = (Raise (ValueError (family (ufl_element W)
                           ++ " not supported at the moment.")), s)) /\
  (forall pc s, succeeds (initialize pc) s ->
     exists l, layout_of pc s l /\
       vector_valued (ly_W l) = true /\
       In (ly_W l) (iter_space (function_space (ly_test l))) /\
       trace_degree (ly_W l) s = (Ok (ly_tdegree l), s) /\
       self_attr (after (initialize pc) s) "trace_solution"
       = Some (AFunction
                 (mkFunction (2 + next_id s)
                    (Plain (ScalarFunctionSpace (ly_mesh l) "HDiv Trace"
                                                (ly_tdegree l)))))) /\
  (forall pc s test trial m V0 V1 W,
     arguments (ctx_a (getPythonContext (snd (getOperators pc))))
     = [test; trial] ->
     function_space test = Mixed m [V0; V1] ->
     cell_set_extruded m = false ->
     filter vector_valued [V0; V1] = [W] ->
     family (ufl_element W) <> "Raviart-Thomas" ->
     family (ufl_element W) <> "Brezzi-Douglas-Marini" ->
     initialize pc s
     = (Raise (ValueError (family (ufl_element W)
                           ++ " not supported at the moment.")), s)).
Proof.
  split; [|split; [|split; [|split]]].
  - intros W s H. unfold trace_degree. rewrite H. reflexivity.
  - intros W s H. unfold trace_degree. rewrite H. reflexivity.
  - intros W s H1 H2. unfold trace_degree.
    apply String.eqb_neq in H1, H2. rewrite H1, H2. reflexivity.
  - intros pc s H.
    destruct (initialize_ready pc H) as (l & Hl & [Hvec Hattrs] & _).
    exists l. split; [exact Hl|].
    split; [apply ly_W_vector; exact Hvec|].
    split; [rewrite (lo_V Hl); apply ly_W_in|].
    split; [apply trace_degree_layout; apply (lo_degree Hl)|].
    erewrite self_attr_ready; [| exact Hattrs | reflexivity].
    unfold ly_trace_solution, ly_TraceSpace. rewrite (lo_base Hl). reflexivity.
  - intros. eapply initialize_rejects_family; eassumption.
Qed.

(** ** What [initialize] builds *)

(** C1, as amended.  After [initialize], the callable for the operator
    assembles [S = K * Atilde.inv * K.T] into the allocated matrix, and
    both the matrix and the callable carry the zero boundary condition
    on the boundary of the trace space; the callable for the right-hand
    side assembles [K * Atilde.inv * broken_rhs] into [schur_rhs] and is
    created with no boundary conditions.  [Atilde] is the original form
    with its arguments replaced by the test and trial functions of the
    broken space, and [K] pairs the trace test function with the
    vector-valued component of the broken trial function. *)
Theorem schur_callables (pc : PC) (s : State) :
  succeeds (initialize pc) s ->
  let s' := after (initialize pc) s in
  let context := getPythonContext (snd (getOperators pc)) in
  exists l test trial sigma,
    layout_of pc s l /\
    arguments (ctx_a context) = [test; trial] /\
    let V_d := ly_V_d l in
    let TraceSpace := ly_TraceSpace l in
    let trace_conditions := [mkDirichletBC TraceSpace 0 "on_boundary"] in
    let Atilde :=
      Tensor (replace (ctx_a context)
                [(test, TestFunction V_d); (trial, TrialFunction V_d)]) in
    let K := Tensor (FacetPairing (TestFunction (Plain TraceSpace)) sigma
                                  (ly_mesh l)) in
    let S := mkMatrix (6 + next_id s) (K * Inv Atilde * Transpose K)
                      trace_conditions in
    In sigma (TrialFunctions V_d) /\ operand_shape sigma <> [] /\
    self_attr s' "broken_rhs" = Some (AFunction (ly_broken_rhs l)) /\
    self_attr s' "schur_rhs" = Some (AFunction (ly_schur_rhs l)) /\
    self_attr s' "S" = Some (AMatrix S) /\
    self_attr s' "_assemble_S"
    = Some (ACallable
              (mkAssemblyCallable (K * Inv Atilde * Transpose K)
                 (IntoMatrix S) trace_conditions (ctx_fc_params context))) /\
    self_attr s' "_assemble_Srhs"
    = Some (ACallable
              (mkAssemblyCallable
                 (K * Inv Atilde * Coeff (Whole (ly_broken_rhs l)))
                 (IntoFunction (Whole (ly_schur_rhs l))) []
                 (ctx_fc_params context))).
Proof.
  intros H s' context.
  destruct (initialize_ready pc H) as (l & Hl & [Hvec Hattrs] & _).
  exists l, (ly_test l), (ly_trial l),
    (ArgComponent (TrialFunction (ly_V_d l)) (ly_vector_index l)).
  split; [exact Hl|].
  split; [unfold context; rewrite <- (lo_a Hl); apply (lo_args Hl)|].
  cbv zeta.
  split.
  { unfold TrialFunctions, ly_V_d. cbn.
    destruct Hvec as [(-> & _) | (-> & _)]; auto. }
  split.
  { unfold ly_V_d. unfold one_vector_space, vector_valued in Hvec.
    destruct Hvec as [(-> & H0 & _) | (-> & _ & H1)]; cbn;
      intros E; [rewrite E in H0 | rewrite E in H1]; discriminate. }
  fold s'. unfold context. rewrite <- (lo_a Hl), <- (lo_fc Hl), <- (lo_base Hl).
  repeat split; (eapply self_attr_ready; [exact Hattrs | reflexivity]).
Qed.

Lemma ly_shapes l :
  vector_valued (ly_V0 l) = true -> vector_valued (ly_V1 l) = false ->
  ufl_shape (Split (ly_broken_rhs l) 0) <> [] /\
  ufl_shape (Split (ly_broken_rhs l) 1) = [] /\
  ufl_shape (Split (ly_broken_solution l) 0) <> [] /\
  ufl_shape (Split (ly_broken_solution l) 1) = [].
Proof.
  unfold vector_valued. cbn.
  destruct (value_shape (ufl_element (ly_V0 l))),
           (value_shape (ufl_element (ly_V1 l))); cbn; try discriminate.
  intros _ _. repeat split; discriminate.
Qed.

(** C2.  For an H(div) x L2 pair, the vector-valued space being the
    first of the two component spaces, the expressions prepared
    by [initialize] are the scalar and the vector reconstruction formulas
    of the specification: [A], [B], [C], [D] are the blocks (0,0), (0,1),
    (1,0), (1,1) of the broken form, [lambda] is [trace_solution], [g]
    and [f] are the vector and the scalar component of [broken_rhs], and
    the scalar unknown [u] that the vector formula reads is the
    component of [broken_solution] the scalar formula is assembled
    into. *)
Theorem reconstruction_expressions (pc : PC) (s : State)
  (test trial : Argument) (V0 : FunctionSpace) :
  succeeds (initialize pc) s ->
  arguments (ctx_a (getPythonContext (snd (getOperators pc))))
  = [test; trial] ->
  hd_error (iter_space (function_space test)) = Some V0 ->
  vector_valued V0 = true ->
  let s' := after (initialize pc) s in
  let context := getPythonContext (snd (getOperators pc)) in
  exists l A B C D sigma_h u_h g f,
    layout_of pc s l /\
    let Atilde_form :=
      replace (ctx_a context)
        [(test, TestFunction (ly_V_d l)); (trial, TrialFunction (ly_V_d l))] in
    let split_forms := split_form Atilde_form in
    let lambda := Coeff (Whole (ly_trace_solution l)) in
    dict_get pair_eqb split_forms (0, 0)%nat = Some A /\
    dict_get pair_eqb split_forms (0, 1)%nat = Some B /\
    dict_get pair_eqb split_forms (1, 0)%nat = Some C /\
    dict_get pair_eqb split_forms (1, 1)%nat = Some D /\
    self_attr s' "trace_solution" = Some (AFunction (ly_trace_solution l)) /\
    split (ly_broken_solution l) = [sigma_h; u_h] /\
    split (ly_broken_rhs l) = [g; f] /\
    ufl_shape g <> [] /\ ufl_shape f = [] /\
    ufl_shape sigma_h <> [] /\ ufl_shape u_h = [] /\
    self_attr s' "_assemble_pressure"
    = Some (ACallable
              (mkAssemblyCallable
                 (scalar_reconstruction (Tensor A) (Tensor B) (Tensor C)
                    (Tensor D) (ly_K_local l) lambda (Coeff g) (Coeff f))
                 (IntoFunction u_h) [] (ctx_fc_params context))) /\
    self_attr s' "_assemble_velocity"
    = Some (ACallable
              (mkAssemblyCallable
                 (vector_reconstruction (Tensor A) (Tensor B) (ly_K_local l)
                    lambda (Coeff g) (Coeff u_h))
                 (IntoFunction sigma_h) [] (ctx_fc_params context))).
Proof.
  intros H Hargs Hhd Hvec0 s' context.
  destruct (initialize_ready pc H) as (l & Hl & [Hvec Hattrs] & _).
  assert (Htest : ly_test l = test /\ ly_trial l = trial).
  { pose proof (lo_args Hl) as E. rewrite (lo_a Hl), Hargs in E.
    injection E as -> ->. split; reflexivity. }
  destruct Htest as [Htest Htrial].
  assert (HV0 : ly_V0 l = V0).
  { rewrite <- Htest, (lo_V Hl) in Hhd. cbn in Hhd. congruence. }
  assert (Hroles : vector_valued (ly_V0 l) = true /\
                   vector_valued (ly_V1 l) = false).
  { destruct Hvec as [(_ & H0 & H1) | (_ & H0 & _)]; [auto|].
    rewrite HV0 in H0. congruence. }
  destruct (ly_shapes l (proj1 Hroles) (proj2 Hroles)) as (S1 & S2 & S3 & S4).
  exists l, (ly_A l), (ly_B l), (ly_C l), (ly_D l),
    (Split (ly_broken_solution l) 0), (Split (ly_broken_solution l) 1),
    (Split (ly_broken_rhs l) 0), (Split (ly_broken_rhs l) 1).
  split; [exact Hl|]. cbv zeta. unfold context.
  rewrite <- Htest, <- Htrial, <- (lo_a Hl), <- (lo_fc Hl).
  split; [apply (lo_A Hl)|]. split; [apply (lo_B Hl)|].
  split; [apply (lo_C Hl)|]. split; [apply (lo_D Hl)|].
  split; [eapply self_attr_ready; [exact Hattrs | reflexivity]|].
  split; [reflexivity|]. split; [reflexivity|].
  split; [exact S1|]. split; [exact S2|]. split; [exact S3|].
  split; [exact S4|].
  split; (eapply self_attr_ready; [exact Hattrs | reflexivity]).
Qed.

(** The forward projector [data_projector] reads the component of
    [broken_rhs] it writes: source and target are the same
    sub-function. *)
Lemma data_projector_source (pc : PC) (s : State) :
  succeeds (initialize pc) s ->
  exists l, layout_of pc s l /\
    self_attr (after (initialize pc) s) "data_projector"
    = Some (AProjector
              (mkProjector (Split (ly_broken_rhs l) (ly_vector_index l))
                           (Split (ly_broken_rhs l) (ly_vector_index l))
                           None None)) /\
    self_attr (after (initialize pc) s) "unbroken_rhs"
    = Some (AFunction (ly_unbroken_rhs l)) /\
    self_attr (after (initialize pc) s) "broken_rhs"
    = Some (AFunction (ly_broken_rhs l)) /\
    fn_id (ly_unbroken_rhs l) <> fn_id (ly_broken_rhs l).
Proof.
  intros H.
  destruct (initialize_ready pc H) as (l & Hl & [Hvec Hattrs] & _).
  exists l. split; [exact Hl|].
  repeat split; try (eapply self_attr_ready; [exact Hattrs | reflexivity]).
  cbn. lia.
Qed.

Lemma field_ids_differ l (i j : nat) :
  i <> j -> Dat (i + ly_base l) <> Dat (j + ly_base l).
Proof. intros H E. injection E. lia. Qed.

(** What [apply] leaves in [broken_rhs], for caller vectors [x] and [y]:
    the scalar component is the scalar component of [x]; the vector
    component is the projection of the vector component [broken_rhs]
    held before the call, whatever [x] is. *)
Lemma apply_broken_rhs l (pc : PC) (i j : nat) s :
  ready l s ->
  let s' := after (apply pc (PVec i) (PVec j)) s in
  let b := data s (Dat (fn_id (ly_broken_rhs l))) in
  let vi := ly_vector_index l in
  let si := ly_scalar_index l in
  data s' (Dat (fn_id (ly_broken_rhs l)))
  = set_comp si (get_comp si (data s (PVec i)))
      (set_comp vi
         (project_solve (ly_data_projector l) (get_comp vi b) (get_comp vi b))
         b).
Proof.
  intros [Hvec Hattrs] s' b vi si. subst s'. unfold after.
  destruct (scalar_fields_ly Hvec) as (F1 & F2 & F3 & F4).
  unfold apply.
  run.
  match goal with
  | |- data (snd (?m ?st)) _ = _ =>
      change (m st) with (Ok tt, emit (EvVecCopy (Dat (fn_id (ly_unbroken_solution l))) (PVec j))
        (set_data (upd (data st) (PVec j) (data st (Dat (fn_id (ly_unbroken_solution l))))) st))
  end.
  cbn [snd]. norm.
  rewrite upd_other by discriminate.
  unfold d7. rewrite upd_other by (apply (field_ids_differ l (i:=3) (j:=1)); lia).
  unfold d6. rewrite upd_other by (apply (field_ids_differ l (i:=3) (j:=1)); lia).
  unfold d5. rewrite upd_other by (apply (field_ids_differ l (i:=0) (j:=1)); lia).
  unfold d4. rewrite upd_other by (apply (field_ids_differ l (i:=0) (j:=1)); lia).
  unfold d3. rewrite upd_other by (apply (field_ids_differ l (i:=2) (j:=1)); lia).
  unfold d2. rewrite upd_other by (apply (field_ids_differ l (i:=5) (j:=1)); lia).
  unfold d1. rewrite upd_same.
  unfold d0. rewrite upd_same.
  rewrite (upd_other _ _ (l:=Dat (fn_id (ly_broken_rhs l)))
                     (l':=Dat (fn_id (ly_unbroken_rhs l))))
    by (apply (field_ids_differ l (i:=1) (j:=4)); lia).
  unfold d. rewrite upd_same.
  rewrite upd_other by (apply (field_ids_differ l (i:=4) (j:=1)); lia).
  reflexivity.
Qed.

(** ** Update and apply on a preconditioner that has been set up *)

Lemma update_ready l pc s :
  ready l s -> ready l (after (update pc) s).
Proof.
  intros H. destruct (update_spec pc H) as (s' & Hrun & (Hd & _) & _).
  unfold after. rewrite Hrun. cbn [snd].
  destruct H as [Hvec [d Hs]]. split; [exact Hvec|].
  exists d. rewrite Hd. exact Hs.
Qed.

Lemma apply_ready l pc x y s :
  ready l s -> ready l (after (apply pc x y) s).
Proof.
  intros H. destruct (apply_spec pc x y H) as (s' & Hrun & (Hd & _) & _).
  unfold after. rewrite Hrun. cbn [snd].
  destruct H as [Hvec [d Hs]]. split; [exact Hvec|].
  exists d. rewrite Hd. exact Hs.
Qed.

(** The value of an expression depends on the operator coefficients and
    on the data of the coefficients it reads, and on nothing else. *)
Lemma eval_ext (s s' : State) (e : Slate) :
  env s' = env s ->
  (forall c, In c (coefficients e) -> read s' c = read s c) ->
  eval s' e = eval s e.
Proof.
  intros Henv. induction e; cbn [eval coefficients]; intros Hc.
  - rewrite Henv. reflexivity.
  - apply Hc. left. reflexivity.
  - rewrite IHe by assumption. reflexivity.
  - rewrite IHe by assumption. reflexivity.
  - rewrite IHe1, IHe2; [reflexivity| |]; intros c Hin; apply Hc;
      apply in_or_app; auto.
  - rewrite IHe1, IHe2; [reflexivity| |]; intros c Hin; apply Hc;
      apply in_or_app; auto.
  - rewrite IHe1, IHe2; [reflexivity| |]; intros c Hin; apply Hc;
      apply in_or_app; auto.
Qed.

(** C8.  Two calls of [update] in a row, with the operator coefficients
    unchanged, leave every matrix and every field with the contents the
    first call left, in particular [S] and [schur_rhs].  A call of
    [update] runs the two existing callables and nothing else: no
    attribute of [self] changes (the expressions, the matrix handle and
    the KSP are the ones [initialize] stored), nothing is allocated and
    no nullspace is attached or removed. *)
Theorem update_idempotent (l : Layout) (pc : PC) (s : State) :
  ready l s ->
  let s1 := after (update pc) s in
  let s2 := after (update pc) s1 in
  succeeds (update pc) s /\ succeeds (update pc) s1 /\
  (forall i, mats s2 i = mats s1 i) /\
  (forall loc, data s2 loc = data s1 loc) /\
  self_dict s1 = self_dict s /\ self_dict s2 = self_dict s /\
  next_id s1 = next_id s /\ next_id s2 = next_id s /\
  mat_nullspace s1 = mat_nullspace s /\
  self_attr s1 "ksp" = Some (AKSP (ly_ksp l)) /\
  log s1 = log s ++ [ EvAssemble (ly_assemble_S l);
                      EvForceEvaluation (ly_S l);
                      EvAssemble (ly_assemble_Srhs l) ].
Proof.
  intros H s1 s2.
  destruct (update_spec pc H)
    as (t1 & Hrun1 & (Hd1 & Ho1 & He1 & Hn1) & Hi1 & Hlog1 & Hm1 & Hdat1).
  assert (E1 : s1 = t1) by (unfold s1, after; rewrite Hrun1; reflexivity).
  assert (H1 : ready l s1) by (apply update_ready; exact H).
  destruct (update_spec pc H1)
    as (t2 & Hrun2 & (Hd2 & Ho2 & He2 & Hn2) & Hi2 & Hlog2 & Hm2 & Hdat2).
  assert (E2 : s2 = t2) by (unfold s2, after; rewrite Hrun2; reflexivity).
  rewrite <- E2 in *. clear E2 t2. rewrite <- E1 in *. clear E1 t1.
  split; [exists tt; rewrite Hrun1; reflexivity|].
  split; [exists tt; rewrite Hrun2; reflexivity|].
  split.
  { intros i. rewrite Hm2, Hm1.
    rewrite (eval_ext s s1 (ly_schur_comp l) He1)
      by (intros c []).
    unfold upd_nat. destruct (mat_id (ly_S l) =? i)%nat; reflexivity. }
  split.
  { intros loc. rewrite Hdat2.
    rewrite (eval_ext s s1 (ac_expr (ly_assemble_Srhs l)) He1).
    - rewrite Hdat1. unfold upd.
      destruct (Loc_eq_dec (Dat (fn_id (ly_schur_rhs l))) loc); reflexivity.
    - intros c [<- | []]. cbn [read]. rewrite Hdat1.
      apply upd_other. cbn. intros E. injection E. lia. }
  split; [exact Hd1|]. split; [rewrite Hd2; exact Hd1|].
  split; [exact Hi1|]. split; [rewrite Hi2; exact Hi1|].
  split; [exact Hn1|].
  split; [eapply self_attr_ready; [exact (proj2 H1) | reflexivity]|].
  exact Hlog1.
Qed.

(** * Further properties of the code *)

(** ** Operators [initialize] turns down late, or only in part *)

(** X2.  Over two scalar spaces none of the checks of [initialize]
    fires: [all(...)] is false, so the [ValueError] for two
    vector-valued spaces is not raised, and the unpacking [W, = ...] of
    a generator that yields nothing raises [ValueError].  The state is
    as [initialize] found it. *)
Theorem initialize_scalar_pair (pc : PC) (s : State) (test trial : Argument) :
  arguments (ctx_a (getPythonContext (snd (getOperators pc))))
  = [test; trial] ->
  cell_set_extruded (space_mesh (function_space test)) = false ->
  len (function_space test) = 2%nat ->
  (forall Vi, In Vi (iter_space (function_space test)) ->
              vector_valued Vi = false) ->
  initialize pc s
  = (Raise (ValueError "need more than 0 values to unpack"), s).
Proof.
  intros Hargs Hext Hlen Hsc. unfold initialize.
  destruct (getOperators pc) as [A0 P]. cbn [snd] in Hargs.
  rewrite Hargs. step. rewrite Hext, Hlen. cbn [Nat.eqb negb].
  unfold len in Hlen.
  destruct (iter_space (function_space test)) as [|V0 [|V1 [|]]];
    try discriminate Hlen.
  cbn [forallb filter].
  rewrite (Hsc V0), (Hsc V1) by (cbn; auto).
  reflexivity.
Qed.

Lemma layout_for_vector pc s test trial m V0 V1 W :
  filter vector_valued [V0; V1] = [W] ->
  one_vector_space (layout_for pc s test trial m V0 V1) /\
  ly_W (layout_for pc s test trial m V0 V1) = W.
Proof.
  unfold one_vector_space, ly_W, layout_for. cbn [filter].
  cbn [ly_vector_index ly_V0 ly_V1].
  destruct (vector_valued V0) eqn:E0, (vector_valued V1) eqn:E1;
    intros H; try discriminate H; injection H as <-; cbn [nth]; auto.
Qed.

Ltac have_block H :=
  unfold dict_getitem at 1;
  match type of H with
  | dict_get _ _ ?k = ?v =>
      match goal with
      | |- context [dict_get pair_eqb ?d k] =>
          replace (dict_get pair_eqb d k) with v by (symmetry; exact H)
      end
  end.

Ltac blocks :=
  repeat match goal with
    | H : dict_get pair_eqb _ ?k = Some _
      |- context [bind (dict_getitem _ ?k) _ _] => have_block H; step
    end.

Ltac missing_block :=
  match goal with
  | H : dict_get pair_eqb _ ?k = None
    |- context [bind (dict_getitem _ ?k) _ _] => have_block H
  end.

Ltac assembled_S :=
  match goal with
  | Hbase : ly_base _ = next_id _, Hi : ly_vector_index _ = _ |- _ =>
      unfold ly_S; cbn [mat_id]; rewrite Hbase;
      rewrite upd_nat_same;
      unfold ly_trace_conditions, ly_TraceSpace; f_equal;
      (etransitivity; [apply eval_ext; [reflexivity | intros ? []] |]);
      unfold ly_schur_comp, ly_K, ly_Atilde, ly_gammar, ly_V_d, ly_TraceSpace;
      rewrite Hi; reflexivity
  end.

Ltac run_to_blocks P :=
  repeat step; eval_sigma;
  match goal with
  | E0 : truthy _ = _, E1 : truthy _ = _ |- _ => rewrite E0, E1
  end;
  repeat step; nullspace_call P; repeat step.

Ltac run_to_end P :=
  run_to_blocks P;
  blocks; repeat step; index_of_W; repeat step;
  (eexists; split; [reflexivity|]); norm;
  try match goal with
      | H : mats ?s1 = _ |- context [mats ?s1] => rewrite H; norm
      end;
  assembled_S.

Ltac enter_initialize :=
  match goal with
  | Ha : ly_a _ = _, Hargs : arguments _ = _,
    HV : function_space _ = _, Hmesh : cell_set_extruded _ = false |- _ =>
      rewrite <- Ha, Hargs; step; rewrite HV; unfold ly_V;
      cbn [space_mesh iter_space len length]; rewrite Hmesh;
      cbn [Nat.eqb negb forallb]
  end.

Ltac pick_W V :=
  match goal with
  | Hi : ly_vector_index ?l = _, E0 : vector_valued _ = _,
    E1 : vector_valued _ = _, Hdeg : trace_degree_ok ?l |- _ =>
      rewrite E0, E1; cbn [andb filter]; rewrite E0, E1; step;
      let HW := fresh "HW" in
      assert (HW : ly_W l = V) by (unfold ly_W; rewrite Hi; reflexivity);
      erewrite bind_run
        by (rewrite <- HW; apply trace_degree_layout; exact Hdeg);
      cbv beta; unfold vector_valued in E0, E1
  end.

(** [initialize] on an operator that passes every check. *)
Lemma initialize_run (pc : PC) (s : State) (l : Layout) :
  layout_of pc s l ->
  exists s',
    initialize pc s = (Ok tt, s') /\
    mats s' (mat_id (ly_S l))
    = apply_bcs (ly_trace_conditions l) (eval s (ly_schur_comp l)).
Proof.
  intros [Ha Hfc Hargs HV Hmesh Hvec Hdeg Hbase HA HB HC HD Htol Hpre Hcomm].
  unfold initialize.
  destruct (getOperators pc) as [A0 P] eqn:EP. cbn [snd] in Ha, Hfc.
  enter_initialize.
  destruct Hvec as [(Hi & E0 & E1) | (Hi & E0 & E1)].
  - pick_W (ly_V0 l). run_to_end P.
  - pick_W (ly_V1 l). run_to_end P.
Qed.

Lemma first_missing_cases (F : Form) (key : nat * nat) :
  find (fun k => negb (has_block F k)) block_keys = Some key ->
  (key = (0, 0)%nat /\ dict_get pair_eqb (split_form F) (0, 0)%nat = None) \/
  (key = (0, 1)%nat /\
   (exists a, dict_get pair_eqb (split_form F) (0, 0)%nat = Some a) /\
   dict_get pair_eqb (split_form F) (0, 1)%nat = None) \/
  (key = (1, 0)%nat /\
   (exists a, dict_get pair_eqb (split_form F) (0, 0)%nat = Some a) /\
   (exists b, dict_get pair_eqb (split_form F) (0, 1)%nat = Some b) /\
   dict_get pair_eqb (split_form F) (1, 0)%nat = None) \/
  (key = (1, 1)%nat /\
   (exists a, dict_get pair_eqb (split_form F) (0, 0)%nat = Some a) /\
   (exists b, dict_get pair_eqb (split_form F) (0, 1)%nat = Some b) /\
   (exists c, dict_get pair_eqb (split_form F) (1, 0)%nat = Some c) /\
   dict_get pair_eqb (split_form F) (1, 1)%nat = None).
Proof.
  unfold block_keys, has_block. cbn [find].
  destruct (dict_get pair_eqb (split_form F) (0, 0)%nat) as [a|]; cbn [negb];
    [|intros H; injection H as <-; left; split; reflexivity].
  destruct (dict_get pair_eqb (split_form F) (0, 1)%nat) as [b|]; cbn [negb];
    [|intros H; injection H as <-; right; left;
      split; [reflexivity|]; split; [eexists|]; reflexivity].
  destruct (dict_get pair_eqb (split_form F) (1, 0)%nat) as [c|]; cbn [negb];
    [|intros H; injection H as <-; right; right; left;
      split; [reflexivity|]; split; [eexists; reflexivity|];
      split; [eexists|]; reflexivity].
  destruct (dict_get pair_eqb (split_form F) (1, 1)%nat) as [d|]; cbn [negb];
    [discriminate|].
  intros H; injection H as <-; right; right; right.
  split; [reflexivity|]. split; [eexists; reflexivity|].
  split; [eexists; reflexivity|]. split; [eexists|]; reflexivity.
Qed.

Ltac partial_state :=
  match goal with
  | EP : getOperators _ = _, Eh : (handle _ =? 0)%nat = _,
    Hbase : ly_base _ = next_id _, Hi : ly_vector_index _ = _,
    Hfc : ly_fc _ = _, Hpre : ly_prefix _ = _, Hcomm : ly_comm _ = _ |- _ =>
      rewrite ?EP; norm;
      unfold ly_nullspace_events, ly_schur_nullspace; cbn [snd];
      rewrite Eh; use_frame; norm;
      unfold attrs_upto_ksp, layout_attrs; cbn [firstn];
      rewrite <- ?app_assoc; cbn [app];
      cbv beta delta
        [ly_broken_solution ly_broken_rhs ly_trace_solution
         ly_unbroken_solution ly_unbroken_rhs ly_schur_rhs
         ly_assemble_Srhs ly_assemble_S ly_S ly_ksp ly_schur_comp
         ly_trace_conditions ly_K ly_Atilde ly_gammar ly_V_d ly_V
         ly_TraceSpace ly_tmp ly_tmp_b ly_tnsp_tmp ly_forward];
      rewrite Hbase, Hi, Hfc, Hpre, Hcomm
  end.

Ltac run_missing P :=
  run_to_blocks P; blocks; missing_block;
  (eexists; split; [reflexivity|]); partial_state; split; reflexivity.

Lemma initialize_to_blocks (pc : PC) (s : State) (l : Layout)
  (key : nat * nat) :
  ly_a l = ctx_a (getPythonContext (snd (getOperators pc))) ->
  ly_fc l = ctx_fc_params (getPythonContext (snd (getOperators pc))) ->
  arguments (ly_a l) = [ly_test l; ly_trial l] ->
  function_space (ly_test l) = ly_V l ->
  cell_set_extruded (ly_mesh l) = false ->
  one_vector_space l -> trace_degree_ok l ->
  ly_base l = next_id s ->
  ly_prefix l = getOptionsPrefix pc -> ly_comm l = pc_comm pc ->
  find (fun k => negb (has_block
                         (broken_form (ly_a l) (ly_test l) (ly_trial l)
                                      (ly_V_d l)) k))
       block_keys = Some key ->
  exists s',
    initialize pc s = (Raise (KeyError key), s') /\
    self_dict s' = self_dict s ++ attrs_upto_ksp l /\
    log s' = log s ++ [EvAssemble (ly_assemble_S l);
                       EvForceEvaluation (ly_S l)]
                   ++ ly_nullspace_events l
                        (getNullSpace (snd (getOperators pc))).
Proof.
  intros Ha Hfc Hargs HV Hmesh Hvec Hdeg Hbase Hpre Hcomm Hfind.
  apply first_missing_cases in Hfind. unfold broken_form in Hfind.
  unfold initialize.
  destruct (getOperators pc) as [A0 P] eqn:EP. cbn [snd] in Ha, Hfc.
  enter_initialize.
  destruct Hvec as [(Hi & E0 & E1) | (Hi & E0 & E1)].
  - pick_W (ly_V0 l).
    destruct Hfind as [(-> & HA) | [(-> & [a HA] & HB)
      | [(-> & [a HA] & [b HB] & HC) | (-> & [a HA] & [b HB] & [c HC] & HD)]]];
      run_missing P.
  - pick_W (ly_V1 l).
    destruct Hfind as [(-> & HA) | [(-> & [a HA] & HB)
      | [(-> & [a HA] & [b HB] & HC) | (-> & [a HA] & [b HB] & [c HC] & HD)]]];
      run_missing P.
Qed.

Lemma layout_for_pre pc s test trial m V0 V1 W :
  hybridizable pc test trial m V0 V1 W ->
  let l := layout_for pc s test trial m V0 V1 in
  arguments (ly_a l) = [ly_test l; ly_trial l] /\
  function_space (ly_test l) = ly_V l /\
  cell_set_extruded (ly_mesh l) = false /\
  one_vector_space l /\ trace_degree_ok l /\ ly_W l = W.
Proof.
  intros [Hargs HV Hmesh Hvec Hfam] l.
  destruct (layout_for_vector pc s test trial m V0 V1 Hvec) as [H1 HW].
  fold l in H1, HW.
  split; [exact Hargs|]. split; [exact HV|]. split; [exact Hmesh|].
  split; [exact H1|]. split; [|exact HW].
  unfold trace_degree_ok. rewrite HW.
  assert (Ht : ly_tdegree l
               = if family (ufl_element W) =? "Raviart-Thomas"
                 then (degree (ufl_element W) - 1)%Z
                 else degree (ufl_element W)).
  { rewrite <- HW. unfold l, layout_for, ly_W.
    cbn [ly_tdegree ly_vector_index ly_V0 ly_V1].
    destruct (vector_valued V0); reflexivity. }
  rewrite Ht.
  destruct (family (ufl_element W) =? "Raviart-Thomas") eqn:E.
  - left. apply String.eqb_eq in E. auto.
  - destruct Hfam as [Hf | Hf]; [rewrite Hf in E; discriminate E|].
    right. auto.
Qed.

Lemma layout_of_hybridizable pc s l :
  layout_of pc s l ->
  hybridizable pc (ly_test l) (ly_trial l) (ly_mesh l) (ly_V0 l) (ly_V1 l)
               (ly_W l) /\
  forallb (has_block (Atilde_form_of pc (ly_test l) (ly_trial l) (ly_mesh l)
                                     (ly_V0 l) (ly_V1 l))) block_keys = true.
Proof.
  intros Hl. split.
  - constructor.
    + rewrite <- (lo_a Hl). apply (lo_args Hl).
    + apply (lo_V Hl).
    + apply (lo_mesh Hl).
    + unfold ly_W. cbn [filter].
      destruct (lo_vec Hl) as [(-> & -> & ->) | (-> & -> & ->)]; reflexivity.
    + destruct (lo_degree Hl) as [[H _] | [H _]]; auto.
  - unfold Atilde_form_of, broken_form, broken_space, has_block.
    rewrite <- (lo_a Hl). cbn [forallb block_keys].
    change (MixedFunctionSpace (ly_mesh l)
              (MixedElement [BrokenElement (ufl_element (ly_V0 l));
                             BrokenElement (ufl_element (ly_V1 l))]))
      with (ly_V_d l).
    rewrite (lo_A Hl), (lo_B Hl), (lo_C Hl), (lo_D Hl). reflexivity.
Qed.

(** X1.  [initialize] completes only on the operators its checks
    accept: a form with two arguments over a mixed space of two
    components, on a mesh that is not extruded, with exactly one
    vector-valued component, of family Raviart-Thomas or
    Brezzi-Douglas-Marini, and such that [split_form] returns the four
    blocks of the broken form.  On every other operator it raises, in
    whatever state it starts. *)
Theorem initialize_only_accepted (pc : PC) (s : State) :
  (succeeds (initialize pc) s -> accepted pc) /\
  (~ accepted pc -> exists e s', initialize pc s = (Raise e, s')).
Proof.
  assert (Hok : succeeds (initialize pc) s -> accepted pc).
  { intros H. destruct (initialize_ready pc H) as (l & Hl & _).
    destruct (layout_of_hybridizable Hl) as [Hh Hb].
    exists (ly_test l), (ly_trial l), (ly_mesh l), (ly_V0 l), (ly_V1 l),
      (ly_W l). split; assumption. }
  split; [exact Hok|].
  intros Hn. destruct (initialize pc s) as [[a | e] s'] eqn:E.
  - exfalso. apply Hn. apply Hok. exists a. rewrite E. reflexivity.
  - exists e, s'. reflexivity.
Qed.

Lemma getattr_in (s : State) (d d2 : Dict string Attr) name v :
  self_dict s = d ++ d2 ->
  dict_get String.eqb d2 name = Some v ->
  getattr name s = (Ok v, s).
Proof.
  intros Hd Hv. unfold getattr. rewrite Hd, dict_get_app, Hv. reflexivity.
Qed.

Lemma getattr_not_in (s : State) (d d2 : Dict string Attr) name :
  self_dict s = d ++ d2 ->
  dict_get String.eqb d2 name = None ->
  dict_get String.eqb d name = None ->
  getattr name s = (Raise (AttributeError name), s).
Proof.
  intros Hd Hv Hn. unfold getattr. rewrite Hd, dict_get_app, Hv, Hn.
  reflexivity.
Qed.

Lemma bind_raise {A B} (m : M State A) (k : A -> M State B) s e s1 :
  m s = (Raise e, s1) -> bind m k s = (Raise e, s1).
Proof. intros H. unfold bind. rewrite H. reflexivity. Qed.

Ltac part_step :=
  erewrite bind_run
    by (unfold self_function, self_callable, self_matrix, self_ksp,
          self_projector;
        erewrite bind_run
          by (eapply getattr_in; [norm; eassumption | reflexivity]);
        reflexivity);
  cbv beta; norm.

(** An object on which [initialize] stopped at the lookup of a block. *)
Lemma update_upto_ksp (l : Layout) (pc : PC) (s : State) d :
  self_dict s = d ++ attrs_upto_ksp l ->
  exists s', update pc s = (Ok tt, s') /\
    self_dict s' = self_dict s /\
    log s' = log s ++ update_events l.
Proof.
  intros Hd. unfold update. repeat first [part_step | step].
  eexists. split; [reflexivity|].
  unfold call, modify. callables. norm. rewrite <- !app_assoc.
  split; reflexivity.
Qed.

Lemma apply_upto_ksp (l : Layout) (pc : PC) (x y : Loc) (s : State) d :
  one_vector_space l ->
  self_dict s = d ++ attrs_upto_ksp l ->
  dict_get String.eqb d "data_projector" = None ->
  apply pc x y s
  = (Raise (AttributeError "data_projector"),
     emit (EvVecCopy x (Dat (fn_id (ly_unbroken_rhs l))))
       (set_data (upd (data s) (Dat (fn_id (ly_unbroken_rhs l))) (data s x))
                 s)).
Proof.
  intros Hvec Hd Hn.
  destruct (scalar_fields_ly Hvec) as (F1 & F2 & F3 & F4).
  unfold apply.
  repeat (first [part_step | scalar_fields_step | step]; reads; norm).
  apply bind_raise. unfold self_projector. apply bind_raise.
  unfold vec_copy, modify. cbn [snd]. 
  eapply getattr_not_in; [norm; eassumption | reflexivity | exact Hn].
Qed.

Lemma initialize_missing_block_run pc s test trial m V0 V1 W key :
  hybridizable pc test trial m V0 V1 W ->
  find (fun k => negb (has_block (Atilde_form_of pc test trial m V0 V1) k))
       block_keys = Some key ->
  let l := layout_for pc s test trial m V0 V1 in
  exists s',
    initialize pc s = (Raise (KeyError key), s') /\
    self_dict s' = self_dict s ++ attrs_upto_ksp l /\
    log s' = log s ++ [EvAssemble (ly_assemble_S l);
                       EvForceEvaluation (ly_S l)]
                   ++ ly_nullspace_events l
                        (getNullSpace (snd (getOperators pc))).
Proof.
  intros H Hfind l.
  pose proof (layout_for_pre s H) as Hp. cbv zeta in Hp.
  destruct Hp as (Hargs & HV & Hmesh & Hvec & Hdeg & _).
  apply initialize_to_blocks; try assumption; try reflexivity.
Qed.

(** X3.  When the operator passes every check but [split_form] does
    not return one of the four blocks, [initialize] raises [KeyError]
    for the first block that is missing, in the order (0,0), (0,1),
    (1,0), (1,1).  By then it has set the ten attributes up to [ksp],
    assembled [S] and transferred the nullspace; the two reconstruction
    callables and the two projectors are as they were before the
    call. *)
Theorem initialize_missing_block pc s test trial m V0 V1 W key :
  hybridizable pc test trial m V0 V1 W ->
  find (fun k => negb (has_block (Atilde_form_of pc test trial m V0 V1) k))
       block_keys = Some key ->
  let l := layout_for pc s test trial m V0 V1 in
  let s' := after (initialize pc) s in
  fst (initialize pc s) = Raise (KeyError key) /\
  self_dict s' = self_dict s ++ attrs_upto_ksp l /\
  log s' = log s ++ [EvAssemble (ly_assemble_S l);
                     EvForceEvaluation (ly_S l)]
                 ++ ly_nullspace_events l
                      (getNullSpace (snd (getOperators pc))) /\
  forall name,
    In name ["_assemble_pressure"; "_assemble_velocity"; "data_projector";
             "projector"] ->
    self_attr s' name = self_attr s name.
Proof.
  intros H Hfind l s'.
  destruct (initialize_missing_block_run s H Hfind) as (t & Hrun & Hd & Hlog).
  assert (E : s' = t) by (unfold s', after; rewrite Hrun; reflexivity).
  rewrite E. rewrite Hrun. fold l in Hd, Hlog.
  split; [reflexivity|]. split; [exact Hd|]. split; [exact Hlog|].
  intros name Hin. unfold self_attr. rewrite Hd, dict_get_app.
  cbn [In] in Hin.
  destruct Hin as [<- | [<- | [<- | [<- | []]]]]; reflexivity.
Qed.

(** X4.  On the object such an [initialize] leaves, when it had no
    [data_projector] before: [update] runs to completion and makes its
    three calls, while [apply] raises [AttributeError] at
    [self.data_projector], after it has copied [x] into [unbroken_rhs]
    and made no other call. *)
Theorem use_after_missing_block pc s test trial m V0 V1 W key (x y : Loc) :
  hybridizable pc test trial m V0 V1 W ->
  find (fun k => negb (has_block (Atilde_form_of pc test trial m V0 V1) k))
       block_keys = Some key ->
  self_attr s "data_projector" = None ->
  let l := layout_for pc s test trial m V0 V1 in
  let s1 := after (initialize pc) s in
  succeeds (update pc) s1 /\
  log (after (update pc) s1) = log s1 ++ update_events l /\
  apply pc x y s1
  = (Raise (AttributeError "data_projector"),
     emit (EvVecCopy x (Dat (fn_id (ly_unbroken_rhs l))))
       (set_data (upd (data s1) (Dat (fn_id (ly_unbroken_rhs l)))
                      (data s1 x)) s1)).
Proof.
  intros H Hfind Hn l s1.
  destruct (initialize_missing_block_run s H Hfind) as (t & Hrun & Hd & _).
  assert (E : s1 = t) by (unfold s1, after; rewrite Hrun; reflexivity).
  rewrite E. fold l in Hd.
  destruct (update_upto_ksp l pc t (self_dict s) Hd) as (u & Hu & _ & Hlog).
  split; [exists tt; rewrite Hu; reflexivity|].
  split; [unfold after; rewrite Hu; exact Hlog|].
  pose proof (layout_for_pre s H) as Hp. cbv zeta in Hp.
  destruct Hp as (_ & _ & _ & Hvec & _).
  exact (apply_upto_ksp pc x y t (self_dict s) Hvec Hd Hn).
Qed.


Lemma kept_refl s : kept s s.
Proof.
  unfold kept. repeat split; auto.
  - exists []. rewrite app_nil_r. reflexivity.
  - exists []. rewrite app_nil_r. reflexivity.
Qed.

Lemma keeps_bind s0 {A B} (m : M State A) (k : A -> M State B) Q R :
  keeps s0 m Q -> (forall a, Q a -> keeps s0 (k a) R) ->
  keeps s0 (bind m k) R.
Proof.
  intros Hm Hk s Hs. destruct (Hm s Hs) as [H1 H2].
  unfold bind. destruct (m s) as [[a|e] s1]; cbn [fst snd] in *.
  - apply Hk; auto.
  - split; [exact H1 | discriminate].
Qed.

Lemma keeps_ret s0 {A} (a : A) (Q : A -> Prop) : Q a -> keeps s0 (ret a) Q.
Proof. intros H s Hs. split; [exact Hs|]. cbn. intros b E. congruence. Qed.

Lemma keeps_raise s0 {A} e (Q : A -> Prop) : keeps s0 (raise e) Q.
Proof. intros s Hs. split; [exact Hs | discriminate]. Qed.

Lemma keeps_pure s0 {A} (m : M State A) :
  (forall s, snd (m s) = s) -> keeps s0 m (fun _ => True).
Proof. intros H s Hs. rewrite H. auto. Qed.

Lemma keeps_unpack1 s0 {A} (xs : list A) : keeps s0 (unpack1 xs) (fun _ => True).
Proof. apply keeps_pure. intros s. destruct xs as [|? [|]]; reflexivity. Qed.

Lemma keeps_unpack2 s0 {A} (xs : list A) : keeps s0 (unpack2 xs) (fun _ => True).
Proof.
  apply keeps_pure. intros s. destruct xs as [|? [|? [|]]]; reflexivity.
Qed.

Lemma keeps_getitem s0 {A} (xs : list A) i : keeps s0 (getitem xs i) (fun _ => True).
Proof.
  apply keeps_pure. intros s. unfold getitem.
  destruct (nth_error xs i); reflexivity.
Qed.

Lemma keeps_dict_getitem s0 d key : keeps s0 (dict_getitem d key) (fun _ => True).
Proof.
  apply keeps_pure. intros s. unfold dict_getitem.
  destruct (dict_get pair_eqb d key); reflexivity.
Qed.

Lemma keeps_trace_degree s0 W : keeps s0 (trace_degree W) (fun _ => True).
Proof.
  apply keeps_pure. intros s. unfold trace_degree.
  destruct (_ =? _); [reflexivity|]. destruct (_ =? _); reflexivity.
Qed.

Lemma keeps_getReal s0 key q : keeps s0 (getReal key q) (fun _ => True).
Proof. apply keeps_pure. reflexivity. Qed.

Ltac kept_intro :=
  let s := fresh "s" in
  let Hn := fresh "Hn" in let Hd := fresh "Hd" in let Hm := fresh "Hm" in
  let Ho := fresh "Ho" in let He := fresh "He" in
  let Ha := fresh "Ha" in let Hl := fresh "Hl" in
  intros s (Hn & Hd & Hm & Ho & He & Ha & Hl).

Lemma keeps_setattr s0 name v : keeps s0 (setattr name v) (fun _ => True).
Proof.
  kept_intro. split; [|auto]. cbn.
  destruct Ha as [d Ha]. unfold kept. cbn.
  repeat split; auto; try apply Hm; auto.
  exists (d ++ [(name, v)]). rewrite Ha, app_assoc. reflexivity.
Qed.

Lemma existing_not s0 (loc : Loc) i :
  existing s0 loc -> (next_id s0 <= i)%nat -> Dat i <> loc /\ NewVec i <> loc.
Proof.
  destruct loc; cbn; intros H Hi; split; intros E; try discriminate E;
    injection E as ->; lia.
Qed.

Lemma keeps_new_Function s0 V :
  keeps s0 (new_Function V) (fun f => (next_id s0 <= fn_id f)%nat).
Proof.
  kept_intro. cbn. split; [|intros a E; injection E as <-; exact Hn].
  unfold kept. cbn.
  split; [lia|]. split.
  { intros loc Hloc. rewrite upd_other; [auto|].
    apply (existing_not _ _ Hloc Hn). }
  repeat split; auto; apply Hm; auto.
Qed.

Lemma keeps_allocate_matrix s0 e bcs fc :
  keeps s0 (allocate_matrix e bcs fc) (fun m => (next_id s0 <= mat_id m)%nat).
Proof.
  kept_intro. cbn. split; [|intros a E; injection E as <-; exact Hn].
  unfold kept. cbn.
  split; [lia|]. split; [exact Hd|].
  split; [|auto].
  intros i Hi. unfold upd_nat.
  destruct (Nat.eqb_spec (next_id s) i); [lia|]. apply Hm; exact Hi.
Qed.

Lemma kept_emit s0 s ev : kept s0 s -> kept s0 (emit ev s).
Proof.
  intros (Hn & Hd & Hm & Ho & He & Ha & [evs Hl]). unfold kept. cbn.
  repeat split; auto; try apply Hm; auto.
  exists (evs ++ [ev]). rewrite Hl, app_assoc. reflexivity.
Qed.

Lemma kept_set_data s0 s d :
  kept s0 s -> (forall loc, existing s0 loc -> d loc = data s loc) ->
  kept s0 (set_data d s).
Proof.
  intros (Hn & Hd & Hm & Ho & He & Ha & Hl) H. unfold kept. cbn.
  repeat split; auto; try apply Hm; auto.
  intros loc Hloc. rewrite H by exact Hloc. auto.
Qed.

Lemma kept_set_mats s0 s i v :
  kept s0 s -> (next_id s0 <= i)%nat ->
  kept s0 (set_mats (upd_nat (mats s) i v) s).
Proof.
  intros (Hn & Hd & Hm & Ho & He & Ha & Hl) H. unfold kept. cbn.
  repeat split; auto; try apply Hm; auto.
  unfold upd_nat. destruct (Nat.eqb_spec i i0); [lia|]. apply Hm; auto.
Qed.

Lemma store_new s0 s (t : Coefficient) v loc :
  new_target s0 (IntoFunction t) -> existing s0 loc ->
  store t v (data s) loc = data s loc.
Proof.
  intros Ht Hloc. destruct t as [f | f i]; cbn in Ht |- *;
    apply upd_other; apply (existing_not _ _ Hloc Ht).
Qed.

Lemma keeps_call s0 c :
  new_target s0 (ac_tensor c) -> keeps s0 (call c) (fun _ => True).
Proof.
  intros Ht s Hs. split; [|auto]. unfold call, modify. cbn [snd].
  apply kept_emit.
  destruct (ac_tensor c) as [t | m].
  - apply kept_set_data; [exact Hs|]. intros loc Hloc.
    apply store_new with (s0 := s0); assumption.
  - apply kept_set_mats; assumption.
Qed.

Lemma keeps_force_evaluation s0 m :
  keeps s0 (force_evaluation m) (fun _ => True).
Proof. intros s Hs. split; [|auto]. apply kept_emit. exact Hs. Qed.

Lemma keeps_project s0 (v V : Function) :
  (next_id s0 <= fn_id V)%nat -> keeps s0 (project v V) (fun _ => True).
Proof.
  intros Ht s Hs. split; [|auto]. unfold project, project_, modify. cbn [snd].
  apply kept_emit. apply kept_set_data; [exact Hs|]. intros loc Hloc.
  apply store_new with (s0 := s0); assumption.
Qed.

Lemma keeps_vec_copy s0 src i :
  (next_id s0 <= i)%nat -> keeps s0 (vec_copy src (Dat i)) (fun _ => True).
Proof.
  intros Ht s Hs. split; [|auto]. unfold vec_copy, modify. cbn [snd].
  apply kept_emit. apply kept_set_data; [exact Hs|]. intros loc Hloc.
  apply upd_other. apply (existing_not _ _ Hloc Ht).
Qed.

Lemma keeps_vec_duplicate s0 src :
  keeps s0 (vec_duplicate src) (fun _ => True).
Proof.
  intros s Hs. split; [|auto]. unfold vec_duplicate. cbn [snd].
  apply kept_emit.
  assert (Hn : (next_id s0 <= next_id s)%nat) by apply Hs.
  destruct Hs as (_ & Hd & Hm & Ho & He & Ha & Hl). unfold kept. cbn.
  split; [lia|]. split.
  { intros loc Hloc. rewrite upd_other; [auto|].
    apply (existing_not _ _ Hloc Hn). }
  repeat split; auto; apply Hm; auto.
Qed.

Lemma keeps_NullSpace_create s0 vs comm :
  keeps s0 (NullSpace_create vs comm) (fun _ => True).
Proof.
  kept_intro. split; [|auto]. unfold kept. cbn.
  split; [lia|]. repeat split; auto; apply Hm; auto.
Qed.

Lemma keeps_setNullSpace s0 m n :
  (next_id s0 <= mat_id m)%nat -> keeps s0 (setNullSpace m n) (fun _ => True).
Proof.
  intros Ht. kept_intro. split; [|auto]. unfold kept. cbn.
  repeat split; auto; try apply Hm; auto.
  unfold upd_nat. destruct (Nat.eqb_spec (mat_id m) i); [lia|].
  apply Hm; auto.
Qed.

Lemma keeps_for_each s0 {A B} (xs : list A) (body : A -> M State B) :
  (forall x, keeps s0 (body x) (fun _ => True)) ->
  keeps s0 (for_each xs body) (fun _ => True).
Proof.
  intros Hb. induction xs as [|x xs IH]; cbn [for_each].
  - apply keeps_ret. exact I.
  - eapply keeps_bind; [apply Hb|]. intros b _.
    eapply keeps_bind; [apply IH|]. intros bs _. apply keeps_ret. exact I.
Qed.

Lemma keeps_weaken s0 {A} (m : M State A) (Q R : A -> Prop) :
  keeps s0 m Q -> (forall a, Q a -> R a) -> keeps s0 m R.
Proof.
  intros H HQ s Hs. destruct (H s Hs) as [H1 H2]. split; auto.
Qed.

Lemma keeps_create_schur_nullspace s0 P fwd V V_d T comm :
  keeps s0 (create_schur_nullspace P fwd V V_d T comm) (fun _ => True).
Proof.
  unfold create_schur_nullspace.
  destruct (handle (getNullSpace P) =? 0)%nat; [apply keeps_ret; exact I|].
  eapply keeps_bind; [apply keeps_new_Function|]. intros tmp Htmp.
  eapply keeps_bind; [apply keeps_new_Function|]. intros tmp_b Htmp_b.
  eapply keeps_bind; [apply keeps_new_Function|]. intros tnsp Htnsp.
  eapply keeps_bind.
  { apply keeps_for_each. intros v. unfold transfer_vector.
    eapply keeps_bind; [apply keeps_vec_copy; exact Htmp|]. intros _ _.
    eapply keeps_bind; [apply keeps_project; exact Htmp_b|]. intros _ _.
    eapply keeps_bind; [apply keeps_call; exact Htnsp|]. intros _ _.
    apply keeps_vec_duplicate. }
  intros vs _.
  eapply keeps_bind; [apply keeps_NullSpace_create|]. intros ns _.
  apply keeps_ret. exact I.
Qed.

Ltac kprim :=
  first [ apply keeps_unpack1 | apply keeps_unpack2 | apply keeps_getitem
        | apply keeps_dict_getitem | apply keeps_trace_degree
        | apply keeps_getReal | apply keeps_setattr
        | apply keeps_new_Function | apply keeps_allocate_matrix
        | apply keeps_force_evaluation
        | apply keeps_create_schur_nullspace
        | apply keeps_call; cbn; assumption
        | apply keeps_setNullSpace; assumption
        | apply keeps_raise
        | apply keeps_ret; exact I ].

Ltac kstep :=
  cbv beta zeta;
  lazymatch goal with
  | |- keeps _ (bind (match ?x with _ => _ end) _) _ =>
      eapply keeps_bind with (Q := fun _ => True);
      [ destruct x; try (destruct (negb _)); kprim | intros ]
  | |- keeps _ (bind _ _) _ => eapply keeps_bind; [ kprim | intros ]
  | |- keeps _ (if ?c then _ else _) _ => destruct c
  | |- keeps _ (match ?x with _ => _ end) _ => destruct x
  | |- keeps _ _ _ => kprim
  end.

Lemma keeps_initialize s0 pc : keeps s0 (initialize pc) (fun _ => True).
Proof.
  unfold initialize.
  repeat kstep.
Qed.

(** X5.  Whatever the operator and whatever the outcome, [initialize]
    and [create_schur_nullspace] write only storage they allocate: the
    vectors of the caller, every dat, vector and matrix that existed and
    the nullspaces attached to those matrices are as they were, as are
    the options and the operator coefficients; attributes and log
    entries are only added, and the allocation counter does not
    decrease. *)
Theorem initialize_keeps_storage :
  (forall pc s, kept s (after (initialize pc) s)) /\
  (forall P fwd V V_d T comm s,
     kept s (after (create_schur_nullspace P fwd V V_d T comm) s)).
Proof.
  split.
  - intros pc s.
    assert (H : keeps s (initialize pc) (fun _ => True))
      by apply keeps_initialize.
    apply (H s (kept_refl s)).
  - intros P fwd V V_d T comm s.
    assert (H : keeps s (create_schur_nullspace P fwd V V_d T comm)
                      (fun _ => True))
      by apply keeps_create_schur_nullspace.
    apply (H s (kept_refl s)).
Qed.

Lemma call_perform c s : call c s = (Ok tt, perform (EvAssemble c) s).
Proof. reflexivity. Qed.

Lemma force_evaluation_perform m s :
  force_evaluation m s = (Ok tt, perform (EvForceEvaluation m) s).
Proof. reflexivity. Qed.

Lemma project_perform p s : project_ p s = (Ok tt, perform (EvProject p) s).
Proof. reflexivity. Qed.

Lemma vec_copy_perform a b s :
  vec_copy a b s = (Ok tt, perform (EvVecCopy a b) s).
Proof. reflexivity. Qed.

Lemma dat_copy_perform a b s :
  dat_copy a b s = (Ok tt, perform (EvDatCopy a b) s).
Proof. reflexivity. Qed.

Lemma ksp_solve_perform k m b x s :
  ksp_operators k = Some m ->
  ksp_solve k b x s = (Ok tt, perform (EvSolve k b x) s).
Proof.
  intros H. unfold ksp_solve, perform, effect. rewrite H. reflexivity.
Qed.

Lemma self_dict_perform ev s : self_dict (perform ev s) = self_dict s.
Proof.
  unfold perform, effect. destruct ev; cbn; try reflexivity.
  - destruct (ac_tensor c); reflexivity.
  - destruct (ksp_operators k); reflexivity.
Qed.

Lemma has_attrs_perform l ev s : has_attrs l s -> has_attrs l (perform ev s).
Proof. intros [d H]. exists d. rewrite self_dict_perform. exact H. Qed.

Lemma ready_perform l ev s : ready l s -> ready l (perform ev s).
Proof. intros [H1 H2]. split; [exact H1 | apply has_attrs_perform; exact H2]. Qed.

Lemma ready_replay l evs s : ready l s -> ready l (replay evs s).
Proof.
  revert s. induction evs as [|ev evs IH]; intros s H; cbn; [exact H|].
  apply IH. apply ready_perform. exact H.
Qed.

Ltac pattr :=
  lazymatch goal with
  | |- bind (self_function _) _ _ = _ =>
      erewrite bind_run
        by (eapply self_function_ready;
            [repeat apply has_attrs_perform; eassumption | reflexivity])
  | |- bind (self_callable _) _ _ = _ =>
      erewrite bind_run
        by (eapply self_callable_ready;
            [repeat apply has_attrs_perform; eassumption | reflexivity])
  | |- bind (self_matrix _) _ _ = _ =>
      erewrite bind_run
        by (eapply self_matrix_ready;
            [repeat apply has_attrs_perform; eassumption | reflexivity])
  | |- bind (self_ksp _) _ _ = _ =>
      erewrite bind_run
        by (eapply self_ksp_ready;
            [repeat apply has_attrs_perform; eassumption | reflexivity])
  | |- bind (self_projector _) _ _ = _ =>
      erewrite bind_run
        by (eapply self_projector_ready;
            [repeat apply has_attrs_perform; eassumption | reflexivity])
  end; cbv beta.

Ltac pprim :=
  lazymatch goal with
  | |- bind (call _) _ _ = _ => erewrite bind_run by apply call_perform
  | |- bind (force_evaluation _) _ _ = _ =>
      erewrite bind_run by apply force_evaluation_perform
  | |- bind (project_ _) _ _ = _ =>
      erewrite bind_run by apply project_perform
  | |- bind (vec_copy _ _) _ _ = _ =>
      erewrite bind_run by apply vec_copy_perform
  | |- bind (dat_copy _ _) _ _ = _ =>
      erewrite bind_run by apply dat_copy_perform
  | |- bind (ksp_solve _ _ _) _ _ = _ =>
      erewrite bind_run by (eapply ksp_solve_perform; reflexivity)
  end; cbv beta.

Ltac pscalar :=
  lazymatch goal with
  | |- bind (unpack1 (scalar_fields ?f)) _ _ = _ =>
      match goal with
      | H : scalar_fields f = _ |- _ =>
          rewrite H; erewrite bind_run by reflexivity; cbv beta
      end
  end.

(** [apply] and [update] on a preconditioner that has been set up are
    the calls they log, made in order. *)
Lemma apply_replay l (pc : PC) (x y : Loc) s :
  ready l s -> apply pc x y s = (Ok tt, replay (apply_events l x y) s).
Proof.
  intros [Hvec Hattrs].
  destruct (scalar_fields_ly Hvec) as (F1 & F2 & F3 & F4).
  unfold apply.
  repeat first [pattr | pscalar | pprim].
  apply vec_copy_perform.
Qed.

Lemma update_replay l (pc : PC) s :
  ready l s -> update pc s = (Ok tt, replay (update_events l) s).
Proof.
  intros [Hvec Hattrs]. unfold update.
  repeat first [pattr | pprim].
  apply call_perform.
Qed.

Lemma replay_app evs1 evs2 s :
  replay (evs1 ++ evs2) s = replay evs2 (replay evs1 s).
Proof. unfold replay. apply fold_left_app. Qed.

Lemma store_other (t : Coefficient) v d loc :
  coefficient_loc t <> loc -> store t v d loc = d loc.
Proof. destruct t; cbn; intros H; apply upd_other; exact H. Qed.

(** A call leaves alone what it does not write. *)
Lemma perform_other ev s loc :
  ~ In loc (writes ev) -> data (perform ev s) loc = data s loc.
Proof.
  unfold perform, effect. destruct ev; cbn [writes]; intros H; norm;
    try reflexivity.
  - destruct (ac_tensor c); norm; [|reflexivity].
    apply store_other. cbn in H. tauto.
  - apply store_other. cbn in H. tauto.
  - destruct (ksp_operators k); norm; [|reflexivity].
    apply upd_other. cbn in H. tauto.
  - apply upd_other. cbn in H. tauto.
  - apply store_other. cbn in H. tauto.
Qed.

Lemma replay_other evs s loc :
  (forall ev, In ev evs -> ~ In loc (writes ev)) ->
  data (replay evs s) loc = data s loc.
Proof.
  revert s. induction evs as [|ev evs IH]; intros s H; [reflexivity|].
  cbn [replay fold_left]. fold (replay evs (perform ev s)).
  rewrite IH by (intros e He; apply H; right; exact He).
  apply perform_other. apply H. left. reflexivity.
Qed.

(** A call changes neither [self], the allocation counter, the options,
    the operator coefficients nor the attached nullspaces. *)
Lemma perform_static ev s :
  self_dict (perform ev s) = self_dict s /\
  next_id (perform ev s) = next_id s /\
  options (perform ev s) = options s /\
  env (perform ev s) = env s /\
  mat_nullspace (perform ev s) = mat_nullspace s /\
  log (perform ev s) = log s ++ [ev].
Proof.
  unfold perform, effect. destruct ev; cbn; try (repeat split; reflexivity).
  - destruct (ac_tensor c); repeat split; reflexivity.
  - destruct (ksp_operators k); repeat split; reflexivity.
Qed.

Lemma replay_static evs s :
  self_dict (replay evs s) = self_dict s /\
  next_id (replay evs s) = next_id s /\
  options (replay evs s) = options s /\
  env (replay evs s) = env s /\
  mat_nullspace (replay evs s) = mat_nullspace s /\
  log (replay evs s) = log s ++ evs.
Proof.
  revert s. induction evs as [|ev evs IH]; intros s.
  - cbn. rewrite app_nil_r. repeat split; reflexivity.
  - cbn [replay fold_left]. fold (replay evs (perform ev s)).
    destruct (IH (perform ev s)) as (H1 & H2 & H3 & H4 & H5 & H6).
    destruct (perform_static ev s) as (P1 & P2 & P3 & P4 & P5 & P6).
    rewrite H1, H2, H3, H4, H5, H6, P1, P2, P3, P4, P5, P6.
    rewrite <- app_assoc. repeat split; reflexivity.
Qed.

(** Only the assembly of a matrix changes a matrix. *)
Lemma perform_mats ev s :
  (forall c m, ev = EvAssemble c -> ac_tensor c <> IntoMatrix m) ->
  mats (perform ev s) = mats s.
Proof.
  unfold perform, effect. destruct ev; cbn; intros H; try reflexivity.
  - destruct (ac_tensor c) eqn:E; [reflexivity|].
    exfalso. exact (H c m eq_refl E).
  - destruct (ksp_operators k); reflexivity.
Qed.

Lemma replay_mats evs s :
  (forall c m, In (EvAssemble c) evs -> ac_tensor c <> IntoMatrix m) ->
  mats (replay evs s) = mats s.
Proof.
  revert s. induction evs as [|ev evs IH]; intros s H; [reflexivity|].
  cbn [replay fold_left]. fold (replay evs (perform ev s)).
  rewrite IH by (intros c m Hin; apply H; right; exact Hin).
  apply perform_mats. intros c m ->. apply H. left. reflexivity.
Qed.

(** One call on a preconditioner that has been set up. *)
Lemma run_call_step (l : Layout) (pc : PC) (c : Call) (s : State) :
  ready l s ->
  exists s1,
    run_call pc c s = (Ok tt, s1) /\ ready l s1 /\
    same_self_but_mats s s1 /\ next_id s1 = next_id s /\
    log s1 = log s ++ call_events l c /\
    (forall loc, ~ In loc (ly_fields l) -> ~ In loc (outputs [c]) ->
                 data s1 loc = data s loc) /\
    (forall i, i <> mat_id (ly_S l) -> mats s1 i = mats s i) /\
    (c <> CUpdate -> mats s1 = mats s) /\
    (c = CUpdate ->
     mats s1 (mat_id (ly_S l))
     = apply_bcs (ly_trace_conditions l) (eval s (ly_schur_comp l))).
Proof.
  intros H. destruct c as [|x y]; cbn [run_call call_events outputs flat_map].
  - destruct (update_spec pc H) as (s1 & Hrun & Hsame & Hn & Hlog & Hm & Hd).
    exists s1. split; [exact Hrun|].
    split.
    { pose proof (update_ready pc H) as Hr. unfold after in Hr.
      rewrite Hrun in Hr. exact Hr. }
    split; [exact Hsame|]. split; [exact Hn|]. split; [exact Hlog|].
    split.
    { intros loc Hf _. rewrite Hd. apply upd_other.
      intros E. apply Hf. rewrite <- E. cbn. tauto. }
    split.
    { intros i Hi. rewrite Hm. unfold upd_nat.
      destruct (mat_id (ly_S l) =? i)%nat eqn:Ei; [|reflexivity].
      apply Nat.eqb_eq in Ei. congruence. }
    split; [intros Hc; contradiction Hc; reflexivity|].
    intros _. rewrite Hm. apply upd_nat_same.
  - destruct (apply_spec pc x y H)
      as (s1 & Hrun & (Hd & Ho & He & Hm & Hns) & Hn & Hlog & Hframe & _).
    exists s1. split; [exact Hrun|].
    split.
    { pose proof (apply_ready pc x y H) as Hr. unfold after in Hr.
      rewrite Hrun in Hr. exact Hr. }
    split; [repeat split; assumption|].
    split; [exact Hn|]. split; [exact Hlog|].
    split.
    { intros loc Hf Hy. apply Hframe; [exact Hf|].
      intros E. apply Hy. cbn. left. symmetry. exact E. }
    split; [intros i _; rewrite Hm; reflexivity|].
    split; [intros _; exact Hm|].
    intros E. discriminate E.
Qed.

(** X12.  What a run of [update] and [apply] calls on a preconditioner
    that has been set up leaves alone, whatever the calls and their
    order: the preconditioner is still set up; no attribute of [self]
    changes, nothing is allocated, the options, the operator
    coefficients and the attached nullspaces are the same; the log
    grows by the collaborator calls of each method, in the order of the
    calls; every location that is neither one of the six fields nor a
    vector handed to an [apply] as output keeps its contents; of the
    matrices only [S] can change, it does not change when no [update]
    is among the calls, and when one is, [S] ends holding the Schur
    complement for the operator coefficients, under the trace boundary
    conditions. *)
Theorem calls_after_setup (l : Layout) (pc : PC) (cs : list Call) (s : State) :
  ready l s ->
  let s' := after (run_calls pc cs) s in
  ready l s' /\
  self_dict s' = self_dict s /\ next_id s' = next_id s /\
  options s' = options s /\ env s' = env s /\
  mat_nullspace s' = mat_nullspace s /\
  log s' = log s ++ flat_map (call_events l) cs /\
  (forall loc, ~ In loc (ly_fields l) -> ~ In loc (outputs cs) ->
               data s' loc = data s loc) /\
  (forall i, i <> mat_id (ly_S l) -> mats s' i = mats s i) /\
  (~ In CUpdate cs -> mats s' = mats s) /\
  (In CUpdate cs ->
   mats s' (mat_id (ly_S l))
   = apply_bcs (ly_trace_conditions l) (eval s' (ly_schur_comp l))).
Proof.
  revert s. induction cs as [|c cs IH]; intros s H s'.
  - subst s'. cbn. rewrite app_nil_r.
    repeat split; try reflexivity; try exact (proj1 H); try exact (proj2 H).
    intros [].
  - destruct (run_call_step pc c H)
      as (s1 & Hrun & H1 & (Sd & So & Se & Sn) & Sid & Slog & Sdata & Smo
          & Smn & Smu).
    assert (E : s' = after (run_calls pc cs) s1).
    { unfold s', after. cbn [run_calls]. rewrite (bind_run _ _ _ Hrun).
      reflexivity. }
    specialize (IH s1 H1). cbv zeta in IH. rewrite <- E in IH.
    destruct IH as (I1 & I2 & I3 & I4 & I5 & I6 & I7 & I8 & I9 & I10 & I11).
    split; [exact I1|].
    split; [rewrite I2; exact Sd|]. split; [rewrite I3; exact Sid|].
    split; [rewrite I4; exact So|]. split; [rewrite I5; exact Se|].
    split; [rewrite I6; exact Sn|].
    split; [rewrite I7, Slog; cbn [flat_map]; rewrite app_assoc; reflexivity|].
    split.
    { intros loc Hf Ho. cbn [outputs flat_map] in Ho.
      fold (outputs cs) in Ho.
      rewrite I8; [apply Sdata; [exact Hf|] | exact Hf |].
      - cbn [outputs flat_map]. rewrite app_nil_r. intros Hin. apply Ho.
        apply in_or_app. left. exact Hin.
      - intros Hin. apply Ho. apply in_or_app. right. exact Hin. }
    split; [intros i Hi; rewrite I9 by exact Hi; apply Smo; exact Hi|].
    split.
    { intros Hno. rewrite I10 by (intros Hin; apply Hno; right; exact Hin).
      apply Smn. intros Ec. apply Hno. left. exact Ec. }
    intros Hin.
    destruct (in_dec Call_eq_dec CUpdate cs) as [Hcs | Hcs];
      [exact (I11 Hcs)|].
    destruct Hin as [Ec | Hin]; [|contradiction].
    rewrite (I10 Hcs), (Smu Ec). f_equal. symmetry.
    apply eval_ext; [rewrite I5; exact Se | intros c0 []].
Qed.

Lemma read_agree U a b (c : Coefficient) :
  agree_off U a b -> coefficient_loc c <> U -> read a c = read b c.
Proof.
  intros [H _] Hc. destruct c; cbn in Hc |- *; rewrite H by exact Hc;
    reflexivity.
Qed.

Lemma eval_agree U a b (e : Slate) :
  agree_off U a b -> ~ In U (map coefficient_loc (coefficients e)) ->
  eval a e = eval b e.
Proof.
  intros H Hn. apply eval_ext.
  - apply (proj2 (proj2 (proj2 H))).
  - intros c Hc. apply read_agree with (U := U); [exact H|].
    intros E. apply Hn. rewrite <- E. apply in_map. exact Hc.
Qed.

Lemma agree_set_data U a b da db :
  agree_off U a b -> (forall loc, loc <> U -> da loc = db loc) ->
  agree_off U (set_data da a) (set_data db b).
Proof. intros (_ & H2 & H3 & H4) H. repeat split; assumption. Qed.

Lemma agree_emit U a b ev :
  agree_off U a b -> agree_off U (emit ev a) (emit ev b).
Proof. intros (H1 & H2 & H3 & H4). repeat split; assumption. Qed.

Lemma store_agree U a b (t : Coefficient) v :
  agree_off U a b -> coefficient_loc t <> U ->
  forall loc, loc <> U -> store t v (data a) loc = store t v (data b) loc.
Proof.
  intros [H _] Ht loc Hloc. destruct t as [f | f i]; cbn in Ht |- *;
    unfold upd; destruct (Loc_eq_dec (Dat (fn_id f)) loc);
    try reflexivity; try (apply H; exact Hloc).
  rewrite H by exact Ht. reflexivity.
Qed.

(** Two states that agree off [U] still do after a call that neither
    reads nor writes [U]. *)
Lemma perform_agree U ev a b :
  agree_off U a b -> ~ In U (reads ev) -> ~ In U (writes ev) ->
  (forall k b' x m, ev = EvSolve k b' x -> ksp_operators k = Some m ->
                    ~ In U (nullspace_vecs a m)) ->
  agree_off U (perform ev a) (perform ev b).
Proof.
  intros H Hr Hw Hns. unfold perform. apply agree_emit.
  destruct ev; cbn [effect reads writes] in *.
  - rewrite (eval_agree (ac_expr c) H Hr).
    destruct (ac_tensor c) as [t | m].
    + apply agree_set_data; [exact H|].
      apply store_agree; [exact H|]. cbn in Hw. tauto.
    + destruct H as (H1 & H2 & H3 & H4). unfold agree_off. cbn.
      rewrite H2. repeat split; assumption.
  - exact H.
  - cbn in Hr, Hw.
    rewrite (read_agree (proj_source p) H) by tauto.
    rewrite (read_agree (proj_target p) H) by tauto.
    apply agree_set_data; [exact H|]. apply store_agree; [exact H | tauto].
  - destruct (ksp_operators k) as [m|] eqn:Ek; [|exact H].
    specialize (Hns k b0 x m eq_refl Ek).
    pose proof H as (H1 & H2 & H3 & H4). cbn in Hr.
    rewrite <- H2, <- H3.
    rewrite <- (H1 b0) by tauto. rewrite <- (H1 x) by tauto.
    assert (Hv : option_map (fun n => map (data a) (ns_vecs n))
                   (mat_nullspace a (mat_id m))
                 = option_map (fun n => map (data b) (ns_vecs n))
                     (mat_nullspace a (mat_id m))).
    { unfold nullspace_vecs in Hns.
      destruct (mat_nullspace a (mat_id m)) as [n|]; [|reflexivity].
      cbn. f_equal. apply map_ext_in. intros v Hv. apply H1.
      intros ->. exact (Hns Hv). }
    rewrite <- Hv.
    apply agree_set_data; [exact H|].
    intros loc Hloc. unfold upd.
    destruct (Loc_eq_dec x loc); [reflexivity | apply H1; exact Hloc].
  - pose proof H as (H1 & _). cbn in Hr, Hw.
    rewrite (H1 src) by tauto.
    apply agree_set_data; [exact H|].
    intros loc Hloc. unfold upd.
    destruct (Loc_eq_dec dst loc); [reflexivity | apply H1; exact Hloc].
  - cbn in Hr, Hw. rewrite (read_agree src H) by tauto.
    apply agree_set_data; [exact H|]. apply store_agree; [exact H | tauto].
Qed.

Lemma mat_nullspace_perform ev s :
  mat_nullspace (perform ev s) = mat_nullspace s.
Proof. apply perform_static. Qed.

Lemma nullspace_vecs_perform ev s m :
  nullspace_vecs (perform ev s) m = nullspace_vecs s m.
Proof. unfold nullspace_vecs. rewrite mat_nullspace_perform. reflexivity. Qed.

Ltac not_field :=
  let Hin := fresh "Hin" in
  cbn; intros Hin;
  repeat (destruct Hin as [Hin | Hin]; [try discriminate Hin; injection Hin; lia|]);
  exact Hin.

Ltac no_solve :=
  let E := fresh "E" in intros ? ? ? ? E; discriminate E.

Ltac agree_step :=
  match goal with
  | H : agree_off ?U ?a ?b |- agree_off ?U (perform ?ev ?a) (perform ?ev ?b) =>
      apply (perform_agree H); [not_field | not_field | try no_solve]
  end.

(** X9.  The result of [apply] depends on [x] only through its scalar
    component.  From the same state, two right-hand sides with the same
    scalar component give the same [y], the same contents of every
    location other than [unbroken_rhs] (which holds the copy of [x]),
    and the same matrices; provided [unbroken_rhs] is not a vector of
    the nullspace attached to [S]. *)
Theorem apply_reads_scalar_part (l : Layout) (pc : PC) (x1 x2 y : Loc)
  (s : State) :
  ready l s ->
  ~ In (Dat (fn_id (ly_unbroken_rhs l))) (nullspace_vecs s (ly_S l)) ->
  get_comp (ly_scalar_index l) (data s x1)
  = get_comp (ly_scalar_index l) (data s x2) ->
  let s1 := after (apply pc x1 y) s in
  let s2 := after (apply pc x2 y) s in
  data s1 y = data s2 y /\
  (forall loc, loc <> Dat (fn_id (ly_unbroken_rhs l)) ->
               data s1 loc = data s2 loc) /\
  mats s1 = mats s2.
Proof.
  intros H Hns Hx s1 s2. subst s1 s2. unfold after.
  rewrite !(apply_replay pc _ y H). cbn [snd].
  unfold apply_events, replay. cbn [fold_left].
  set (a1 := perform (EvVecCopy x1 _) s).
  set (b1 := perform (EvVecCopy x2 _) s).
  assert (A1 : agree_off (Dat (fn_id (ly_unbroken_rhs l))) a1 b1).
  { unfold a1, b1, perform, effect, agree_off. norm.
    repeat split. intros loc Hloc. rewrite !upd_other by congruence.
    reflexivity. }
  assert (G1 : get_comp (ly_scalar_index l)
                 (data a1 (Dat (fn_id (ly_unbroken_rhs l))))
               = get_comp (ly_scalar_index l)
                   (data b1 (Dat (fn_id (ly_unbroken_rhs l))))).
  { unfold a1, b1, perform, effect. norm. rewrite !upd_same. exact Hx. }
  assert (N1 : nullspace_vecs a1 (ly_S l) = nullspace_vecs s (ly_S l))
    by apply nullspace_vecs_perform.
  clearbody a1 b1.
  set (e2 := EvProject (ly_data_projector l)).
  assert (A2 : agree_off (Dat (fn_id (ly_unbroken_rhs l)))
                 (perform e2 a1) (perform e2 b1)) by agree_step.
  assert (G2 : get_comp (ly_scalar_index l)
                 (data (perform e2 a1) (Dat (fn_id (ly_unbroken_rhs l))))
               = get_comp (ly_scalar_index l)
                   (data (perform e2 b1) (Dat (fn_id (ly_unbroken_rhs l))))).
  { rewrite !perform_other by (unfold e2; not_field). exact G1. }
  assert (N2 : nullspace_vecs (perform e2 a1) (ly_S l)
               = nullspace_vecs s (ly_S l))
    by (rewrite nullspace_vecs_perform; exact N1).
  set (a2 := perform e2 a1) in *. set (b2 := perform e2 b1) in *.
  clearbody a2 b2. clear A1 G1 N1 a1 b1.
  set (e3 := EvDatCopy (Split (ly_unbroken_rhs l) (ly_scalar_index l))
                       (Split (ly_broken_rhs l) (ly_scalar_index l))).
  assert (A3 : agree_off (Dat (fn_id (ly_unbroken_rhs l)))
                 (perform e3 a2) (perform e3 b2)).
  { unfold e3, perform. apply agree_emit. cbn [effect read].
    rewrite G2.
    apply agree_set_data; [exact A2|].
    apply store_agree; [exact A2|]. cbn. intros E. injection E. lia. }
  assert (N3 : nullspace_vecs (perform e3 a2) (ly_S l)
               = nullspace_vecs s (ly_S l))
    by (rewrite nullspace_vecs_perform; exact N2).
  set (a3 := perform e3 a2) in *. set (b3 := perform e3 b2) in *.
  clearbody a3 b3. clear A2 G2 N2 a2 b2.
  assert (A4 : agree_off (Dat (fn_id (ly_unbroken_rhs l)))
                 (perform (EvAssemble (ly_assemble_Srhs l)) a3)
                 (perform (EvAssemble (ly_assemble_Srhs l)) b3))
    by agree_step.
  assert (N4 : nullspace_vecs (perform (EvAssemble (ly_assemble_Srhs l)) a3)
                 (ly_S l) = nullspace_vecs s (ly_S l))
    by (rewrite nullspace_vecs_perform; exact N3).
  set (a4 := perform _ a3) in *. set (b4 := perform _ b3) in *.
  clearbody a4 b4. clear A3 N3 a3 b3.
  match goal with
  | |- context [perform ?ev a4] =>
      assert (A5 : agree_off (Dat (fn_id (ly_unbroken_rhs l)))
                     (perform ev a4) (perform ev b4))
  end.
  { apply (perform_agree A4); [not_field | not_field |].
    intros k b' x m E Hk. injection E as <- _ _. cbn in Hk.
    injection Hk as <-. rewrite N4. exact Hns. }
  set (a5 := perform _ a4) in *. set (b5 := perform _ b4) in *.
  clearbody a5 b5. clear A4 N4 a4 b4.
  assert (A6 : agree_off (Dat (fn_id (ly_unbroken_rhs l)))
                 (perform (EvAssemble (ly_assemble_pressure l)) a5)
                 (perform (EvAssemble (ly_assemble_pressure l)) b5))
    by agree_step.
  set (a6 := perform _ a5) in *. set (b6 := perform _ b5) in *.
  clearbody a6 b6. clear A5 a5 b5.
  assert (A7 : agree_off (Dat (fn_id (ly_unbroken_rhs l)))
                 (perform (EvAssemble (ly_assemble_velocity l)) a6)
                 (perform (EvAssemble (ly_assemble_velocity l)) b6))
    by agree_step.
  set (a7 := perform _ a6) in *. set (b7 := perform _ b6) in *.
  clearbody a7 b7. clear A6 a6 b6.
  match goal with
  | |- context [perform ?ev a7] =>
      assert (A8 : agree_off (Dat (fn_id (ly_unbroken_rhs l)))
                     (perform ev a7) (perform ev b7)) by agree_step
  end.
  set (a8 := perform _ a7) in *. set (b8 := perform _ b7) in *.
  clearbody a8 b8. clear A7 a7 b7.
  assert (A9 : agree_off (Dat (fn_id (ly_unbroken_rhs l)))
                 (perform (EvProject (ly_projector l)) a8)
                 (perform (EvProject (ly_projector l)) b8))
    by agree_step.
  set (a9 := perform _ a8) in *. set (b9 := perform _ b8) in *.
  clearbody a9 b9. clear A8 a8 b8.
  destruct A9 as (Hd & Hm & _ & _).
  assert (Hu : data a9 (Dat (fn_id (ly_unbroken_solution l)))
               = data b9 (Dat (fn_id (ly_unbroken_solution l))))
    by (apply Hd; cbn; intros E; injection E; lia).
  unfold perform, effect. norm.
  split; [rewrite !upd_same; exact Hu|].
  split; [|exact Hm].
  intros loc Hloc. unfold upd.
  destruct (Loc_eq_dec y loc); [exact Hu | apply Hd; exact Hloc].
Qed.

Ltac solve_loc :=
  let E := fresh "E" in
  cbn; intros [E | []];
  first [ injection E; lia
        | discriminate E
        | match goal with
          | Hf : ~ In _ (ly_fields _) |- _ =>
              apply Hf; first [rewrite <- E | rewrite E]; cbn; tauto
          end ].

Ltac not_written :=
  let ev := fresh "ev" in
  let Hev := fresh "Hev" in
  intros ev Hev; cbn [In] in Hev;
  repeat (destruct Hev as [<- | Hev]; [solve_loc |]); destruct Hev.

(** After [apply], [schur_rhs] holds the value of the right-hand side
    expression in the final state. *)
Lemma apply_schur_rhs (l : Layout) (pc : PC) (x y : Loc) (s : State) :
  ready l s -> ~ In y (ly_fields l) ->
  let s' := after (apply pc x y) s in
  data s' (Dat (fn_id (ly_schur_rhs l)))
  = eval s' (ac_expr (ly_assemble_Srhs l)).
Proof.
  intros H Hy s'. subst s'. unfold after.
  rewrite (apply_replay pc x y H). cbn [snd].
  change (apply_events l x y)
    with ([ EvVecCopy x (Dat (fn_id (ly_unbroken_rhs l)));
            EvProject (ly_data_projector l);
            EvDatCopy (Split (ly_unbroken_rhs l) (ly_scalar_index l))
                      (Split (ly_broken_rhs l) (ly_scalar_index l)) ]
          ++ [EvAssemble (ly_assemble_Srhs l)]
          ++ [ EvSolve (ly_ksp l) (Dat (fn_id (ly_schur_rhs l)))
                       (Dat (fn_id (ly_trace_solution l)));
               EvAssemble (ly_assemble_pressure l);
               EvAssemble (ly_assemble_velocity l);
               EvDatCopy (Split (ly_broken_solution l) (ly_scalar_index l))
                         (Split (ly_unbroken_solution l) (ly_scalar_index l));
               EvProject (ly_projector l);
               EvVecCopy (Dat (fn_id (ly_unbroken_solution l))) y ]).
  rewrite !replay_app.
  set (a3 := replay _ s).
  set (tail := [EvSolve _ _ _; _; _; _; _; _]).
  change (replay [EvAssemble (ly_assemble_Srhs l)] a3)
    with (perform (EvAssemble (ly_assemble_Srhs l)) a3).
  set (a4 := perform _ a3).
  rewrite (replay_other tail a4) by (unfold tail; not_written).
  assert (E4 : data a4 (Dat (fn_id (ly_schur_rhs l)))
               = eval a3 (ac_expr (ly_assemble_Srhs l))).
  { unfold a4, perform, effect. cbn. apply upd_same. }
  rewrite E4. symmetry. apply eval_ext.
  - destruct (replay_static tail a4) as (_ & _ & _ & He & _).
    rewrite He. apply perform_static.
  - intros c Hc. cbn in Hc. destruct Hc as [<- | []]. cbn [read].
    rewrite (replay_other tail a4) by (unfold tail; not_written).
    apply perform_other. solve_loc.
Qed.

(** X10.  [apply] solves with the operator as it finds it: when [y] is
    not the storage of a field and no vector of the nullspace attached
    to [S] is, the [trace_solution] it leaves is the Krylov solve with
    the stored KSP, the contents [S] had when [apply] was called, the
    nullspace vectors attached to [S], the [schur_rhs] it leaves as
    right-hand side and the previous [trace_solution] as the vector
    handed to the solver; and that [schur_rhs] is the value of
    [K * Atilde.inv * broken_rhs] in the state [apply] leaves. *)
Theorem apply_trace_solve (l : Layout) (pc : PC) (x y : Loc) (s : State) :
  ready l s ->
  ~ In y (ly_fields l) ->
  (forall v, In v (nullspace_vecs s (ly_S l)) -> ~ In v (ly_fields l)) ->
  let s' := after (apply pc x y) s in
  data s' (Dat (fn_id (ly_schur_rhs l)))
  = eval s' (ac_expr (ly_assemble_Srhs l)) /\
  data s' (Dat (fn_id (ly_trace_solution l)))
  = krylov_solve (ly_ksp l) (mats s (mat_id (ly_S l)))
      (option_map (fun n => map (data s) (ns_vecs n))
                  (mat_nullspace s (mat_id (ly_S l))))
      (data s' (Dat (fn_id (ly_schur_rhs l))))
      (data s (Dat (fn_id (ly_trace_solution l)))).
Proof.
  intros H Hy Hns s'.
  split; [apply apply_schur_rhs; assumption|].
  subst s'. unfold after.
  rewrite (apply_replay pc x y H). cbn [snd].
  change (apply_events l x y)
    with ([ EvVecCopy x (Dat (fn_id (ly_unbroken_rhs l)));
            EvProject (ly_data_projector l);
            EvDatCopy (Split (ly_unbroken_rhs l) (ly_scalar_index l))
                      (Split (ly_broken_rhs l) (ly_scalar_index l));
            EvAssemble (ly_assemble_Srhs l) ]
          ++ [ EvSolve (ly_ksp l) (Dat (fn_id (ly_schur_rhs l)))
                       (Dat (fn_id (ly_trace_solution l))) ]
          ++ [ EvAssemble (ly_assemble_pressure l);
               EvAssemble (ly_assemble_velocity l);
               EvDatCopy (Split (ly_broken_solution l) (ly_scalar_index l))
                         (Split (ly_unbroken_solution l) (ly_scalar_index l));
               EvProject (ly_projector l);
               EvVecCopy (Dat (fn_id (ly_unbroken_solution l))) y ]).
  rewrite !replay_app.
  set (head := [EvVecCopy _ _; _; _; _]).
  set (tail := [EvAssemble _; _; _; _; _]).
  set (a4 := replay head s).
  change (replay [EvSolve (ly_ksp l) (Dat (fn_id (ly_schur_rhs l)))
                          (Dat (fn_id (ly_trace_solution l)))] a4)
    with (perform (EvSolve (ly_ksp l) (Dat (fn_id (ly_schur_rhs l)))
                           (Dat (fn_id (ly_trace_solution l)))) a4).
  set (a5 := perform _ a4).
  rewrite !(replay_other tail a5) by (unfold tail; not_written).
  assert (E5 : data a5 (Dat (fn_id (ly_schur_rhs l)))
               = data a4 (Dat (fn_id (ly_schur_rhs l))))
    by (apply perform_other; solve_loc).
  rewrite E5.
  unfold a5 at 1, perform, effect. cbn [ly_ksp ksp_operators]. norm.
  rewrite upd_same.
  assert (Em : mats a4 = mats s).
  { apply replay_mats. unfold head. intros c m Hin. cbn [In] in Hin.
    destruct Hin as [E | [E | [E | [E | []]]]]; try discriminate E.
    injection E as <-. discriminate. }
  assert (En : mat_nullspace a4 = mat_nullspace s)
    by apply replay_static.
  assert (Et : data a4 (Dat (fn_id (ly_trace_solution l)))
               = data s (Dat (fn_id (ly_trace_solution l))))
    by (apply replay_other; unfold head; not_written).
  rewrite Em, En, Et. f_equal.
  unfold nullspace_vecs in Hns.
  destruct (mat_nullspace s (mat_id (ly_S l))) as [n|]; [|reflexivity].
  cbn [option_map]. f_equal. apply map_ext_in. intros v Hv.
  specialize (Hns v Hv).
  apply replay_other. unfold head. not_written.
Qed.

(** ** The values [apply] computes, sub-step by sub-step *)

Lemma perform_vec_copy_data a src dst :
  data (perform (EvVecCopy src dst) a) = upd (data a) dst (data a src).
Proof. reflexivity. Qed.

Lemma perform_dat_copy_data a src dst :
  data (perform (EvDatCopy src dst) a) = store dst (read a src) (data a).
Proof. reflexivity. Qed.

Lemma perform_project_data a p :
  data (perform (EvProject p) a)
  = store (proj_target p)
      (project_solve p (read a (proj_source p)) (read a (proj_target p)))
      (data a).
Proof. reflexivity. Qed.

Lemma perform_assemble_data a c t :
  ac_tensor c = IntoFunction t ->
  data (perform (EvAssemble c) a)
  = store t (apply_bcs (ac_bcs c) (eval a (ac_expr c))) (data a).
Proof. intros E. unfold perform, effect. rewrite E. reflexivity. Qed.

Lemma store_split_same f i v d :
  store (Split f i) v d (Dat (fn_id f)) = set_comp i v (d (Dat (fn_id f))).
Proof. cbn. apply upd_same. Qed.

Lemma env_perform ev s : env (perform ev s) = env s.
Proof. apply perform_static. Qed.

Ltac field_neq := cbn; let E := fresh "E" in intros E; injection E; lia.

Ltac untouched :=
  rewrite !perform_other by solve_loc.

(** The contents of the fields and of [y] after [apply]. *)
Lemma apply_values (l : Layout) (pc : PC) (x y : Loc) (s : State) :
  ready l s -> ~ In y (ly_fields l) ->
  let s' := after (apply pc x y) s in
  data s' (Dat (fn_id (ly_unbroken_rhs l))) = data s x /\
  data s' (Dat (fn_id (ly_broken_rhs l)))
  = forward_transfer l (data s x) (data s (Dat (fn_id (ly_broken_rhs l)))) /\
  data s' (Dat (fn_id (ly_broken_solution l)))
  = reconstructed l s' (data s (Dat (fn_id (ly_broken_solution l)))) /\
  data s' (Dat (fn_id (ly_unbroken_solution l)))
  = backward_transfer l (data s' (Dat (fn_id (ly_broken_solution l))))
                        (data s (Dat (fn_id (ly_unbroken_solution l)))) /\
  data s' y = data s' (Dat (fn_id (ly_unbroken_solution l))).
Proof.
  intros H Hy s'. subst s'. unfold after.
  rewrite (apply_replay pc x y H). cbn [snd].
  unfold apply_events, replay. cbn [fold_left].
  set (a1 := perform (EvVecCopy x _) s).
  set (a2 := perform (EvProject (ly_data_projector l)) a1).
  set (a3 := perform (EvDatCopy (Split (ly_unbroken_rhs l) _) _) a2).
  set (a4 := perform (EvAssemble (ly_assemble_Srhs l)) a3).
  set (a5 := perform (EvSolve _ _ _) a4).
  set (a6 := perform (EvAssemble (ly_assemble_pressure l)) a5).
  set (a7 := perform (EvAssemble (ly_assemble_velocity l)) a6).
  set (a8 := perform (EvDatCopy (Split (ly_broken_solution l) _) _) a7).
  set (a9 := perform (EvProject (ly_projector l)) a8).
  set (a10 := perform (EvVecCopy _ y) a9).
  (* unbroken_rhs *)
  assert (R1 : data a1 (Dat (fn_id (ly_unbroken_rhs l))) = data s x)
    by (unfold a1; rewrite perform_vec_copy_data; apply upd_same).
  assert (R2 : data a2 (Dat (fn_id (ly_unbroken_rhs l))) = data s x)
    by (unfold a2; untouched; exact R1).
  assert (R10 : data a10 (Dat (fn_id (ly_unbroken_rhs l))) = data s x)
    by (unfold a10, a9, a8, a7, a6, a5, a4, a3; untouched; exact R2).
  (* broken_rhs *)
  assert (B3 : data a3 (Dat (fn_id (ly_broken_rhs l)))
               = forward_transfer l (data s x)
                   (data s (Dat (fn_id (ly_broken_rhs l))))).
  { unfold a3. rewrite perform_dat_copy_data, store_split_same.
    cbn [read]. rewrite R2.
    unfold a2. rewrite perform_project_data.
    unfold ly_data_projector at 1 3 4. cbn [proj_target proj_source read].
    rewrite store_split_same.
    unfold a1. untouched. reflexivity. }
  assert (B10 : data a10 (Dat (fn_id (ly_broken_rhs l)))
                = data a3 (Dat (fn_id (ly_broken_rhs l))))
    by (unfold a10, a9, a8, a7, a6, a5, a4; untouched; reflexivity).
  (* broken_solution *)
  assert (S5 : data a5 (Dat (fn_id (ly_broken_solution l)))
               = data s (Dat (fn_id (ly_broken_solution l))))
    by (unfold a5, a4, a3, a2, a1; untouched; reflexivity).
  assert (S6 : data a6 (Dat (fn_id (ly_broken_solution l)))
               = set_comp 1 (eval a5 (ly_u_sol l))
                   (data s (Dat (fn_id (ly_broken_solution l))))).
  { unfold a6. rewrite (@perform_assemble_data a5 (ly_assemble_pressure l) (Split (ly_broken_solution l) 1) eq_refl).
    cbn [ly_assemble_pressure ac_bcs ac_expr apply_bcs fold_left].
    rewrite store_split_same, S5. reflexivity. }
  assert (S7 : data a7 (Dat (fn_id (ly_broken_solution l)))
               = set_comp 0 (eval a6 (ly_sigma_sol l))
                   (data a6 (Dat (fn_id (ly_broken_solution l))))).
  { unfold a7. rewrite (@perform_assemble_data a6 (ly_assemble_velocity l) (Split (ly_broken_solution l) 0) eq_refl).
    cbn [ly_assemble_velocity ac_bcs ac_expr apply_bcs fold_left].
    apply store_split_same. }
  assert (S10 : data a10 (Dat (fn_id (ly_broken_solution l)))
                = data a7 (Dat (fn_id (ly_broken_solution l))))
    by (unfold a10, a9, a8; untouched; reflexivity).
  assert (T10 : data a10 (Dat (fn_id (ly_trace_solution l)))
                = data a5 (Dat (fn_id (ly_trace_solution l))))
    by (unfold a10, a9, a8, a7, a6; untouched; reflexivity).
  assert (T6 : data a6 (Dat (fn_id (ly_trace_solution l)))
               = data a5 (Dat (fn_id (ly_trace_solution l))))
    by (unfold a6; untouched; reflexivity).
  assert (B5 : data a5 (Dat (fn_id (ly_broken_rhs l)))
               = data a3 (Dat (fn_id (ly_broken_rhs l))))
    by (unfold a5, a4; untouched; reflexivity).
  assert (B6 : data a6 (Dat (fn_id (ly_broken_rhs l)))
               = data a3 (Dat (fn_id (ly_broken_rhs l))))
    by (unfold a6; untouched; exact B5).
  assert (E5 : env a5 = env a10)
    by (unfold a10, a9, a8, a7, a6; rewrite !env_perform; reflexivity).
  assert (E6 : env a6 = env a10)
    by (unfold a10, a9, a8, a7; rewrite !env_perform; reflexivity).
  assert (U5 : eval a5 (ly_u_sol l) = eval a10 (ly_u_sol l)).
  { apply eval_ext; [exact E5|].
    intros c Hc. cbn in Hc.
    repeat (destruct Hc as [<- | Hc]); try contradiction; cbn [read];
      rewrite ?B5, ?B10, ?T10; reflexivity. }
  (* unbroken_solution *)
  assert (V7 : data a7 (Dat (fn_id (ly_unbroken_solution l)))
               = data s (Dat (fn_id (ly_unbroken_solution l))))
    by (unfold a7, a6, a5, a4, a3, a2, a1; untouched; reflexivity).
  assert (S8 : data a8 (Dat (fn_id (ly_broken_solution l)))
               = data a7 (Dat (fn_id (ly_broken_solution l))))
    by (unfold a8; untouched; reflexivity).
  assert (V8 : data a8 (Dat (fn_id (ly_unbroken_solution l)))
               = set_comp (ly_scalar_index l)
                   (get_comp (ly_scalar_index l)
                      (data a7 (Dat (fn_id (ly_broken_solution l)))))
                   (data s (Dat (fn_id (ly_unbroken_solution l))))).
  { unfold a8. rewrite perform_dat_copy_data, store_split_same.
    cbn [read]. rewrite V7. reflexivity. }
  assert (V9 : data a9 (Dat (fn_id (ly_unbroken_solution l)))
               = backward_transfer l
                   (data a7 (Dat (fn_id (ly_broken_solution l))))
                   (data s (Dat (fn_id (ly_unbroken_solution l))))).
  { unfold a9. rewrite perform_project_data.
    unfold ly_projector at 1 3 4. cbn [proj_target proj_source read].
    rewrite store_split_same, S8, V8. reflexivity. }
  assert (V10 : data a10 (Dat (fn_id (ly_unbroken_solution l)))
                = data a9 (Dat (fn_id (ly_unbroken_solution l))))
    by (unfold a10; untouched; reflexivity).
  split; [exact R10|].
  split; [rewrite B10; exact B3|].
  split.
  { rewrite S10, S7, S6. unfold reconstructed. cbv zeta.
    rewrite <- U5. f_equal.
    apply eval_ext; [exact E6|].
    intros c Hc. cbn in Hc.
    repeat (destruct Hc as [<- | Hc]); try contradiction; cbn [read data set_data];
      rewrite ?upd_same, ?upd_other by field_neq;
      rewrite ?S6, ?B6, ?B10, ?T6, ?T10; reflexivity. }
  split; [rewrite V10, V9, S10; reflexivity|].
  rewrite V10. unfold a10. rewrite perform_vec_copy_data. apply upd_same.
Qed.

(** After [apply], [trace_solution] holds the Krylov solve for the
    contents [S] had, the nullspace vectors attached to it, the
    [schur_rhs] that [apply] leaves, and the previous [trace_solution]
    as the vector handed to the solver. *)
Lemma apply_trace_value (l : Layout) (pc : PC) (x y : Loc) (s : State) :
  ready l s ->
  ~ In y (ly_fields l) ->
  (forall v, In v (nullspace_vecs s (ly_S l)) -> ~ In v (ly_fields l)) ->
  let s' := after (apply pc x y) s in
  data s' (Dat (fn_id (ly_trace_solution l)))
  = krylov_solve (ly_ksp l) (mats s (mat_id (ly_S l)))
      (option_map (fun n => map (data s) (ns_vecs n))
                  (mat_nullspace s (mat_id (ly_S l))))
      (data s' (Dat (fn_id (ly_schur_rhs l))))
      (data s (Dat (fn_id (ly_trace_solution l)))).
Proof.
  intros H Hy Hns s'. subst s'. unfold after.
  rewrite (apply_replay pc x y H). cbn [snd].
  change (apply_events l x y)
    with ([ EvVecCopy x (Dat (fn_id (ly_unbroken_rhs l)));
            EvProject (ly_data_projector l);
            EvDatCopy (Split (ly_unbroken_rhs l) (ly_scalar_index l))
                      (Split (ly_broken_rhs l) (ly_scalar_index l));
            EvAssemble (ly_assemble_Srhs l) ]
          ++ [ EvSolve (ly_ksp l) (Dat (fn_id (ly_schur_rhs l)))
                       (Dat (fn_id (ly_trace_solution l))) ]
          ++ [ EvAssemble (ly_assemble_pressure l);
               EvAssemble (ly_assemble_velocity l);
               EvDatCopy (Split (ly_broken_solution l) (ly_scalar_index l))
                         (Split (ly_unbroken_solution l) (ly_scalar_index l));
               EvProject (ly_projector l);
               EvVecCopy (Dat (fn_id (ly_unbroken_solution l))) y ]).
  rewrite !replay_app.
  set (head := [EvVecCopy _ _; _; _; _]).
  set (tail := [EvAssemble _; _; _; _; _]).
  set (a4 := replay head s).
  change (replay [EvSolve (ly_ksp l) (Dat (fn_id (ly_schur_rhs l)))
                          (Dat (fn_id (ly_trace_solution l)))] a4)
    with (perform (EvSolve (ly_ksp l) (Dat (fn_id (ly_schur_rhs l)))
                           (Dat (fn_id (ly_trace_solution l)))) a4).
  set (a5 := perform _ a4).
  rewrite !(replay_other tail a5) by (unfold tail; not_written).
  assert (E5 : data a5 (Dat (fn_id (ly_schur_rhs l)))
               = data a4 (Dat (fn_id (ly_schur_rhs l))))
    by (apply perform_other; solve_loc).
  rewrite E5.
  unfold a5 at 1, perform, effect. cbn [ly_ksp ksp_operators]. norm.
  rewrite upd_same.
  assert (Em : mats a4 = mats s).
  { apply replay_mats. unfold head. intros c m Hin. cbn [In] in Hin.
    destruct Hin as [E | [E | [E | [E | []]]]]; try discriminate E.
    injection E as <-. discriminate. }
  assert (En : mat_nullspace a4 = mat_nullspace s)
    by apply replay_static.
  assert (Et : data a4 (Dat (fn_id (ly_trace_solution l)))
               = data s (Dat (fn_id (ly_trace_solution l))))
    by (apply replay_other; unfold head; not_written).
  rewrite Em, En, Et. f_equal.
  unfold nullspace_vecs in Hns.
  destruct (mat_nullspace s (mat_id (ly_S l))) as [n|]; [|reflexivity].
  cbn [option_map]. f_equal. apply map_ext_in. intros v Hv.
  specialize (Hns v Hv).
  apply replay_other. unfold head. not_written.
Qed.

(** C3.  On a preconditioner that has been set up for an H(div) x L2
    pair (the vector-valued space first), with [y] and the nullspace
    vectors of [S] outside the fields, a call of [apply] makes exactly
    these ten calls to its collaborators, in this order, and each
    sub-step works on what the one before it left:
    - forward transfer: [x] is copied into [unbroken_rhs], the
      projection by [data_projector] and the copy of the scalar
      component fill [broken_rhs];
    - [schur_rhs] is assembled as [K * Atilde.inv * broken_rhs], for
      that [broken_rhs];
    - the solve: [trace_solution] is the Krylov solve with the stored
      KSP for that [schur_rhs];
    - reconstruction: the callable run first writes the scalar
      component of [broken_solution] (the component with an empty
      [ufl_shape]), the callable run second writes the vector component,
      and its expression is evaluated in the state that already holds
      the scalar unknown;
    - backward transfer: the scalar component of [broken_solution] is
      copied into [unbroken_solution], [projector] fills its vector
      component, and [y] receives [unbroken_solution].
    The preconditioner is still set up afterwards.  On an object on
    which [initialize] has not run, [apply] raises at its first
    statement and changes nothing.  The collaborators are modelled as
    returning; a failing assembly or solve is outside the model. *)
Theorem apply_order (l : Layout) (pc : PC) (x y : Loc) (s s0 : State) :
  ready l s ->
  ly_vector_index l = 0%nat ->
  ~ In y (ly_fields l) ->
  (forall v, In v (nullspace_vecs s (ly_S l)) -> ~ In v (ly_fields l)) ->
  self_attr s0 "unbroken_rhs" = None ->
  let s' := after (apply pc x y) s in
  let field f := data s' (Dat (fn_id f)) in
  let was f := data s (Dat (fn_id f)) in
  log s'
  = log s ++
    [ EvVecCopy x (Dat (fn_id (ly_unbroken_rhs l)));
      EvProject (ly_data_projector l);
      EvDatCopy (Split (ly_unbroken_rhs l) (ly_scalar_index l))
                (Split (ly_broken_rhs l) (ly_scalar_index l));
      EvAssemble (ly_assemble_Srhs l);
      EvSolve (ly_ksp l) (Dat (fn_id (ly_schur_rhs l)))
                         (Dat (fn_id (ly_trace_solution l)));
      EvAssemble (ly_assemble_pressure l);
      EvAssemble (ly_assemble_velocity l);
      EvDatCopy (Split (ly_broken_solution l) (ly_scalar_index l))
                (Split (ly_unbroken_solution l) (ly_scalar_index l));
      EvProject (ly_projector l);
      EvVecCopy (Dat (fn_id (ly_unbroken_solution l))) y ] /\
  field (ly_unbroken_rhs l) = data s x /\
  field (ly_broken_rhs l)
  = forward_transfer l (data s x) (was (ly_broken_rhs l)) /\
  field (ly_schur_rhs l)
  = eval s' (ly_K l * Inv (ly_Atilde l)
             * Coeff (Whole (ly_broken_rhs l)))%slate /\
  field (ly_trace_solution l)
  = krylov_solve (ly_ksp l) (mats s (mat_id (ly_S l)))
      (option_map (fun n => map (data s) (ns_vecs n))
                  (mat_nullspace s (mat_id (ly_S l))))
      (field (ly_schur_rhs l)) (was (ly_trace_solution l)) /\
  ac_tensor (ly_assemble_pressure l)
  = IntoFunction (Split (ly_broken_solution l) (ly_scalar_index l)) /\
  ufl_shape (Split (ly_broken_solution l) (ly_scalar_index l)) = [] /\
  ac_tensor (ly_assemble_velocity l)
  = IntoFunction (Split (ly_broken_solution l) (ly_vector_index l)) /\
  ufl_shape (Split (ly_broken_solution l) (ly_vector_index l)) <> [] /\
  field (ly_broken_solution l)
  = reconstructed l s' (was (ly_broken_solution l)) /\
  field (ly_unbroken_solution l)
  = backward_transfer l (field (ly_broken_solution l))
                        (was (ly_unbroken_solution l)) /\
  data s' y = field (ly_unbroken_solution l) /\
  ready l s' /\
  apply pc x y s0 = (Raise (AttributeError "unbroken_rhs"), s0).
Proof.
  intros H Hi Hy Hns H0 s' field was.
  pose proof (apply_values pc x H Hy) as Hv. cbv zeta in Hv.
  destruct Hv as (V1 & V2 & V3 & V4 & V5).
  assert (Hroles : vector_valued (ly_V0 l) = true /\
                   vector_valued (ly_V1 l) = false).
  { destruct (proj1 H) as [(_ & E0 & E1) | (E & _)]; [auto|].
    rewrite Hi in E. discriminate E. }
  destruct (ly_shapes l (proj1 Hroles) (proj2 Hroles)) as (_ & _ & S3 & S4).
  split.
  { unfold s', after. rewrite (apply_replay pc x y H). cbn [snd].
    apply replay_static. }
  split; [exact V1|]. split; [exact V2|].
  split; [exact (apply_schur_rhs pc x H Hy)|].
  split; [exact (apply_trace_value pc x H Hy Hns)|].
  unfold ly_scalar_index. rewrite Hi. cbn [Nat.sub].
  split; [reflexivity|]. split; [exact S4|].
  split; [reflexivity|]. split; [exact S3|].
  split; [exact V3|]. split; [exact V4|]. split; [exact V5|].
  split; [apply apply_ready; exact H|].
  apply apply_before_initialize. exact H0.
Qed.

(** C10.  For caller vectors [x] and [y] that are distinct and are not
    the storage of a field of the orchestrator:
    - [x] is read by the first call, which copies it into
      [unbroken_rhs], and by no other; no call writes it; it ends with
      the contents it had, and [unbroken_rhs] ends holding them;
    - [y] is written by the last call and by no other: until that call
      it holds what it held, and it ends holding the contents of
      [unbroken_solution], which are the backward transfer of the
      [broken_solution] this call reconstructed;
    - every call in between writes only the six fields; every location
      outside the six fields other than [y] keeps its contents, as do
      the matrices, the attached nullspaces and the attributes of
      [self]. *)
Theorem apply_frame (l : Layout) (pc : PC) (x y : Loc) (s : State) :
  ready l s ->
  ~ In x (ly_fields l) -> ~ In y (ly_fields l) -> x <> y ->
  let s' := after (apply pc x y) s in
  let first := EvVecCopy x (Dat (fn_id (ly_unbroken_rhs l))) in
  let last := EvVecCopy (Dat (fn_id (ly_unbroken_solution l))) y in
  data s' x = data s x /\
  data s' (Dat (fn_id (ly_unbroken_rhs l))) = data s x /\
  data s' y = data s' (Dat (fn_id (ly_unbroken_solution l))) /\
  data s' y
  = backward_transfer l (data s' (Dat (fn_id (ly_broken_solution l))))
                        (data s (Dat (fn_id (ly_unbroken_solution l)))) /\
  (forall loc, ~ In loc (ly_fields l) -> loc <> y ->
               data s' loc = data s loc) /\
  mats s' = mats s /\ mat_nullspace s' = mat_nullspace s /\
  self_dict s' = self_dict s /\
  exists middle,
    log s' = log s ++ [first] ++ middle ++ [last] /\
    s' = perform last (replay (first :: middle) s) /\
    data (replay (first :: middle) s) y = data s y /\
    forall ev, In ev middle ->
      ~ In x (reads ev) /\ ~ In x (writes ev) /\ ~ In y (writes ev) /\
      forall loc, In loc (writes ev) -> In loc (ly_fields l).
Proof.
  intros H Hx Hy Hxy s' first last.
  pose proof (apply_values pc x H Hy) as Hv. cbv zeta in Hv.
  fold s' in Hv. destruct Hv as (V1 & _ & _ & V4 & V5).
  assert (E : s' = replay (apply_events l x y) s)
    by (unfold s', after; rewrite (apply_replay pc x y H); reflexivity).
  assert (Hframe : forall loc, ~ In loc (ly_fields l) -> loc <> y ->
                               data s' loc = data s loc).
  { intros loc Hloc Hne. rewrite E. apply replay_other.
    unfold apply_events. intros ev Hev. cbn [In] in Hev.
    repeat (destruct Hev as [<- | Hev];
            [cbn; intros [Ew | []];
             first [ apply Hloc; rewrite <- Ew; cbn; tauto
                   | apply Hne; symmetry; exact Ew ] |]).
    destruct Hev. }
  destruct (replay_static (apply_events l x y) s)
    as (Hd & _ & _ & _ & Hn & Hlog).
  split; [apply Hframe; assumption|].
  split; [exact V1|]. split; [exact V5|].
  split; [rewrite V5; exact V4|].
  split; [exact Hframe|].
  split.
  { rewrite E. apply replay_mats. unfold apply_events.
    intros c m Hin. cbn [In] in Hin.
    repeat (destruct Hin as [Ec | Hin];
            [try discriminate Ec; injection Ec as <-; discriminate|]).
    destruct Hin. }
  split; [rewrite E; exact Hn|]. split; [rewrite E; exact Hd|].
  exists [ EvProject (ly_data_projector l);
           EvDatCopy (Split (ly_unbroken_rhs l) (ly_scalar_index l))
                     (Split (ly_broken_rhs l) (ly_scalar_index l));
           EvAssemble (ly_assemble_Srhs l);
           EvSolve (ly_ksp l) (Dat (fn_id (ly_schur_rhs l)))
                              (Dat (fn_id (ly_trace_solution l)));
           EvAssemble (ly_assemble_pressure l);
           EvAssemble (ly_assemble_velocity l);
           EvDatCopy (Split (ly_broken_solution l) (ly_scalar_index l))
                     (Split (ly_unbroken_solution l) (ly_scalar_index l));
           EvProject (ly_projector l) ].
  split; [rewrite E, Hlog; unfold apply_events; reflexivity|].
  split; [rewrite E; reflexivity|].
  split.
  { apply replay_other. intros ev Hev. cbn [In] in Hev.
    repeat (destruct Hev as [<- | Hev];
            [cbn; intros [Ew | []]; apply Hy; rewrite <- Ew; cbn; tauto |]).
    destruct Hev. }
  intros ev Hev. cbn [In] in Hev.
  assert (Hsub : forall locs, (forall loc, In loc locs -> In loc (ly_fields l))
                 -> ~ In x locs /\ ~ In y locs).
  { intros locs Hl. split; intros Hin; apply Hl in Hin; contradiction. }
  repeat (destruct Hev as [<- | Hev]); try contradiction;
    match goal with
    | |- ~ In x (reads ?ev) /\ _ =>
        assert (Hr : forall loc, In loc (reads ev) -> In loc (ly_fields l));
        [ | assert (Hw : forall loc, In loc (writes ev)
                                     -> In loc (ly_fields l));
            [ | split; [apply (Hsub _ Hr) |];
                split; [apply (Hsub _ Hw) |];
                split; [apply (Hsub _ Hw) | exact Hw] ] ]
    end;
    intros loc;
    cbn [reads writes coefficients ac_expr ac_tensor ly_assemble_Srhs
         ly_assemble_pressure ly_assemble_velocity ly_u_sol ly_sigma_sol
         ly_M ly_K ly_K_local ly_Atilde
         proj_source proj_target ly_data_projector ly_projector
         coefficient_loc map app In ly_fields];
    tauto.
Qed.

(** X11.  An [update] that follows an [apply] runs to completion and
    leaves every dat and every vector as [apply] left it: the right-hand
    side it assembles again is the one [apply] assembled.  Of the
    matrices it rewrites [S] and no other; [S] receives the Schur
    complement for the operator coefficients as they are then, under
    the trace boundary conditions, whatever it held before. *)
Theorem update_after_apply (l : Layout) (pc : PC) (x y : Loc) (s : State) :
  ready l s -> ~ In y (ly_fields l) ->
  let s1 := after (apply pc x y) s in
  let s2 := after (update pc) s1 in
  succeeds (update pc) s1 /\
  (forall loc, data s2 loc = data s1 loc) /\
  (forall i, i <> mat_id (ly_S l) -> mats s2 i = mats s1 i) /\
  mats s2 (mat_id (ly_S l))
  = apply_bcs (ly_trace_conditions l) (eval s1 (ly_schur_comp l)).
Proof.
  intros H Hy s1 s2.
  assert (H1 : ready l s1) by (apply apply_ready; exact H).
  pose proof (apply_schur_rhs pc x H Hy) as Hrhs. cbv zeta in Hrhs.
  fold s1 in Hrhs.
  destruct (update_spec pc H1) as (t & Hrun & _ & _ & _ & Hm & Hd).
  assert (E : s2 = t) by (unfold s2, after; rewrite Hrun; reflexivity).
  rewrite <- E in Hm, Hd. clear E.
  split; [exists tt; rewrite Hrun; reflexivity|].
  split.
  { intros loc. rewrite Hd, <- Hrhs. unfold upd.
    destruct (Loc_eq_dec (Dat (fn_id (ly_schur_rhs l))) loc) as [<-|];
      reflexivity. }
  split.
  { intros i Hi. rewrite Hm. unfold upd_nat.
    destruct (mat_id (ly_S l) =? i)%nat eqn:Ei; [|reflexivity].
    apply Nat.eqb_eq in Ei. congruence. }
  rewrite Hm. apply upd_nat_same.
Qed.

(** X6.  How [initialize] configures the solvers: the KSP is created
    on [pc.comm], has the options prefix [prefix + "hybridization_"],
    the matrix [S] as operator, and has been set up and configured from
    the options; the projector back to the conforming space is created
    with [ksp_type] "cg" and, as [ksp_rtol], the option
    [prefix + "hybridization_projector_tolerance"] as [initialize] found
    it, 1e-8 when it is not set; [data_projector] is created without
    solver parameters. *)
Theorem solver_configuration (pc : PC) (s : State) :
  succeeds (initialize pc) s ->
  let s' := after (initialize pc) s in
  let tol := match dict_get String.eqb (options s)
                     (getOptionsPrefix pc
                      ++ "hybridization_projector_tolerance")%string with
             | Some q => q
             | None => (1 # 100000000)%Q
             end in
  exists S src tgt dsrc dtgt,
    self_attr s' "S" = Some (AMatrix S) /\
    self_attr s' "ksp"
    = Some (AKSP (mkKSP (pc_comm pc)
                        (getOptionsPrefix pc ++ "hybridization_")
                        (Some S) true true)) /\
    self_attr s' "projector"
    = Some (AProjector (mkProjector src tgt (Some "cg") (Some tol))) /\
    self_attr s' "data_projector"
    = Some (AProjector (mkProjector dsrc dtgt None None)).
Proof.
  intros H s' tol.
  destruct (initialize_ready pc H) as (l & Hl & [Hvec Hattrs] & _).
  exists (ly_S l), (proj_source (ly_projector l)),
    (proj_target (ly_projector l)), (proj_source (ly_data_projector l)),
    (proj_target (ly_data_projector l)).
  unfold tol. rewrite <- (lo_tol Hl), <- (lo_prefix Hl), <- (lo_comm Hl).
  repeat split; (eapply self_attr_ready; [exact Hattrs | reflexivity]).
Qed.

(** X8.  [update] on a preconditioner that has been set up: [S] gets
    the value of [K * Atilde.inv * K.T] for the current operator
    coefficients, with the trace boundary condition imposed, and
    [schur_rhs] the value of [K * Atilde.inv * broken_rhs] in the state
    [update] started from; no other matrix and no other storage
    changes. *)
Theorem update_assembles (l : Layout) (pc : PC) (s : State) :
  ready l s ->
  let s' := after (update pc) s in
  mats s' (mat_id (ly_S l))
  = apply_bcs (ly_trace_conditions l) (eval s (ly_schur_comp l)) /\
  data s' (Dat (fn_id (ly_schur_rhs l)))
  = eval s (ac_expr (ly_assemble_Srhs l)) /\
  (forall i, i <> mat_id (ly_S l) -> mats s' i = mats s i) /\
  (forall loc, loc <> Dat (fn_id (ly_schur_rhs l)) ->
               data s' loc = data s loc).
Proof.
  intros H s'.
  destruct (update_spec pc H) as (t & Hrun & _ & _ & _ & Hm & Hd).
  assert (E : s' = t) by (unfold s', after; rewrite Hrun; reflexivity).
  rewrite E, Hm, Hd.
  split; [apply upd_nat_same|]. split; [apply upd_same|].
  split.
  - intros i Hi. unfold upd_nat.
    destruct (Nat.eqb_spec (mat_id (ly_S l)) i); [congruence | reflexivity].
  - intros loc Hloc. apply upd_other. congruence.
Qed.

(** X7.  [initialize] leaves [S] assembled: an [update] right after it
    runs to completion and leaves every matrix with the contents it had;
    of the storage, only [schur_rhs] can change. *)
Theorem update_after_initialize (pc : PC) (s : State) :
  succeeds (initialize pc) s ->
  let s1 := after (initialize pc) s in
  let s2 := after (update pc) s1 in
  succeeds (update pc) s1 /\
  (forall i, mats s2 i = mats s1 i) /\
  (forall loc, loc <> Dat (5 + next_id s) -> data s2 loc = data s1 loc).
Proof.
  intros H s1 s2.
  destruct (initialize_ready pc H) as (l & Hl & Hready & _).
  destruct (initialize_run Hl) as (t & Hrun & HS).
  destruct (initialize_spec pc s Hrun eq_refl) as (l' & _ & _ & _ & Henv & _).
  assert (E1 : s1 = t) by (unfold s1, after; rewrite Hrun; reflexivity).
  fold s1 in Hready.
  destruct (update_spec pc Hready) as (u & Hu & _ & _ & _ & Hm & Hd).
  assert (E2 : s2 = u) by (unfold s2, after; rewrite Hu; reflexivity).
  split; [exists tt; rewrite Hu; reflexivity|].
  rewrite E2, Hm, Hd. split.
  - intros i. unfold upd_nat.
    destruct (Nat.eqb_spec (mat_id (ly_S l)) i) as [<-|]; [|reflexivity].
    rewrite E1, HS. f_equal. apply eval_ext; [exact Henv | intros c []].
  - intros loc Hloc. apply upd_other.
    cbn. rewrite (lo_base Hl). intros E. apply Hloc. rewrite <- E.
    reflexivity.
Qed.

Lemma bind_run_any {St A B} (m : M St A) (k : A -> M St B) s a s1 :
  m s = (Ok a, s1) -> bind m k s = k a s1.
Proof. intros H. unfold bind. rewrite H. reflexivity. Qed.

(** ** view *)

(** X14.  [view] pushes two tab levels and pops one.  With a viewer, on
    an object that has its [ksp], and with a base class and a KSP whose
    own [view] leave the tab level as they find it, [view] runs to
    completion and leaves the viewer one tab level deeper than it found
    it. *)
Theorem view_tab_level (PCBase_view : PC -> M (option Viewer) unit)
  (KSP_view : KSP -> M (option Viewer) unit)
  (pc : PC) (s : State) (k : KSP) (w : Viewer) :
  tab_neutral (PCBase_view pc) ->
  (forall k, tab_neutral (KSP_view k)) ->
  self_attr s "ksp" = Some (AKSP k) ->
  exists w',
    view PCBase_view KSP_view pc s (Some w) = (Ok tt, Some w') /\
    vw_tab w' = S (vw_tab w).
Proof.
  intros Hsuper Hksp Hattr. unfold view.
  destruct (Hsuper w) as (w1 & R1 & T1 & _).
  erewrite bind_run_any by exact R1.
  erewrite bind_run_any by reflexivity.
  erewrite bind_run_any by reflexivity.
  erewrite bind_run_any by reflexivity.
  erewrite bind_run_any by reflexivity.
  rewrite Hattr.
  erewrite bind_run_any by reflexivity.
  match goal with
  | |- context [bind (KSP_view k) _ (Some ?v)] =>
      destruct (Hksp k v) as (w2 & R2 & T2 & _)
  end.
  erewrite bind_run_any by exact R2.
  eexists. split; [reflexivity|].
  cbn. rewrite T2. cbn. rewrite T1. reflexivity.
Qed.

(** X15.  How [view] fails.  Called without a viewer (the default
    [None]), and the base class returning normally, it raises
    [AttributeError] at [viewer.printfASCII].  On an object without
    [ksp], it raises [AttributeError] at [self.ksp], after printing its
    two lines and with the viewer left two tab levels deeper. *)
Theorem view_failures (PCBase_view : PC -> M (option Viewer) unit)
  (KSP_view : KSP -> M (option Viewer) unit)
  (pc : PC) (s : State) (w : Viewer) :
  (PCBase_view pc None = (Ok tt, None) ->
   view PCBase_view KSP_view pc s None
   = (Raise (AttributeError "printfASCII"), None)) /\
  (tab_neutral (PCBase_view pc) -> self_attr s "ksp" = None ->
   exists w',
     view PCBase_view KSP_view pc s (Some w)
     = (Raise (AttributeError "ksp"), Some w') /\
     vw_tab w' = S (S (vw_tab w))).
Proof.
  split.
  - intros H. unfold view. unfold bind at 1. rewrite H. reflexivity.
  - intros Hsuper Hattr. unfold view.
    destruct (Hsuper w) as (w1 & R1 & T1 & _).
    erewrite bind_run_any by exact R1.
    erewrite bind_run_any by reflexivity.
    erewrite bind_run_any by reflexivity.
    erewrite bind_run_any by reflexivity.
    erewrite bind_run_any by reflexivity.
    rewrite Hattr.
    eexists. split; [reflexivity|]. cbn. rewrite T1. reflexivity.
Qed.

Lemma eval_closed (s s' : State) (e : Slate) :
  coefficients e = [] -> env s' = env s -> eval s' e = eval s e.
Proof.
  intros Hc He. apply eval_ext; [exact He|]. rewrite Hc. intros c [].
Qed.

(** One iteration of the loop. *)
Lemma transfer_vector_data tmp tmp_b tnsp fwd (v : Loc) st :
  coefficients fwd = [] ->
  fn_id tmp <> fn_id tmp_b -> fn_id tmp <> fn_id tnsp ->
  fn_id tmp_b <> fn_id tnsp ->
  let m := next_id st in
  let Pj := mkProjector (Whole tmp) (Whole tmp_b) None None in
  let b := project_solve Pj (data st v) (data st (Dat (fn_id tmp_b))) in
  exists st1,
    transfer_vector tmp tmp_b tnsp (fwd * Coeff (Whole tmp_b))%slate v st
    = (Ok (NewVec m), st1) /\
    next_id st1 = S m /\ env st1 = env st /\
    data st1 (NewVec m) = vmul (eval st fwd) b /\
    data st1 (Dat (fn_id tmp_b)) = b /\
    (forall loc, outside tmp tmp_b tnsp m loc -> data st1 loc = data st loc).
Proof.
  intros Hc H1 H2 H3 m Pj b. unfold transfer_vector.
  erewrite bind_run by apply vec_copy_perform.
  erewrite bind_run by apply project_perform.
  erewrite bind_run by apply call_perform.
  fold Pj.
  set (a1 := perform (EvVecCopy v (Dat (fn_id tmp))) st).
  set (a2 := perform (EvProject Pj) a1).
  set (a3 := perform (EvAssemble _) a2).
  assert (D1 : data a1 = upd (data st) (Dat (fn_id tmp)) (data st v))
    by reflexivity.
  assert (D2 : data a2 (Dat (fn_id tmp_b)) = b).
  { unfold a2, perform, effect. cbn [Pj proj_target proj_source store read].
    norm. rewrite upd_same, D1, upd_same.
    rewrite upd_other by congruence. reflexivity. }
  assert (E2 : env a2 = env st) by reflexivity.
  assert (N3 : next_id a3 = m) by reflexivity.
  assert (D3 : data a3 (Dat (fn_id tnsp)) = vmul (eval st fwd) b).
  { unfold a3, perform, effect.
    cbn [ac_tensor ac_bcs ac_expr apply_bcs fold_left store eval read].
    norm. rewrite upd_same, D2.
    rewrite (@eval_closed st a2 fwd Hc E2). reflexivity. }
  assert (D3b : data a3 (Dat (fn_id tmp_b)) = b).
  { unfold a3. rewrite perform_other; [exact D2|].
    cbn. intros [E | []]. injection E. congruence. }
  assert (F3 : forall loc, outside tmp tmp_b tnsp m loc ->
                           data a3 loc = data st loc).
  { intros loc (O1 & O2 & O3 & _).
    unfold a3. rewrite perform_other by (cbn; intros [E | []]; congruence).
    unfold a2. rewrite perform_other by (cbn; intros [E | []]; congruence).
    rewrite D1. apply upd_other. congruence. }
  eexists. split; [reflexivity|]. norm. rewrite N3.
  split; [reflexivity|]. split; [reflexivity|].
  split; [rewrite upd_same; exact D3|].
  split; [rewrite upd_other by discriminate; exact D3b|].
  intros loc Ho. rewrite upd_other; [apply F3; exact Ho|].
  destruct Ho as (_ & _ & _ & O4). intros E. apply (O4 m (Nat.le_refl m)).
  symmetry. exact E.
Qed.

Lemma outside_mono tmp tmp_b tnsp m loc :
  outside tmp tmp_b tnsp m loc -> outside tmp tmp_b tnsp (S m) loc.
Proof.
  intros (O1 & O2 & O3 & O4). repeat split; auto.
  intros j Hj. apply O4. lia.
Qed.

(** The loop: the new vectors hold the forward operator applied to the
    successive projections of the original vectors. *)
Lemma transfer_loop_data tmp tmp_b tnsp fwd (vecs : list Loc) :
  coefficients fwd = [] ->
  fn_id tmp <> fn_id tmp_b -> fn_id tmp <> fn_id tnsp ->
  fn_id tmp_b <> fn_id tnsp ->
  forall st,
    (fn_id tmp < next_id st)%nat -> (fn_id tmp_b < next_id st)%nat ->
    (fn_id tnsp < next_id st)%nat ->
    (forall v, In v vecs -> outside tmp tmp_b tnsp (next_id st) v) ->
    let Pj := mkProjector (Whole tmp) (Whole tmp_b) None None in
    exists st',
      for_each vecs
        (transfer_vector tmp tmp_b tnsp (fwd * Coeff (Whole tmp_b))%slate) st
      = (Ok (map NewVec (seq (next_id st) (length vecs))), st') /\
      map (data st') (map NewVec (seq (next_id st) (length vecs)))
      = map (vmul (eval st fwd))
            (projections Pj (data st (Dat (fn_id tmp_b)))
                         (map (data st) vecs)) /\
      env st' = env st /\
      (forall loc, outside tmp tmp_b tnsp (next_id st) loc ->
                   data st' loc = data st loc).
Proof.
  intros Hc H1 H2 H3.
  induction vecs as [|v vecs IH]; intros st L1 L2 L3 Hv Pj.
  - exists st. cbn. repeat split; reflexivity.
  - cbn [for_each length seq map projections].
    destruct (transfer_vector_data tmp tmp_b tnsp fwd v st Hc H1 H2 H3)
      as (st1 & R1 & N1 & E1 & D1 & B1 & F1).
    fold Pj in D1, B1.
    erewrite bind_run by exact R1.
    assert (Hv1 : forall v', In v' vecs ->
                             outside tmp tmp_b tnsp (next_id st1) v').
    { intros v' Hin. rewrite N1. apply outside_mono. apply Hv. right.
      exact Hin. }
    destruct (IH st1 ltac:(lia) ltac:(lia) ltac:(lia) Hv1)
      as (st' & R' & D' & E' & F').
    rewrite N1 in R', D', F'.
    erewrite bind_run by exact R'.
    exists st'. split; [reflexivity|].
    split; [|split].
    + f_equal.
      * rewrite F'.
        -- exact D1.
        -- repeat split; try discriminate.
           intros j Hj E. injection E. lia.
      * rewrite D'. rewrite B1.
        rewrite (@eval_closed st st1 fwd Hc E1).
        f_equal. f_equal. apply map_ext_in. intros v' Hin.
        apply F1. apply Hv. right. exact Hin.
    + rewrite E'. exact E1.
    + intros loc Ho. rewrite F' by (apply outside_mono; exact Ho).
      apply F1. exact Ho.
Qed.

Lemma existing_outside s V V_d T (loc : Loc) :
  existing s loc ->
  outside (mkFunction (next_id s) V) (mkFunction (1 + next_id s) V_d)
          (mkFunction (2 + next_id s) T) (3 + next_id s) loc.
Proof.
  unfold outside. cbn [fn_id].
  destruct loc; cbn; intros H; repeat split; try discriminate;
    try (intros E; injection E; lia);
    try (intros j Hj E; injection E; lia);
    try (intros j Hj E; discriminate E).
Qed.

(** X13.  The values [create_schur_nullspace] computes.  For a forward
    operator that reads no coefficient and original vectors that exist
    when it is called, the new vectors hold, in order, the forward
    operator applied to the successive projections of the original
    vectors into the broken space, the first projection starting from
    the zero function; the original vectors keep their contents. *)
Theorem schur_nullspace_values (P : Operator) (fwd : Slate) (V V_d : Space)
  (T : FunctionSpace) (comm : nat) (s : State) :
  handle (getNullSpace P) <> 0%nat ->
  coefficients fwd = [] ->
  (forall v, In v (ns_vecs (getNullSpace P)) -> existing s v) ->
  let tmp := mkFunction (next_id s) V in
  let tmp_b := mkFunction (1 + next_id s) V_d in
  let Pj := mkProjector (Whole tmp) (Whole tmp_b) None None in
  let s' := after (create_schur_nullspace P fwd V V_d T comm) s in
  exists ns,
    fst (create_schur_nullspace P fwd V V_d T comm s) = Ok (Some ns) /\
    map (data s') (ns_vecs ns)
    = map (vmul (eval s fwd))
          (projections Pj (vzero V_d)
                       (map (data s) (ns_vecs (getNullSpace P)))) /\
    forall v, In v (ns_vecs (getNullSpace P)) -> data s' v = data s v.
Proof.
  intros Hh Hc Hv tmp tmp_b Pj s'. subst s'. unfold after.
  unfold create_schur_nullspace.
  apply Nat.eqb_neq in Hh. rewrite Hh.
  erewrite bind_run by reflexivity.
  erewrite bind_run by reflexivity.
  erewrite bind_run by reflexivity.
  norm.
  set (st := set_next_id _ _).
  assert (Nst : next_id st = (3 + next_id s)%nat) by reflexivity.
  assert (Est : env st = env s) by reflexivity.
  assert (Dst : forall loc, existing s loc -> data st loc = data s loc).
  { intros loc Hloc. unfold st. norm.
    destruct (existing_outside s V V_d (Plain T) loc Hloc)
      as (O1 & O2 & O3 & _).
    cbn [fn_id Nat.add] in O1, O2, O3.
    rewrite !upd_other by congruence. reflexivity. }
  assert (Bst : data st (Dat (S (next_id s))) = vzero V_d).
  { unfold st. norm. rewrite upd_other by (intros E; injection E; lia).
    apply upd_same. }
  fold tmp. fold tmp_b.
  set (tnsp := mkFunction (S (S (next_id s))) (Plain T)).
  assert (Ho : forall v, In v (ns_vecs (getNullSpace P)) ->
                         outside tmp tmp_b tnsp (next_id st) v).
  { intros v Hin. rewrite Nst.
    apply (existing_outside s V V_d (Plain T)). apply Hv. exact Hin. }
  pose proof (@transfer_loop_data tmp tmp_b tnsp fwd
                (ns_vecs (getNullSpace P)) Hc
                ltac:(cbn; lia) ltac:(cbn; lia) ltac:(cbn; lia) st
                ltac:(cbn; lia) ltac:(cbn; lia) ltac:(cbn; lia) Ho) as Hloop.
  cbv zeta in Hloop. destruct Hloop as (st' & R & D & E & F).
  erewrite bind_run by exact R.
  eexists. split; [reflexivity|]. cbn [snd fst bind NullSpace_create ret].
  cbn [ns_vecs]. norm.
  split.
  - rewrite D. fold Pj. rewrite (@eval_closed s st fwd Hc Est).
    change (fn_id tmp_b) with (S (next_id s)). rewrite Bst.
    f_equal. f_equal. apply map_ext_in. intros v Hin. apply Dst.
    apply Hv. exact Hin.
  - intros v Hin. rewrite F by (apply Ho; exact Hin).
    apply Dst. apply Hv. exact Hin.
Qed.

(** ** Nullspace transfer *)

(** The run of [create_schur_nullspace] on an operator with a
    nullspace, with the values it leaves in the new vectors (for a
    forward operator that reads no coefficient and original vectors
    that exist when it is called). *)
Lemma create_schur_nullspace_data (P : Operator) (fwd : Slate)
  (V V_d : Space) (T : FunctionSpace) (comm : nat) (s : State) :
  handle (getNullSpace P) <> 0%nat ->
  coefficients fwd = [] ->
  (forall v, In v (ns_vecs (getNullSpace P)) -> existing s v) ->
  let tmp := mkFunction (next_id s) V in
  let tmp_b := mkFunction (1 + next_id s) V_d in
  let Pj := mkProjector (Whole tmp) (Whole tmp_b) None None in
  exists ns s',
    create_schur_nullspace P fwd V V_d T comm s = (Ok (Some ns), s') /\
    handle ns <> 0%nat /\
    ns_vecs ns = map NewVec (seq (3 + next_id s)
                                 (length (ns_vecs (getNullSpace P)))) /\
    map (data s') (ns_vecs ns)
    = map (vmul (eval s fwd))
          (projections Pj (vzero V_d)
                       (map (data s) (ns_vecs (getNullSpace P)))) /\
    forall v, In v (ns_vecs (getNullSpace P)) -> data s' v = data s v.
Proof.
  intros Hh Hc Hv tmp tmp_b Pj.
  unfold create_schur_nullspace.
  apply Nat.eqb_neq in Hh. rewrite Hh.
  erewrite bind_run by reflexivity.
  erewrite bind_run by reflexivity.
  erewrite bind_run by reflexivity.
  norm.
  set (st := set_next_id _ _).
  assert (Nst : next_id st = (3 + next_id s)%nat) by reflexivity.
  assert (Est : env st = env s) by reflexivity.
  assert (Dst : forall loc, existing s loc -> data st loc = data s loc).
  { intros loc Hloc. unfold st. norm.
    destruct (existing_outside s V V_d (Plain T) loc Hloc)
      as (O1 & O2 & O3 & _).
    cbn [fn_id Nat.add] in O1, O2, O3.
    rewrite !upd_other by congruence. reflexivity. }
  assert (Bst : data st (Dat (S (next_id s))) = vzero V_d).
  { unfold st. norm. rewrite upd_other by (intros E; injection E; lia).
    apply upd_same. }
  fold tmp. fold tmp_b.
  set (tnsp := mkFunction (S (S (next_id s))) (Plain T)).
  assert (Ho : forall v, In v (ns_vecs (getNullSpace P)) ->
                         outside tmp tmp_b tnsp (next_id st) v).
  { intros v Hin. rewrite Nst.
    apply (existing_outside s V V_d (Plain T)). apply Hv. exact Hin. }
  pose proof (@transfer_loop_data tmp tmp_b tnsp fwd
                (ns_vecs (getNullSpace P)) Hc
                ltac:(cbn; lia) ltac:(cbn; lia) ltac:(cbn; lia) st
                ltac:(cbn; lia) ltac:(cbn; lia) ltac:(cbn; lia) Ho) as Hloop.
  cbv zeta in Hloop. destruct Hloop as (st' & R & D & E & F).
  erewrite bind_run by exact R.
  eexists. eexists. split; [reflexivity|]. cbn [ns_vecs handle]. norm.
  split; [discriminate|].
  split; [rewrite Nst; reflexivity|].
  split.
  - rewrite D. fold Pj. rewrite (@eval_closed s st fwd Hc Est).
    change (fn_id tmp_b) with (S (next_id s)). rewrite Bst.
    f_equal. f_equal. apply map_ext_in. intros v Hin. apply Dst.
    apply Hv. exact Hin.
  - intros v Hin. rewrite F by (apply Ho; exact Hin).
    apply Dst. apply Hv. exact Hin.
Qed.

Ltac nullspace_data P :=
  match goal with
  | Hh : handle (getNullSpace P) <> 0%nat,
    Hex : forall v, In v (ns_vecs (getNullSpace P)) -> existing ?s v
    |- context [bind (create_schur_nullspace P ?f ?V ?Vd ?T ?c) _ ?st] =>
      let st0 := fresh "st" in
      let N0 := fresh "N" in
      let E0 := fresh "En" in
      let D0 := fresh "D" in
      let X0 := fresh "X" in
      set (st0 := st);
      assert (N0 : next_id st0 = (7 + next_id s)%nat) by reflexivity;
      assert (E0 : env st0 = env s) by reflexivity;
      assert (D0 : forall loc, existing s loc -> data st0 loc = data s loc)
        by (let loc := fresh "loc" in
            let Hl := fresh "Hl" in
            intros loc Hl; unfold st0; norm;
            destruct loc; cbn [existing] in Hl;
            rewrite !upd_other
              by (try discriminate;
                  let Eq := fresh "Eq" in intros Eq; injection Eq; lia);
            reflexivity);
      assert (X0 : forall v, In v (ns_vecs (getNullSpace P)) -> existing st0 v)
        by (let v := fresh "v" in
            let Hin := fresh "Hin" in
            intros v Hin; specialize (Hex v Hin);
            destruct v; cbn [existing] in Hex |- *; rewrite ?N0; lia || exact I);
      let ns := fresh "ns" in
      let s1 := fresh "s1" in
      let Hrun := fresh "Hrun" in
      let Hvecs := fresh "Hvecs" in
      let Hval := fresh "Hval" in
      let Hns := fresh "Hns" in
      destruct (@create_schur_nullspace_data P f V Vd T c st0 Hh eq_refl X0)
        as (ns & s1 & Hrun & Hns & Hvecs & Hval & _);
      apply Nat.eqb_neq in Hns;
      erewrite bind_run by exact Hrun;
      cbv beta iota; rewrite Hns; cbn [negb]
  end.

Ltac nullspace_values :=
  match goal with
  | Hbase : ly_base ?l = next_id ?s, Hi : ly_vector_index ?l = _,
    N0 : next_id ?st0 = (7 + next_id ?s)%nat, Hvecs : ns_vecs ?ns = _,
    Hval : map (data ?s1) (ns_vecs ?ns) = _,
    E0 : env ?st0 = _,
    D0 : forall loc, existing _ loc -> data ?st0 loc = _,
    Hex : forall v, In v _ -> existing _ v |- _ =>
      norm; rewrite Hbase;
      change (10 + next_id s)%nat with (3 + (7 + next_id s))%nat;
      rewrite <- N0, <- Hvecs, Hval;
      unfold ly_tmp, ly_tmp_b, ly_K, ly_Atilde, ly_gammar, ly_V_d, ly_V,
             ly_TraceSpace;
      rewrite Hbase, Hi, N0;
      match goal with
      | |- map (vmul ?a) (projections ?p ?z ?vs)
           = map (vmul ?a') (projections ?p' ?z' ?vs') =>
          let Ea := fresh "Ea" in
          let Ev := fresh "Ev" in
          assert (Ea : a = a')
            by (apply eval_ext; [exact E0 | intros ? []]);
          assert (Ev : vs = vs')
            by (apply map_ext_in;
                let v := fresh "v" in let Hin := fresh "Hin" in
                intros v Hin; apply D0; apply Hex; exact Hin);
          rewrite Ea, Ev; reflexivity
      end
  end.

Ltac run_to_values P Q vecs Pj :=
  repeat step; eval_sigma;
  match goal with
  | E0 : truthy _ = _, E1 : truthy _ = _ |- _ => rewrite E0, E1
  end;
  repeat step; nullspace_data P; norm; repeat step;
  blocks; repeat step; index_of_W; repeat step;
  (eexists; split; [reflexivity|]);
  unfold Q, vecs, Pj;
  nullspace_values.

(** The values of the vectors of the nullspace [initialize] attaches to
    [S]. *)
Lemma initialize_nullspace_data (pc : PC) (s : State) (l : Layout) :
  layout_of pc s l ->
  handle (getNullSpace (snd (getOperators pc))) <> 0%nat ->
  (forall v, In v (ns_vecs (getNullSpace (snd (getOperators pc)))) ->
             existing s v) ->
  let vecs := ns_vecs (getNullSpace (snd (getOperators pc))) in
  let Pj := mkProjector (Whole (ly_tmp l)) (Whole (ly_tmp_b l)) None None in
  exists s',
    initialize pc s = (Ok tt, s') /\
    map (data s') (map NewVec (seq (10 + ly_base l) (length vecs)))
    = map (vmul (eval s (ly_K l * Inv (ly_Atilde l))%slate))
          (projections Pj (vzero (ly_V_d l)) (map (data s) vecs)).
Proof.
  intros [Ha Hfc Hargs HV Hmesh Hvec Hdeg Hbase HA HB HC HD Htol Hpre Hcomm]
         Hh Hex vecs Pj.
  set (Q := fun s' : State =>
         map (data s') (map NewVec (seq (10 + ly_base l) (length vecs)))
         = map (vmul (eval s (ly_K l * Inv (ly_Atilde l))%slate))
               (projections Pj (vzero (ly_V_d l)) (map (data s) vecs))).
  change (exists s', initialize pc s = (Ok tt, s') /\ Q s').
  unfold initialize.
  destruct (getOperators pc) as [A0 P] eqn:EP.
  cbn [snd] in Ha, Hfc, Hh, Hex, vecs.
  enter_initialize.
  destruct Hvec as [(Hi & E0 & E1) | (Hi & E0 & E1)].
  - pick_W (ly_V0 l). run_to_values P Q vecs Pj.
  - pick_W (ly_V1 l). run_to_values P Q vecs Pj.
Qed.

(** C7.  Without a nullspace on the original operator,
    [create_schur_nullspace] returns [None] and leaves the state as it
    was: nothing is allocated, projected or assembled; [initialize] then
    attaches no nullspace to the reduced operator and, up to there, has
    only assembled [S].  With a nullspace of [k] vectors, the function
    returns a nullspace of [k] new vectors; for each original vector [v],
    in order, it copies [v] into the conforming field [tmp], projects
    [tmp] into the broken field [tmp_b], assembles [forward * tmp_b]
    into the trace field [tnsp_tmp] and copies that into the new vector.
    The new vectors hold what these calls compute: for a forward
    operator that reads no coefficient and original vectors that exist
    when the function is called, the i-th new vector holds the forward
    operator applied to the projection of the i-th original vector into
    the broken space (the projection being handed, as the previous
    contents of its target, the projection of the vector before, and
    the zero function for the first); the original vectors keep their
    contents.  [initialize] calls the function with
    [forward = K * Atilde.inv], which reads no coefficient, and attaches
    the result to the reduced operator, whose nullspace vectors then
    hold those values. *)
Theorem nullspace_transfer :
  (forall P fwd V V_d T comm s,
     handle (getNullSpace P) = 0%nat ->
     create_schur_nullspace P fwd V V_d T comm s = (Ok None, s)) /\
  (forall P fwd V V_d T comm s,
     handle (getNullSpace P) <> 0%nat ->
     let vecs := ns_vecs (getNullSpace P) in
     let k := length vecs in
     let n := next_id s in
     let tmp := mkFunction n V in
     let tmp_b := mkFunction (1 + n) V_d in
     let tnsp_tmp := mkFunction (2 + n) (Plain T) in
     exists ns s',
       create_schur_nullspace P fwd V V_d T comm s = (Ok (Some ns), s') /\
       handle ns <> 0%nat /\
       length (ns_vecs ns) = k /\
       ns_vecs ns = map NewVec (seq (3 + n) k) /\
       log s' = log s ++
                transfer_events tmp tmp_b tnsp_tmp
                  (fwd * Coeff (Whole tmp_b))%slate vecs (3 + n) /\
       (coefficients fwd = [] ->
        (forall v, In v vecs -> existing s v) ->
        map (data s') (ns_vecs ns)
        = map (vmul (eval s fwd))
              (projections (mkProjector (Whole tmp) (Whole tmp_b) None None)
                           (vzero V_d) (map (data s) vecs)) /\
        forall v, In v vecs -> data s' v = data s v)) /\
  (forall pc s,
     succeeds (initialize pc) s ->
     let P := snd (getOperators pc) in
     let s' := after (initialize pc) s in
     exists l, layout_of pc s l /\
       self_attr s' "S" = Some (AMatrix (ly_S l)) /\
       (handle (getNullSpace P) = 0%nat ->
        mat_nullspace s' (mat_id (ly_S l)) = None /\
        log s' = log s ++ [EvAssemble (ly_assemble_S l);
                           EvForceEvaluation (ly_S l)]) /\
       (handle (getNullSpace P) <> 0%nat ->
        exists ns,
          mat_nullspace s' (mat_id (ly_S l)) = Some ns /\
          length (ns_vecs ns) = length (ns_vecs (getNullSpace P)) /\
          log s' = log s ++ [EvAssemble (ly_assemble_S l);
                             EvForceEvaluation (ly_S l)]
                   ++ transfer_events (ly_tmp l) (ly_tmp_b l) (ly_tnsp_tmp l)
                        (ly_K l * Inv (ly_Atilde l)
                         * Coeff (Whole (ly_tmp_b l)))%slate
                        (ns_vecs (getNullSpace P)) (10 + next_id s) /\
          coefficients (ly_K l * Inv (ly_Atilde l))%slate = [] /\
          ((forall v, In v (ns_vecs (getNullSpace P)) -> existing s v) ->
           map (data s') (ns_vecs ns)
           = map (vmul (eval s (ly_K l * Inv (ly_Atilde l))%slate))
                 (projections
                    (mkProjector (Whole (ly_tmp l)) (Whole (ly_tmp_b l))
                                 None None)
                    (vzero (ly_V_d l))
                    (map (data s) (ns_vecs (getNullSpace P))))))).
Proof.
  split; [|split].
  - intros. apply create_schur_nullspace_none. assumption.
  - intros P fwd V V_d T comm s Hh vecs k n tmp tmp_b tnsp_tmp.
    destruct (create_schur_nullspace_some P fwd V V_d T comm s Hh)
      as (s' & Hrun & _ & Hlog).
    eexists. exists s'. split; [exact Hrun|].
    cbn [handle ns_vecs]. split; [discriminate|].
    split; [rewrite length_map, length_seq; reflexivity|].
    split; [reflexivity|]. split; [exact Hlog|].
    intros Hc Hex.
    destruct (@create_schur_nullspace_data P fwd V V_d T comm s Hh Hc Hex)
      as (ns & t & Hrun' & _ & Hvecs & Hval & Hkeep).
    rewrite Hrun in Hrun'. injection Hrun' as <- <-.
    cbn [ns_vecs] in Hval. split; [exact Hval | exact Hkeep].
  - intros pc s H P s'.
    destruct (initialize_ready pc H)
      as (l & Hl & [Hvec Hattrs] & _ & Hlog & Hns).
    exists l. split; [exact Hl|].
    split; [eapply self_attr_ready; [exact Hattrs | reflexivity]|].
    fold P in Hlog, Hns. fold s' in Hlog, Hns.
    unfold ly_nullspace_events in Hlog. unfold ly_schur_nullspace in Hns.
    split.
    + intros Hz. apply Nat.eqb_eq in Hz. rewrite Hz in Hlog, Hns.
      rewrite app_nil_r in Hlog. split; assumption.
    + intros Hnz. pose proof Hnz as Hb.
      apply Nat.eqb_neq in Hb. rewrite Hb in Hlog, Hns.
      eexists. split; [exact Hns|]. cbn [ns_vecs].
      split; [rewrite length_map, length_seq; reflexivity|].
      split; [rewrite Hlog, (lo_base Hl); reflexivity|].
      split; [reflexivity|].
      intros Hex.
      destruct (@initialize_nullspace_data pc s l Hl Hnz Hex) as (t & Hrun & Hval).
      unfold s', after. rewrite Hrun. exact Hval.
Qed.

End Properties.

(** ** Concrete runs *)

Example poisson_ready : ready poisson_layout poisson_state.
Proof.
  split.
  - left. repeat split.
  - exists []. vm_compute. reflexivity.
Qed.

Example poisson_initialized : succeeds (initialize poisson_RT) fresh.
Proof. exists tt. vm_compute. reflexivity. Defined.

(** C1, counterexample.  For the H(div) x L2 problem, [initialize]
    completes and the callable for the right-hand side is not created
    with the trace boundary condition. *)
Lemma Srhs_callable_without_bcs :
  fst (initialize poisson_RT fresh) = Ok tt /\
  ~ (exists c,
       self_attr poisson_state "_assemble_Srhs" = Some (ACallable c) /\
       ac_bcs c = [mkDirichletBC
                     (ScalarFunctionSpace unit_square "HDiv Trace" 0)
                     0 "on_boundary"]).
Proof.
  split; [vm_compute; reflexivity|].
  intros (c & Hc & Hb). vm_compute in Hc. injection Hc as <-.
  cbn in Hb. discriminate Hb.
Qed.

Lemma schur_callables_witness :
  succeeds (initialize poisson_RT) fresh /\
  exists c,
    self_attr poisson_state "_assemble_Srhs" = Some (ACallable c) /\
    ac_bcs c = [].
Proof.
  split; [exact poisson_initialized|].
  destruct (@schur_callables _ poisson_RT fresh poisson_initialized)
    as (l & test & trial & sigma & _ & _ & _ & _ & _ & _ & _ & _ & H).
  eexists. split; [exact H | reflexivity].
Defined.

Lemma reconstruction_expressions_witness :
  succeeds (initialize poisson_RT) fresh /\
  vector_valued (RT unit_square 1) = true /\
  exists c g f,
    self_attr poisson_state "_assemble_pressure" = Some (ACallable c) /\
    In g (coefficients (ac_expr c)) /\ In f (coefficients (ac_expr c)) /\
    ufl_shape g <> [] /\ ufl_shape f = [].
Proof.
  split; [exact poisson_initialized|]. split; [reflexivity|].
  destruct (@reconstruction_expressions _ poisson_RT fresh
              (TestFunction poisson_V) (TrialFunction poisson_V)
              (RT unit_square 1) poisson_initialized
              eq_refl eq_refl eq_refl)
    as (l & A & B & C & D & sigma_h & u_h & g & f & Hl & _ & _ & _ & _ & _
        & _ & _ & Hg & Hf & _ & _ & Hp & _).
  eexists. exists g, f. split; [exact Hp|].
  split; [cbn; tauto|]. split; [cbn; tauto|].
  split; [exact Hg | exact Hf].
Defined.

(** C4, the code at the H(div) x L2 problem.  [broken_rhs] is function
    1 and [unbroken_rhs] is function 4; the forward projector projects
    the vector component of [broken_rhs] onto itself, and [apply] begins
    by copying [x] into [unbroken_rhs], running that projector, and
    copying the scalar component of [unbroken_rhs] into [broken_rhs]. *)
Lemma forward_projector_source :
  fst (initialize poisson_RT fresh) = Ok tt /\
  self_attr poisson_state "broken_rhs"
  = Some (AFunction (mkFunction 1 poisson_V_d)) /\
  self_attr poisson_state "unbroken_rhs"
  = Some (AFunction (mkFunction 4 poisson_V)) /\
  self_attr poisson_state "data_projector"
  = Some (AProjector
            (mkProjector (Split (mkFunction 1 poisson_V_d) 0)
                         (Split (mkFunction 1 poisson_V_d) 0) None None)) /\
  firstn 3 (skipn (length (log poisson_state))
              (log (after (apply poisson_RT (PVec 0) (PVec 1)) poisson_state)))
  = [ EvVecCopy (PVec 0) (Dat 4);
      EvProject (mkProjector (Split (mkFunction 1 poisson_V_d) 0)
                             (Split (mkFunction 1 poisson_V_d) 0) None None);
      EvDatCopy (Split (mkFunction 4 poisson_V) 1)
                (Split (mkFunction 1 poisson_V_d) 1) ].
Proof. repeat split; vm_compute; reflexivity. Qed.

Lemma trace_degree_from_family_witness :
  family (ufl_element (RT unit_square 1)) = "Raviart-Thomas" /\
  family (ufl_element (BDM unit_square 1)) = "Brezzi-Douglas-Marini" /\
  family (ufl_element (N1curl unit_square 1)) <> "Raviart-Thomas" /\
  family (ufl_element (N1curl unit_square 1)) <> "Brezzi-Douglas-Marini" /\
  trace_degree (RT unit_square 1) fresh = (Ok 0%Z, fresh) /\
  trace_degree (BDM unit_square 1) fresh = (Ok 1%Z, fresh) /\
  initialize (problem unit_square [N1curl unit_square 1; DG unit_square 0])
             fresh
  = (Raise (ValueError "N1curl not supported at the moment."), fresh).
Proof.
  assert (H1 : family (ufl_element (N1curl unit_square 1))
               <> "Raviart-Thomas") by discriminate.
  assert (H2 : family (ufl_element (N1curl unit_square 1))
               <> "Brezzi-Douglas-Marini") by discriminate.
  destruct (@trace_degree_from_family ZBackend) as (Hrt & Hbdm & _ & _ & Hrej).
  split; [reflexivity|]. split; [reflexivity|].
  split; [exact H1|]. split; [exact H2|].
  split; [exact (Hrt (RT unit_square 1) fresh eq_refl)|].
  split; [exact (Hbdm (BDM unit_square 1) fresh eq_refl)|].
  exact (Hrej (problem unit_square [N1curl unit_square 1; DG unit_square 0])
              fresh _ _ unit_square (N1curl unit_square 1) (DG unit_square 0)
              (N1curl unit_square 1) eq_refl eq_refl eq_refl eq_refl H1 H2).
Defined.

Lemma initialize_rejects_witness :
  initialize (problem extruded_mesh [RT extruded_mesh 1; DG extruded_mesh 0])
             fresh
  = (Raise (NotImplementedError "Not implemented on extruded meshes."),
     fresh) /\
  initialize (problem unit_square [RT unit_square 1; DG unit_square 0;
                                   DG unit_square 0]) fresh
  = (Raise (AssertionError
              "Can only hybridize a mixed system with two spaces."), fresh) /\
  initialize (problem unit_square [RT unit_square 1; BDM unit_square 1]) fresh
  = (Raise (ValueError
              "Expecting an H(div) x L2 pair of spaces. Both spaces cannot be vector-valued."),
     fresh).
Proof.
  split; [|split].
  - exact (proj1 (@initialize_rejects ZBackend
                    (problem extruded_mesh
                       [RT extruded_mesh 1; DG extruded_mesh 0])
                    fresh _ _ eq_refl) eq_refl).
  - refine (proj1 (proj2 (@initialize_rejects ZBackend
                    (problem unit_square
                       [RT unit_square 1; DG unit_square 0; DG unit_square 0])
                    fresh _ _ eq_refl)) eq_refl _).
    cbn. discriminate.
  - exact (proj2 (proj2 (@initialize_rejects ZBackend
                    (problem unit_square
                       [RT unit_square 1; BDM unit_square 1])
                    fresh _ _ eq_refl)) eq_refl eq_refl eq_refl).
Defined.

Example singular_initialized : succeeds (initialize singular_RT) fresh.
Proof. exists tt. vm_compute. reflexivity. Defined.

Lemma singular_vectors_exist :
  forall v, In v (ns_vecs (getNullSpace (snd (getOperators singular_RT)))) ->
            existing fresh v.
Proof.
  intros v Hin. cbn in Hin. destruct Hin as [<- | [<- | []]]; exact I.
Defined.

Lemma nullspace_transfer_witness :
  handle (getNullSpace (snd (getOperators poisson_RT))) = 0%nat /\
  handle (getNullSpace (snd (getOperators singular_RT))) <> 0%nat /\
  (exists l, mat_nullspace poisson_state (mat_id (ly_S l)) = None) /\
  (exists l ns,
     let s' := after (initialize singular_RT) fresh in
     mat_nullspace s' (mat_id (ly_S l)) = Some ns /\
     length (ns_vecs ns) = 2%nat /\
     map (data s') (ns_vecs ns)
     = map (vmul (eval fresh (ly_K l * Inv (ly_Atilde l))%slate))
           (projections
              (mkProjector (Whole (ly_tmp l)) (Whole (ly_tmp_b l)) None None)
              (vzero (ly_V_d l))
              (map (data fresh) [PVec 10; PVec 11]))).
Proof.
  destruct (@nullspace_transfer ZBackend) as (_ & _ & Hinit).
  split; [reflexivity|]. split; [discriminate|]. split.
  - destruct (Hinit poisson_RT fresh poisson_initialized)
      as (l & _ & _ & Hnone & _).
    exists l. exact (proj1 (Hnone eq_refl)).
  - destruct (Hinit singular_RT fresh singular_initialized)
      as (l & _ & _ & _ & Hsome).
    assert (Hnz : handle (getNullSpace (snd (getOperators singular_RT)))
                  <> 0%nat) by discriminate.
    destruct (Hsome Hnz) as (ns & Hns & Hlen & _ & _ & Hval).
    exists l, ns. split; [exact Hns|]. split; [exact Hlen|].
    exact (Hval singular_vectors_exist).
Defined.

Example fresh_has_no_attribute : self_attr fresh "unbroken_rhs" = None.
Proof. reflexivity. Qed.

Lemma pvec_not_field i : ~ In (PVec i) (ly_fields poisson_layout).
Proof.
  cbn; intros H; repeat (destruct H as [H | H]; try discriminate H); exact H.
Defined.

Lemma poisson_no_nullspace_vecs :
  forall v, In v (nullspace_vecs poisson_state (ly_S poisson_layout)) ->
            ~ In v (ly_fields poisson_layout).
Proof. intros v Hv. vm_compute in Hv. destruct Hv. Defined.

Lemma apply_order_witness :
  ready poisson_layout poisson_state /\
  ly_vector_index poisson_layout = 0%nat /\
  ~ In (PVec 1) (ly_fields poisson_layout) /\
  self_attr fresh "unbroken_rhs" = None /\
  let s' := after (apply poisson_RT (PVec 0) (PVec 1)) poisson_state in
  log s' = log poisson_state ++ apply_events poisson_layout (PVec 0) (PVec 1) /\
  data s' (Dat 4) = data poisson_state (PVec 0) /\
  data s' (Dat 0) = reconstructed poisson_layout s' (data poisson_state (Dat 0)) /\
  data s' (PVec 1) = data s' (Dat 3) /\
  apply poisson_RT (PVec 0) (PVec 1) fresh
  = (Raise (AttributeError "unbroken_rhs"), fresh).
Proof.
  split; [exact poisson_ready|]. split; [reflexivity|].
  split; [exact (@pvec_not_field 1%nat)|]. split; [reflexivity|].
  destruct (@apply_order ZBackend poisson_layout poisson_RT (PVec 0) (PVec 1)
              poisson_state fresh poisson_ready eq_refl
              (@pvec_not_field 1%nat) poisson_no_nullspace_vecs eq_refl)
    as (Hlog & Hx & _ & _ & _ & _ & _ & _ & _ & Hrec & _ & Hy & _ & Hraise).
  split; [exact Hlog|]. split; [exact Hx|]. split; [exact Hrec|].
  split; [exact Hy | exact Hraise].
Defined.

Lemma update_idempotent_witness :
  ready poisson_layout poisson_state /\
  forall i,
    mats (after (update poisson_RT) (after (update poisson_RT) poisson_state))
         i
    = mats (after (update poisson_RT) poisson_state) i.
Proof.
  split; [exact poisson_ready|].
  destruct (@update_idempotent ZBackend poisson_layout poisson_RT
              poisson_state poisson_ready)
    as (_ & _ & Hm & _).
  exact Hm.
Defined.

Lemma apply_frame_witness :
  ready poisson_layout poisson_state /\
  ~ In (PVec 0) (ly_fields poisson_layout) /\
  ~ In (PVec 1) (ly_fields poisson_layout) /\
  PVec 0 <> PVec 1 /\
  let s' := after (apply poisson_RT (PVec 0) (PVec 1)) poisson_state in
  data s' (PVec 0) = data poisson_state (PVec 0) /\
  data s' (Dat 4) = data poisson_state (PVec 0) /\
  data s' (PVec 1)
  = backward_transfer poisson_layout (data s' (Dat 0))
                      (data poisson_state (Dat 3)).
Proof.
  assert (Hxy : PVec 0 <> PVec 1) by discriminate.
  split; [exact poisson_ready|]. split; [exact (@pvec_not_field 0%nat)|].
  split; [exact (@pvec_not_field 1%nat)|]. split; [exact Hxy|].
  destruct (@apply_frame ZBackend poisson_layout poisson_RT (PVec 0) (PVec 1)
              poisson_state poisson_ready (@pvec_not_field 0%nat)
              (@pvec_not_field 1%nat) Hxy)
    as (Hx & Hr & _ & Hy & _).
  split; [exact Hx|]. split; [exact Hr | exact Hy].
Defined.

(** ** Concrete runs of the further properties *)

Lemma poisson_hybridizable :
  hybridizable poisson_RT (TestFunction poisson_V) (TrialFunction poisson_V)
               unit_square (RT unit_square 1) (DG unit_square 0)
               (RT unit_square 1).
Proof. constructor; try reflexivity. left. reflexivity. Defined.

Lemma scalar_pair_not_accepted : ~ accepted poisson_DG_DG.
Proof.
  intros (test & trial & m & V0 & V1 & W & [Hargs HV Hmesh Hvec Hfam] & _).
  cbn in Hargs. injection Hargs as <- <-.
  cbn in HV. injection HV as <- <- <-.
  discriminate Hvec.
Defined.

Lemma initialize_only_accepted_witness :
  succeeds (initialize poisson_RT) fresh /\ accepted poisson_RT /\
  ~ accepted poisson_DG_DG /\
  exists e s', initialize poisson_DG_DG fresh = (Raise e, s').
Proof.
  split; [exact poisson_initialized|].
  split; [exact (proj1 (@initialize_only_accepted ZBackend poisson_RT fresh)
                       poisson_initialized)|].
  split; [exact scalar_pair_not_accepted|].
  exact (proj2 (@initialize_only_accepted ZBackend poisson_DG_DG fresh)
               scalar_pair_not_accepted).
Defined.

Lemma initialize_scalar_pair_witness :
  len (function_space (TestFunction
         (Mixed unit_square [DG unit_square 1; DG unit_square 0]))) = 2%nat /\
  initialize poisson_DG_DG fresh
  = (Raise (ValueError "need more than 0 values to unpack"), fresh).
Proof.
  split; [reflexivity|].
  apply (@initialize_scalar_pair ZBackend poisson_DG_DG fresh
           (TestFunction (Mixed unit_square [DG unit_square 1; DG unit_square 0]))
           (TrialFunction (Mixed unit_square [DG unit_square 1; DG unit_square 0])));
    try reflexivity.
  intros Vi Hin. cbn in Hin. destruct Hin as [<- | [<- | []]]; reflexivity.
Defined.

Lemma initialize_missing_block_witness :
  find (fun k => negb (@has_block SparseBackend
                         (Atilde_form_of poisson_RT (TestFunction poisson_V)
                            (TrialFunction poisson_V) unit_square
                            (RT unit_square 1) (DG unit_square 0)) k))
       block_keys = Some (1, 1)%nat /\
  fst (@initialize SparseBackend poisson_RT fresh_sparse)
  = Raise (KeyError (1, 1)%nat).
Proof.
  split; [reflexivity|].
  exact (proj1 (@initialize_missing_block SparseBackend poisson_RT fresh_sparse
                  _ _ _ _ _ _ _ poisson_hybridizable eq_refl)).
Defined.

Lemma use_after_missing_block_witness :
  @self_attr SparseBackend fresh_sparse "data_projector" = None /\
  succeeds (update poisson_RT)
           (after (@initialize SparseBackend poisson_RT) fresh_sparse) /\
  fst (apply poisson_RT (PVec 0) (PVec 1)
         (after (@initialize SparseBackend poisson_RT) fresh_sparse))
  = Raise (AttributeError "data_projector").
Proof.
  split; [reflexivity|].
  destruct (@use_after_missing_block SparseBackend poisson_RT fresh_sparse
              _ _ _ _ _ _ _ (PVec 0) (PVec 1) poisson_hybridizable eq_refl
              eq_refl) as (H1 & _ & H3).
  split; [exact H1|]. rewrite H3. reflexivity.
Defined.

Lemma solver_configuration_witness :
  succeeds (initialize poisson_RT) fresh /\
  exists S,
    self_attr poisson_state "ksp"
    = Some (AKSP (mkKSP 0 "hybridization_" (Some S) true true)).
Proof.
  split; [exact poisson_initialized|].
  destruct (@solver_configuration ZBackend poisson_RT fresh poisson_initialized)
    as (S & src & tgt & dsrc & dtgt & _ & H & _).
  exists S. exact H.
Defined.

Lemma update_after_initialize_witness :
  succeeds (initialize poisson_RT) fresh /\
  forall i, mats (after (update poisson_RT) poisson_state) i
            = mats poisson_state i.
Proof.
  split; [exact poisson_initialized|].
  exact (proj1 (proj2 (@update_after_initialize ZBackend poisson_RT fresh
                         poisson_initialized))).
Defined.

Lemma update_assembles_witness :
  ready poisson_layout poisson_state /\
  forall loc, loc <> Dat 5 ->
    data (after (update poisson_RT) poisson_state) loc
    = data poisson_state loc.
Proof.
  split; [exact poisson_ready|].
  exact (proj2 (proj2 (proj2 (@update_assembles ZBackend poisson_layout
                                poisson_RT poisson_state poisson_ready)))).
Defined.

Example pair_ready : @ready PairBackend poisson_layout pair_state.
Proof.
  split.
  - left. repeat split.
  - exists []. vm_compute. reflexivity.
Qed.

Lemma apply_reads_scalar_part_witness :
  @ready PairBackend poisson_layout pair_state /\
  data pair_state (PVec 0) <> data pair_state (PVec 1) /\
  @get_comp PairBackend (ly_scalar_index poisson_layout)
            (data pair_state (PVec 0))
  = @get_comp PairBackend (ly_scalar_index poisson_layout)
              (data pair_state (PVec 1)) /\
  data (after (apply poisson_RT (PVec 0) (PVec 3)) pair_state) (PVec 3)
  = data (after (apply poisson_RT (PVec 1) (PVec 3)) pair_state) (PVec 3) /\
  data (after (apply poisson_RT (PVec 0) (PVec 3)) pair_state) (PVec 3)
  <> data (after (apply poisson_RT (PVec 2) (PVec 3)) pair_state) (PVec 3).
Proof.
  split; [exact pair_ready|].
  split; [vm_compute; discriminate|].
  split; [reflexivity|].
  split.
  - refine (proj1 (@apply_reads_scalar_part PairBackend poisson_layout
                     poisson_RT (PVec 0) (PVec 1) (PVec 3) pair_state
                     pair_ready _ eq_refl)).
    vm_compute. intros H. exact H.
  - vm_compute. discriminate.
Defined.

Lemma apply_trace_solve_witness :
  ready poisson_layout poisson_state /\
  ~ In (PVec 1) (ly_fields poisson_layout) /\
  let s' := after (apply poisson_RT (PVec 0) (PVec 1)) poisson_state in
  data s' (Dat 5) = eval s' (ac_expr (ly_assemble_Srhs poisson_layout)).
Proof.
  split; [exact poisson_ready|]. split; [exact (@pvec_not_field 1%nat)|].
  exact (proj1 (@apply_trace_solve ZBackend poisson_layout poisson_RT
                  (PVec 0) (PVec 1) poisson_state poisson_ready
                  (@pvec_not_field 1%nat) poisson_no_nullspace_vecs)).
Defined.

Lemma update_after_apply_witness :
  ready poisson_layout poisson_state /\
  ~ In (PVec 1) (ly_fields poisson_layout) /\
  let s1 := after (apply poisson_RT (PVec 0) (PVec 1)) poisson_state in
  let s2 := after (update poisson_RT) s1 in
  (forall loc, data s2 loc = data s1 loc) /\
  mats s2 (mat_id (ly_S poisson_layout))
  = apply_bcs (ly_trace_conditions poisson_layout)
              (eval s1 (ly_schur_comp poisson_layout)).
Proof.
  split; [exact poisson_ready|]. split; [exact (@pvec_not_field 1%nat)|].
  destruct (@update_after_apply ZBackend poisson_layout poisson_RT
              (PVec 0) (PVec 1) poisson_state poisson_ready
              (@pvec_not_field 1%nat)) as (_ & Hd & _ & Hm).
  split; [exact Hd | exact Hm].
Defined.

Lemma calls_after_setup_witness :
  ready poisson_layout poisson_state /\
  let cs := [CUpdate; CApply (PVec 0) (PVec 1); CApply (PVec 1) (PVec 0);
             CUpdate] in
  let s' := after (run_calls poisson_RT cs) poisson_state in
  ready poisson_layout s' /\
  self_dict s' = self_dict poisson_state /\
  In CUpdate cs /\
  mats s' (mat_id (ly_S poisson_layout))
  = apply_bcs (ly_trace_conditions poisson_layout)
              (eval s' (ly_schur_comp poisson_layout)) /\
  (forall loc, ~ In loc (ly_fields poisson_layout) ->
               ~ In loc [PVec 1; PVec 0] -> data s' loc = data poisson_state loc).
Proof.
  split; [exact poisson_ready|]. intros cs s'.
  destruct (@calls_after_setup ZBackend poisson_layout poisson_RT cs
              poisson_state poisson_ready)
    as (Hr & Hd & _ & _ & _ & _ & _ & Hdata & _ & _ & Hm).
  assert (Hin : In CUpdate cs) by (left; reflexivity).
  split; [exact Hr|]. split; [exact Hd|]. split; [exact Hin|].
  split; [exact (Hm Hin) | exact Hdata].
Defined.

Lemma schur_nullspace_values_witness :
  handle (getNullSpace (snd (getOperators singular_RT))) <> 0%nat /\
  coefficients (ly_forward poisson_layout) = [] /\
  exists ns,
    fst (create_schur_nullspace (snd (getOperators singular_RT))
           (ly_forward poisson_layout) poisson_V poisson_V_d
           (ly_TraceSpace poisson_layout) 0 fresh) = Ok (Some ns) /\
    length (ns_vecs ns) = 2%nat.
Proof.
  assert (Hh : handle (getNullSpace (snd (getOperators singular_RT)))
               <> 0%nat) by discriminate.
  split; [exact Hh|]. split; [reflexivity|].
  destruct (@schur_nullspace_values ZBackend
              (snd (getOperators singular_RT)) (ly_forward poisson_layout)
              poisson_V poisson_V_d (ly_TraceSpace poisson_layout) 0 fresh
              Hh eq_refl) as (ns & Hrun & Hval & _).
  { intros v Hin. cbn in Hin. destruct Hin as [<- | [<- | []]]; exact I. }
  exists ns. split; [exact Hrun|].
  apply (f_equal (@length _)) in Hval. rewrite !length_map in Hval.
  rewrite Hval. reflexivity.
Defined.

Lemma quiet_tab_neutral pc : tab_neutral (quiet_PCBase_view pc).
Proof.
  intros w. exists w. split; [reflexivity|]. split; [reflexivity|].
  exists []. symmetry. apply app_nil_r.
Defined.

Lemma line_tab_neutral k : tab_neutral (line_KSP_view k).
Proof.
  intros w. eexists. split; [reflexivity|]. split; [reflexivity|].
  eexists. reflexivity.
Defined.

Lemma view_tab_level_witness :
  self_attr poisson_state "ksp" = Some (AKSP (ly_ksp poisson_layout)) /\
  exists w',
    view quiet_PCBase_view line_KSP_view poisson_RT poisson_state
         (Some blank_viewer) = (Ok tt, Some w') /\
    vw_tab w' = 1%nat.
Proof.
  split; [vm_compute; reflexivity|].
  apply (@view_tab_level ZBackend quiet_PCBase_view line_KSP_view poisson_RT
           poisson_state (ly_ksp poisson_layout) blank_viewer
           (quiet_tab_neutral poisson_RT) line_tab_neutral).
  vm_compute. reflexivity.
Defined.

Lemma view_failures_witness :
  view quiet_PCBase_view line_KSP_view poisson_RT poisson_state None
  = (Raise (AttributeError "printfASCII"), None) /\
  exists w',
    view quiet_PCBase_view line_KSP_view poisson_RT fresh (Some blank_viewer)
    = (Raise (AttributeError "ksp"), Some w') /\
    vw_tab w' = 2%nat.
Proof.
  split.
  - exact (proj1 (@view_failures ZBackend quiet_PCBase_view line_KSP_view
                    poisson_RT poisson_state blank_viewer) eq_refl).
  - exact (proj2 (@view_failures ZBackend quiet_PCBase_view line_KSP_view
                    poisson_RT fresh blank_viewer)
                 (quiet_tab_neutral poisson_RT) eq_refl).
Defined.
